(** * Image processing with matrices: a shallow embedding of [mybranch.cpp]

    The program stores an image as a nested vector
    [data[height][width][channel]] of [int] samples and offers seven
    transforms, each building a fresh output image.  This development
    embeds the [Image] class and the seven transforms and settles the
    properties stated about them.

    Conventions of the embedding:
    - [int] values are integers of [Z]; where the program adds two of
      them the 32-bit two's-complement wrap-around is written out;
    - a [std::vector] is a [list]; indexing it outside its bounds (which
      the program's [operator()] does not check) is the fault
      [OutOfRange], and building one with a negative size is the fault
      [LengthError];
    - [float] and [double] values are IEEE-754 binary32 and binary64
      numbers; every operation is rounded on its own, to nearest, ties
      to even (no fused multiply-add, no excess precision);
    - statements of the program that can fault live in the [result]
      monad; a [for] loop threads the image being written through its
      body. *)

From Stdlib Require Import ZArith List Lia Bool.
From Stdlib Require Import Floats.SpecFloat.
From Stdlib Require Import Ascii.
From stdpp Require Import base list.

Local Open Scope Z_scope.

(* ================================================================== *)
(** * Faults and the [result] monad *)
(* ================================================================== *)

Inductive fault : Type :=
| OutOfRange      (* element access outside a vector *)
| LengthError    (* a vector built with a negative size *)
| BadConversion. (* a floating-point value that does not fit [int] *)

Inductive result (A : Type) : Type :=
| Ok (a : A)
| Fault (e : fault).
Arguments Ok {A} a.
Arguments Fault {A} e.

#[global] Instance result_ret : MRet result := fun A a => Ok a.
#[global] Instance result_bind : MBind result := fun A B f m =>
  match m with
  | Ok a => f a
  | Fault e => Fault e
  end.

(** [for (int i = 0; i < n; i++) body] over a threaded state. *)
Fixpoint for_from {S : Type} (i : Z) (count : nat)
    (body : Z -> S -> result S) (s : S) : result S :=
  match count with
  | O => Ok s
  | Datatypes.S count' => s' ← body i s; for_from (i + 1) count' body s'
  end.

Definition for_range {S : Type} (n : Z) (body : Z -> S -> result S) (s : S)
  : result S :=
  for_from 0 (Z.to_nat n) body s.

(* ================================================================== *)
(** * Machine integers *)
(* ================================================================== *)

Definition INT_MIN : Z := - 2 ^ 31.
Definition INT_MAX : Z := 2 ^ 31 - 1.

(** Two's-complement reduction of an integer to 32 bits. *)
Definition wrap32 (z : Z) : Z := (z + 2 ^ 31) mod 2 ^ 32 - 2 ^ 31.

Definition int_add (a b : Z) : Z := wrap32 (a + b).

(* ================================================================== *)
(** * Vectors *)
(* ================================================================== *)

(** [v[i]] read. *)
Definition vec_at {A : Type} (v : list A) (i : Z) : result A :=
  if i <? 0 then Fault OutOfRange
  else match v !! Z.to_nat i with
       | Some a => Ok a
       | None => Fault OutOfRange
       end.

(** [v[i] = a]. *)
Definition vec_set {A : Type} (v : list A) (i : Z) (a : A) : result (list A) :=
  if (0 <=? i) && (i <? Z.of_nat (length v))
  then Ok (<[Z.to_nat i := a]> v)
  else Fault OutOfRange.

(** [std::vector<T>(n, a)], and [resize(n, a)] of an empty vector. *)
Definition vec_make {A : Type} (n : Z) (a : A) : result (list A) :=
  if n <? 0 then Fault LengthError else Ok (replicate (Z.to_nat n) a).

(* ================================================================== *)
(** * IEEE-754 binary floating point

    A value is not-a-number, an infinity, or the finite number
    [m * 2^e].  The sign of zero is not tracked: the program never
    divides, so the two zeros are indistinguishable to it. *)
(* ================================================================== *)

Record format : Type := { prec : Z; emax : Z }.

Definition emin (f : format) : Z := 3 - emax f - prec f.

Definition binary32 : format := {| prec := 24; emax := 128 |}.
Definition binary64 : format := {| prec := 53; emax := 1024 |}.

Inductive fp : Type :=
| NaN
| Inf (neg : bool)
| Fin (m e : Z).

(** Number of binary digits of [|m|]. *)
Definition digits (m : Z) : Z :=
  if m =? 0 then 0 else Z.log2 (Z.abs m) + 1.

(** [a / 2^k] rounded to the nearest integer, ties to even
    ([0 <= a], [0 < k]). *)
Definition rne_shift (a k : Z) : Z :=
  let q := a / 2 ^ k in
  let r := a mod 2 ^ k in
  let half := 2 ^ (k - 1) in
  if r <? half then q
  else if half <? r then q + 1
  else if Z.even q then q else q + 1.

(** The exact number [m * 2^e] rounded into format [f]: a mantissa of at
    most [prec f] digits, an exponent not below [emin f], infinity when
    the rounded number reaches [2^emax f]. *)
Definition round (f : format) (m e : Z) : fp :=
  if m =? 0 then Fin 0 0
  else
    let fe := Z.max (digits m + e - prec f) (emin f) in
    let '(m', e') :=
      if fe <=? e then (m, e)
      else (Z.sgn m * rne_shift (Z.abs m) (fe - e), fe) in
    if emax f <? digits m' + e' then Inf (m <? 0) else Fin m' e'.

(** The rational [n / d] ([0 < n], [0 < d]) rounded into format [f]:
    the quotient is taken with more digits than the format holds and a
    sticky last bit, which rounds as the exact quotient does.  This is
    how a decimal literal of the source gets its value. *)
Definition of_ratio (f : format) (n d : Z) : fp :=
  let k := prec f + 3 + Z.log2 d - Z.log2 n in
  let k := Z.max k 0 in
  let q := (n * 2 ^ k) / d in
  let sticky := if (n * 2 ^ k) mod d =? 0 then 0 else 1 in
  round f (2 * q + sticky) (- (k + 1)).

Definition fneg (x : fp) : fp :=
  match x with
  | NaN => NaN
  | Inf s => Inf (negb s)
  | Fin m e => Fin (- m) e
  end.

Definition fadd (f : format) (x y : fp) : fp :=
  match x, y with
  | NaN, _ | _, NaN => NaN
  | Inf s1, Inf s2 => if Bool.eqb s1 s2 then Inf s1 else NaN
  | Inf s, Fin _ _ | Fin _ _, Inf s => Inf s
  | Fin m1 e1, Fin m2 e2 =>
      let e := Z.min e1 e2 in
      round f (m1 * 2 ^ (e1 - e) + m2 * 2 ^ (e2 - e)) e
  end.

Definition fsub (f : format) (x y : fp) : fp := fadd f x (fneg y).

Definition fmul (f : format) (x y : fp) : fp :=
  match x, y with
  | NaN, _ | _, NaN => NaN
  | Inf s1, Inf s2 => Inf (xorb s1 s2)
  | Inf s, Fin m _ | Fin m _, Inf s =>
      if m =? 0 then NaN else Inf (xorb s (m <? 0))
  | Fin m1 e1, Fin m2 e2 => round f (m1 * m2) (e1 + e2)
  end.

(** [x < y]; false as soon as one side is not a number. *)
Definition flt (x y : fp) : bool :=
  match x, y with
  | NaN, _ | _, NaN => false
  | Inf s1, Inf s2 => s1 && negb s2
  | Inf s, Fin _ _ => s
  | Fin _ _, Inf s => negb s
  | Fin m1 e1, Fin m2 e2 =>
      let e := Z.min e1 e2 in
      m1 * 2 ^ (e1 - e) <? m2 * 2 ^ (e2 - e)
  end.

(** [std::max(a, b)] is [(a < b) ? b : a], [std::min(a, b)] is
    [(b < a) ? b : a]. *)
Definition fmax (a b : fp) : fp := if flt a b then b else a.
Definition fmin (a b : fp) : fp := if flt b a then b else a.

(** Conversion of an [int] to a floating-point format. *)
Definition of_int (f : format) (z : Z) : fp := round f z 0.

(** Truncation toward zero of a finite value. *)
Definition trunc (m e : Z) : Z :=
  if 0 <=? e then m * 2 ^ e else Z.quot m (2 ^ (- e)).

(** Conversion of a floating-point value to [int]: the value truncated
    toward zero; no result when it is not finite or does not fit. *)
Definition to_int (x : fp) : result Z :=
  match x with
  | Fin m e =>
      let t := trunc m e in
      if (INT_MIN <=? t) && (t <=? INT_MAX) then Ok t else Fault BadConversion
  | _ => Fault BadConversion
  end.

(** The literals of the source. *)
Definition lit_0_299 : fp := of_ratio binary64 299 1000.
Definition lit_0_587 : fp := of_ratio binary64 587 1000.
Definition lit_0_114 : fp := of_ratio binary64 114 1000.
Definition lit_128f : fp := of_int binary32 128.
Definition lit_255f : fp := of_int binary32 255.
Definition lit_0f : fp := of_int binary32 0.
Definition lit_1f : fp := of_int binary32 1.
Definition lit_1_5f : fp := of_ratio binary32 3 2.

(* ================================================================== *)
(** * The [Image] class *)
(* ================================================================== *)

Record Image : Type := mkImage {
  width : Z;
  height : Z;
  maxVal : Z;
  channels : Z;
  data : list (list (list Z))   (* [height][width][channel] *)
}.

(** Default constructor. *)
Definition Image_default : Image :=
  {| width := 0; height := 0; maxVal := 255; channels := 3; data := [] |}.

(** [Image(int w, int h, int ch = 3)]: the blank image.  The three
    vectors are built from the innermost outwards, so a negative size at
    any level raises before an image exists. *)
Definition Image_ctor (w h ch : Z) : result Image :=
  px ← vec_make ch 0;
  row ← vec_make w px;
  d ← vec_make h row;
  Ok {| width := w; height := h; maxVal := 255; channels := ch; data := d |}.

Definition getWidth (img : Image) : Z := width img.
Definition getHeight (img : Image) : Z := height img.
Definition getChannels (img : Image) : Z := channels img.

Definition with_data (img : Image) (d : list (list (list Z))) : Image :=
  {| width := width img; height := height img; maxVal := maxVal img;
     channels := channels img; data := d |}.

(** [operator()(y, x, channel)] read: [data[y][x][channel]]. *)
Definition pixel (img : Image) (y x channel : Z) : result Z :=
  row ← vec_at (data img) y;
  px ← vec_at row x;
  vec_at px channel.

(** [img(y, x, channel) = v]: assignment through the reference that
    [operator()] returns. *)
Definition pixel_assign (img : Image) (y x channel v : Z) : result Image :=
  row ← vec_at (data img) y;
  px ← vec_at row x;
  px' ← vec_set px channel v;
  row' ← vec_set row x px';
  d' ← vec_set (data img) y row';
  Ok (with_data img d').

(* ================================================================== *)
(** * The seven transforms *)
(* ================================================================== *)

Definition convertToGrayscale (input : Image) : result Image :=
  let height := getHeight input in
  let width := getWidth input in
  output ← Image_ctor width height 1;
  for_range height (fun y output =>
    for_range width (fun x output =>
      R ← pixel input y x 0;
      G ← pixel input y x 1;
      B ← pixel input y x 2;
      gray ← to_int
        (fadd binary64
           (fadd binary64
              (fmul binary64 lit_0_299 (of_int binary64 R))
              (fmul binary64 lit_0_587 (of_int binary64 G)))
           (fmul binary64 lit_0_114 (of_int binary64 B)));
      pixel_assign output y x 0 gray) output) output.

Definition flipHorizontal (input : Image) : result Image :=
  let height := getHeight input in
  let width := getWidth input in
  let channels := getChannels input in
  output ← Image_ctor width height channels;
  for_range height (fun y output =>
    for_range width (fun x output =>
      for_range channels (fun c output =>
        v ← pixel input y x c;
        pixel_assign output y (width - 1 - x) c v) output) output) output.

Definition flipVertical (input : Image) : result Image :=
  let height := getHeight input in
  let width := getWidth input in
  let channels := getChannels input in
  output ← Image_ctor width height channels;
  for_range height (fun y output =>
    for_range width (fun x output =>
      for_range channels (fun c output =>
        v ← pixel input y x c;
        pixel_assign output (height - 1 - y) x c v) output) output) output.

Definition adjustBrightness (input : Image) (value : Z) : result Image :=
  let height := getHeight input in
  let width := getWidth input in
  let channels := getChannels input in
  output ← Image_ctor width height channels;
  for_range height (fun y output =>
    for_range width (fun x output =>
      for_range channels (fun c output =>
        v ← pixel input y x c;
        let new_value := int_add v value in
        let new_value := Z.max 0 (Z.min 255 new_value) in
        pixel_assign output y x c new_value) output) output) output.

(** The loop variable named [x] runs over the rows' count and the one
    named [y] over the columns' count, as in the source. *)
Definition adjustContrast (input : Image) (factor : fp) : result Image :=
  let height := getHeight input in
  let width := getWidth input in
  let channels := getChannels input in
  output ← Image_ctor width height channels;
  for_range height (fun x output =>
    for_range width (fun y output =>
      for_range channels (fun c output =>
        v ← pixel input y x c;
        let original := of_int binary32 v in
        let adjusted :=
          fadd binary32
            (fmul binary32 factor (fsub binary32 original lit_128f))
            lit_128f in
        let adjusted := fmax lit_0f (fmin lit_255f adjusted) in
        stored ← to_int adjusted;
        pixel_assign output y x c stored) output) output) output.

(** The body of the source is the constructor call and the [return]. *)
Definition applyBlur (input : Image) : result Image :=
  let height := getHeight input in
  let width := getWidth input in
  let channels := getChannels input in
  output ← Image_ctor width height channels;
  Ok output.

(** Likewise, with the two sizes exchanged in the constructor call. *)
Definition rotate90 (input : Image) : result Image :=
  let height := getHeight input in
  let width := getWidth input in
  let channels := getChannels input in
  output ← Image_ctor height width channels;
  Ok output.

(* ================================================================== *)
(** * Well-formed images *)
(* ================================================================== *)

(** The buffer has [height] rows of [width] pixels of [channels]
    samples. *)
Definition shape_ok (img : Image) : bool :=
  (0 <=? width img) && (0 <=? height img) && (0 <=? channels img)
  && (Z.of_nat (length (data img)) =? height img)
  && forallb (fun row =>
       (Z.of_nat (length row) =? width img)
       && forallb (fun px => Z.of_nat (length px) =? channels img) row)
     (data img).

Definition sample_ok (v : Z) : bool := (0 <=? v) && (v <=? 255).

(** Every stored sample lies in [0, 255]. *)
Definition samples_ok (img : Image) : bool :=
  forallb (forallb (forallb sample_ok)) (data img).

(** Same sizes and same samples. *)
Definition same_grid (a b : Image) : Prop :=
  width a = width b /\ height a = height b /\ channels a = channels b
  /\ data a = data b.

(** Every sample of the image is zero. *)
Definition all_zero (img : Image) : bool :=
  forallb (forallb (forallb (Z.eqb 0))) (data img).

(** The shape of the buffer, as a proposition. *)
Definition wf (img : Image) : Prop :=
  0 <= width img /\ 0 <= height img /\ 0 <= channels img
  /\ Z.of_nat (length (data img)) = height img
  /\ Forall (fun row =>
       Z.of_nat (length row) = width img
       /\ Forall (fun px => Z.of_nat (length px) = channels img) row)
     (data img).

(** The indices [(y, x, c)] of the samples the image holds. *)
Definition in_box (img : Image) (p : Z * Z * Z) : Prop :=
  let '(y, x, c) := p in
  0 <= y < height img /\ 0 <= x < width img /\ 0 <= c < channels img.

(** Read and assignment at a triple of indices. *)
Definition pixel_at (img : Image) (p : Z * Z * Z) : result Z :=
  let '(y, x, c) := p in pixel img y x c.

Definition assign_at (img : Image) (p : Z * Z * Z) (v : Z) : result Image :=
  let '(y, x, c) := p in pixel_assign img y x c v.

(** Same sizes. *)
Definition same_dims (a b : Image) : Prop :=
  width a = width b /\ height a = height b /\ channels a = channels b.

(** Samples in range, as a proposition. *)
Definition in_range (img : Image) : Prop :=
  Forall (Forall (Forall (fun v => 0 <= v <= 255))) (data img).

(* ================================================================== *)
(** * The transforms as the specification words them *)
(* ================================================================== *)

(** A sample read with no fault: zero outside the image. *)
Definition sample (img : Image) (y x c : Z) : Z :=
  match pixel img y x c with
  | Ok v => v
  | Fault _ => 0
  end.

(** Sum of the 3x3 neighbourhood of [(row, col)] in channel [c]. *)
Definition box_sum (img : Image) (row col c : Z) : Z :=
  fold_right Z.add 0
    (flat_map (fun ky => List.map (fun kx => sample img (row + ky) (col + kx) c)
                           [-1; 0; 1]) [-1; 0; 1]).

(** The blurred sample the specification asks for. *)
Definition blur_spec (img : Image) (row col c : Z) : Z :=
  if (1 <=? row) && (row <=? height img - 2)
     && (1 <=? col) && (col <=? width img - 2)
  then box_sum img row col c / 9
  else 0.

Fixpoint iter_result {A : Type} (n : nat) (f : A -> result A) (a : A)
  : result A :=
  match n with
  | O => Ok a
  | Datatypes.S n' => a' ← f a; iter_result n' f a'
  end.

(* ================================================================== *)
(** * Concrete images *)
(* ================================================================== *)

(** The 4x4 image [createTestImage] builds and [main] transforms. *)
Definition test_image : Image :=
  {| width := 4; height := 4; maxVal := 255; channels := 3;
     data :=
       [ [ [255; 0; 0];     [0; 255; 0];     [0; 0; 255];     [255; 255; 255] ];
         [ [255; 255; 0];   [255; 0; 255];   [0; 255; 255];   [128; 128; 128] ];
         [ [255; 128; 0];   [128; 255; 0];   [128; 0; 255];   [255; 128; 128] ];
         [ [128; 255; 128]; [128; 128; 255]; [255; 255; 128]; [0; 0; 0] ] ] |}.

(** A 3x3 image of one channel, every sample 9. *)
Definition nines : Image :=
  {| width := 3; height := 3; maxVal := 255; channels := 1;
     data := [ [[9]; [9]; [9]]; [[9]; [9]; [9]]; [[9]; [9]; [9]] ] |}.

(** A 1x1 image of one channel holding 7. *)
Definition dot : Image :=
  {| width := 1; height := 1; maxVal := 255; channels := 1;
     data := [ [[7]] ] |}.

(** Two pixels side by side: width 2, height 1. *)
Definition wide : Image :=
  {| width := 2; height := 1; maxVal := 255; channels := 1;
     data := [ [[10]; [20]] ] |}.

(** The first row of the image the demonstration builds. *)
Definition row0 : list (list Z) :=
  [ [255; 0; 0]; [0; 255; 0]; [0; 0; 255]; [255; 255; 255] ].

(** A grid of zero width and five rows. *)
Definition no_columns : Image :=
  {| width := 0; height := 5; maxVal := 255; channels := 3;
     data := [ []; []; []; []; [] ] |}.

(* ================================================================== *)
(** * Loops as runs over index lists *)
(* ================================================================== *)

(** The body applied along a list of indices, left to right. *)
Fixpoint run {I S : Type} (body : I -> S -> result S) (idxs : list I) (s : S)
  : result S :=
  match idxs with
  | [] => Ok s
  | i :: rest => s' ← body i s; run body rest s'
  end.

(** The indices a nest of two, and of three, counting loops visits, in
    the order it visits them. *)
Definition idx2 (n1 n2 : Z) : list (Z * Z) :=
  i ← seqZ 0 n1; pair i <$> seqZ 0 n2.

Definition idx3 (n1 n2 n3 : Z) : list (Z * Z * Z) :=
  ij ← idx2 n1 n2; pair ij <$> seqZ 0 n3.

(** [createTestImage]: the blank 4x4 image, then the three assignments
    of each pixel, row by row (the file it then writes is left out). *)
Definition createTestImage : result Image :=
  img ← Image_ctor 4 4 3;
  run (fun '(y, x, (r, g, b)) img =>
         img ← pixel_assign img y x 0 r;
         img ← pixel_assign img y x 1 g;
         pixel_assign img y x 2 b)
    [ (0, 0, (255, 0, 0));     (0, 1, (0, 255, 0));
      (0, 2, (0, 0, 255));     (0, 3, (255, 255, 255));
      (1, 0, (255, 255, 0));   (1, 1, (255, 0, 255));
      (1, 2, (0, 255, 255));   (1, 3, (128, 128, 128));
      (2, 0, (255, 128, 0));   (2, 1, (128, 255, 0));
      (2, 2, (128, 0, 255));   (2, 3, (255, 128, 128));
      (3, 0, (128, 255, 128)); (3, 1, (128, 128, 255));
      (3, 2, (255, 255, 128)); (3, 3, (0, 0, 0)) ] img.

(* ================================================================== *)
(** * One sample at a time *)
(* ================================================================== *)

(** The brightness of one sample. *)
Definition brighten (value v : Z) : Z := Z.max 0 (Z.min 255 (int_add v value)).

(** The grey level of one pixel and the contrast of one sample, as the
    bodies of [convertToGrayscale] and [adjustContrast] compute them. *)
Definition gray_value (R G B : Z) : result Z :=
  to_int
    (fadd binary64
       (fadd binary64
          (fmul binary64 lit_0_299 (of_int binary64 R))
          (fmul binary64 lit_0_587 (of_int binary64 G)))
       (fmul binary64 lit_0_114 (of_int binary64 B))).

Definition contrast_value (factor : fp) (v : Z) : result Z :=
  let original := of_int binary32 v in
  let adjusted :=
    fadd binary32 (fmul binary32 factor (fsub binary32 original lit_128f))
      lit_128f in
  let adjusted := fmax lit_0f (fmin lit_255f adjusted) in
  to_int adjusted.

(** The two values as integers, zero standing in for a fault. *)
Definition gray_level (R G B : Z) : Z :=
  match gray_value R G B with Ok t => t | Fault _ => 0 end.

Definition contrast_level (factor : fp) (v : Z) : Z :=
  match contrast_value factor v with Ok t => t | Fault _ => 0 end.

(* ================================================================== *)
(** * What a call returns *)
(* ================================================================== *)

(** The result is a grid. *)
Definition returns (r : result Image) : Prop := exists out, r = Ok out.

(** The result is a grid whose samples lie in [0, 255]. *)
Definition returns_in_range (r : result Image) : Prop :=
  exists out, r = Ok out /\ samples_ok out = true.

(** If the result is a grid, its samples lie in [0, 255]. *)
Definition keeps_range (r : result Image) : Prop :=
  forall out, r = Ok out -> samples_ok out = true.

(* ================================================================== *)
(** * Checks that compute *)
(* ================================================================== *)

Definition fp_eqb (x y : fp) : bool :=
  match x, y with
  | NaN, NaN => true
  | Inf s1, Inf s2 => Bool.eqb s1 s2
  | Fin m1 e1, Fin m2 e2 => (m1 =? m2) && (e1 =? e2)
  | _, _ => false
  end.

Definition is_Ok_of (r : result Z) (v : Z) : bool :=
  match r with
  | Ok t => t =? v
  | Fault _ => false
  end.

(* ================================================================== *)
(** * The same operations in the Standard Library's [SpecFloat]

    [SpecFloat] specifies IEEE-754 arithmetic on sign, mantissa and
    exponent.  The definitions below run an operation of this file and
    the one of [SpecFloat] side by side. *)
(* ================================================================== *)

Definition to_spec (f : format) (x : fp) : spec_float :=
  match x with
  | NaN => S754_nan
  | Inf s => S754_infinity s
  | Fin m e => binary_normalize (prec f) (emax f) m e false
  end.

(** The same number, or not a number on both sides. *)
Definition spec_agree (a b : spec_float) : bool :=
  match a, b with
  | S754_nan, S754_nan => true
  | _, _ => SFeqb a b
  end.

Definition agree2 (f : format) (op : fp -> fp -> fp)
    (sop : spec_float -> spec_float -> spec_float) (x y : fp) : bool :=
  spec_agree (to_spec f (op x y)) (sop (to_spec f x) (to_spec f y)).

(** Every step of the contrast of one sample. *)
Definition check_contrast (factor : fp) (v : Z) : bool :=
  let o := of_int binary32 v in
  let d := fsub binary32 o lit_128f in
  let p := fmul binary32 factor d in
  let a := fadd binary32 p lit_128f in
  agree2 binary32 (fsub binary32) (SFsub 24 128) o lit_128f
  && agree2 binary32 (fmul binary32) (SFmul 24 128) factor d
  && agree2 binary32 (fadd binary32) (SFadd 24 128) p lit_128f
  && Bool.eqb (flt a lit_255f)
       (SFltb (to_spec binary32 a) (to_spec binary32 lit_255f))
  && Bool.eqb (flt lit_0f a)
       (SFltb (to_spec binary32 lit_0f) (to_spec binary32 a)).

(** Every step of the grey level of one pixel. *)
Definition check_gray (R G B : Z) : bool :=
  let r := of_int binary64 R in
  let g := of_int binary64 G in
  let b := of_int binary64 B in
  let t1 := fmul binary64 lit_0_299 r in
  let t2 := fmul binary64 lit_0_587 g in
  let t3 := fmul binary64 lit_0_114 b in
  let s := fadd binary64 t1 t2 in
  agree2 binary64 (fmul binary64) (SFmul 53 1024) lit_0_299 r
  && agree2 binary64 (fmul binary64) (SFmul 53 1024) lit_0_587 g
  && agree2 binary64 (fmul binary64) (SFmul 53 1024) lit_0_114 b
  && agree2 binary64 (fadd binary64) (SFadd 53 1024) t1 t2
  && agree2 binary64 (fadd binary64) (SFadd 53 1024) s t3.

(** Factors to try: 1, 1.5, 0.1, -3, the least and the largest
    binary32 numbers, the infinities, not-a-number and zero. *)
Definition factors : list fp :=
  [ lit_1f; lit_1_5f; of_ratio binary32 1 10; Fin (-3) 0; Fin 1 (-149);
    Fin (2 ^ 24 - 1) 104; Fin (- (2 ^ 24 - 1)) 104;
    Inf false; Inf true; NaN; Fin 0 0 ].

(** A literal against the correctly rounded quotient of [SpecFloat]. *)
Definition check_literal (f : format) (x : fp) (n d : Z) : bool :=
  spec_agree (to_spec f x)
    (SFdiv (prec f) (emax f) (to_spec f (Fin n 0)) (to_spec f (Fin d 0))).

(* ================================================================== *)
(** * [setChannels] *)
(* ================================================================== *)

(** [v.resize(n, a)]: the first [n] elements of [v], followed by copies
    of [a] when [v] is shorter than [n]; a negative [n] raises as in
    the constructor. *)
Definition vec_resize {A : Type} (v : list A) (n : Z) (a : A)
  : result (list A) :=
  if n <? 0 then Fault LengthError
  else Ok (take (Z.to_nat n) v ++ replicate (Z.to_nat n - length v) a).

Definition with_channels (img : Image) (ch : Z) : Image :=
  {| width := width img; height := height img; maxVal := maxVal img;
     channels := ch; data := data img |}.

(** [data[y][x].resize(channels, 0)]. *)
Definition resize_pixel (img : Image) (y x : Z) : result Image :=
  row ← vec_at (data img) y;
  px ← vec_at row x;
  px' ← vec_resize px (channels img) 0;
  row' ← vec_set row x px';
  d' ← vec_set (data img) y row';
  Ok (with_data img d').

(** [setChannels(ch)]: the field is set first, then every pixel vector
    is resized, zero filling the new channels. *)
Definition setChannels (img : Image) (ch : Z) : result Image :=
  let img := with_channels img ch in
  for_range (height img) (fun y img =>
    for_range (width img) (fun x img => resize_pixel img y x) img) img.

(** The vector of the samples of pixel [(y, x)], and the assignment of
    such a vector. *)
Definition pixel_vec (img : Image) (p : Z * Z) : result (list Z) :=
  row ← vec_at (data img) p.1; vec_at row p.2.

Definition store_vec (img : Image) (p : Z * Z) (px : list Z) : result Image :=
  row ← vec_at (data img) p.1;
  row' ← vec_set row p.2 px;
  d' ← vec_set (data img) p.1 row';
  Ok (with_data img d').

(** Rows and columns as the header says, whatever the pixels hold. *)
Definition grid_ok (img : Image) : Prop :=
  0 <= width img /\ 0 <= height img
  /\ Z.of_nat (length (data img)) = height img
  /\ Forall (fun row => Z.of_nat (length row) = width img) (data img).

(** What [resize(ch, 0)] makes of a pixel vector. *)
Definition resized (ch : Z) (px : list Z) : list Z :=
  take (Z.to_nat ch) px ++ replicate (Z.to_nat ch - length px) 0.

(** An image as a file read with another [maxVal] gives it: one pixel,
    three channels, [maxVal] 100. *)
Definition low : Image :=
  {| width := 1; height := 1; maxVal := 100; channels := 3;
     data := [ [[10; 50; 100]] ] |}.

(** The header of a grid: [maxVal], width, height, channel count. *)
Definition header_is (m w h ch : Z) (img : Image) : Prop :=
  maxVal img = m /\ width img = w /\ height img = h /\ channels img = ch.

(* ================================================================== *)
(** * Text streams

    A file is the list of its characters.  [operator<<] on an [int]
    appends its decimal digits, after a minus sign when it is negative.
    [operator>>] skips white space and then reads a word or a decimal
    integer; once an extraction has failed the stream stays failed and
    later extractions leave their target as it is.  The classic locale
    is assumed; an output stream is assumed not to fail. *)
(* ================================================================== *)

Definition text : Type := list ascii.

Definition nl : ascii := "010"%char.
Definition sp : ascii := " "%char.

Definition code (c : ascii) : Z := Z.of_N (N_of_ascii c).

(** [isspace]: space, tab, line feed, vertical tab, form feed, carriage
    return. *)
Definition is_space (c : ascii) : bool :=
  (code c =? 32) || ((9 <=? code c) && (code c <=? 13)).

Definition is_digit (c : ascii) : bool := (48 <=? code c) && (code c <=? 57).

Definition digit_char (d : Z) : ascii := ascii_of_N (Z.to_N (48 + d)).

(** The digits of [n >= 0] in front of [acc], most significant first. *)
Fixpoint show_digits (fuel : nat) (n : Z) (acc : text) : text :=
  match fuel with
  | O => acc
  | Datatypes.S fuel' =>
      let acc' := digit_char (n mod 10) :: acc in
      if n <? 10 then acc' else show_digits fuel' (n / 10) acc'
  end.

Definition show_nat (n : Z) : text :=
  show_digits (Datatypes.S (Z.to_nat (Z.log2 n))) n [].

(** [file << n] for an [int]. *)
Definition show_int (z : Z) : text :=
  if z <? 0 then "-"%char :: show_nat (- z) else show_nat z.

(** An input stream: what is left to read, and the fail bit. *)
Record istream : Type := { rest : text; failed : bool }.

Fixpoint skip_space (s : text) : text :=
  match s with
  | c :: s' => if is_space c then skip_space s' else s
  | [] => []
  end.

(** The digits at the head of [s], accumulated onto [acc]. *)
Fixpoint read_digits (s : text) (acc : Z) : Z * text :=
  match s with
  | c :: s' =>
      if is_digit c then read_digits s' (10 * acc + (code c - 48))
      else (acc, s)
  | [] => (acc, [])
  end.

(** [file >> n] for an [int] holding [old].  A failed stream, or one
    with nothing but white space left, leaves [n] as it is; a field
    with no digit stores 0, one too large for [int] stores the nearest
    bound; each of these sets the fail bit. *)
Definition read_int (file : istream) (old : Z) : Z * istream :=
  if failed file then (old, file)
  else
    match skip_space (rest file) with
    | [] => (old, {| rest := []; failed := true |})
    | c :: s' =>
        let '(neg, s1) :=
          if Ascii.eqb c "-" then (true, s')
          else if Ascii.eqb c "+" then (false, s')
          else (false, c :: s') in
        match s1 with
        | d :: _ =>
            if is_digit d then
              let '(n, s2) := read_digits s1 0 in
              let v := if neg then - n else n in
              if INT_MAX <? v then (INT_MAX, {| rest := s2; failed := true |})
              else if v <? INT_MIN
                   then (INT_MIN, {| rest := s2; failed := true |})
                   else (v, {| rest := s2; failed := false |})
            else (0, {| rest := s1; failed := true |})
        | [] => (0, {| rest := []; failed := true |})
        end
    end.

(** The characters up to the next white space. *)
Fixpoint read_chars (s : text) : text * text :=
  match s with
  | c :: s' =>
      if is_space c then ([], s)
      else let '(w, r) := read_chars s' in (c :: w, r)
  | [] => ([], [])
  end.

(** [file >> word] for a [string] that is empty before the call. *)
Definition read_word (file : istream) : text * istream :=
  if failed file then ([], file)
  else
    match read_chars (skip_space (rest file)) with
    | ([], r) => ([], {| rest := r; failed := true |})
    | (w, r) => (w, {| rest := r; failed := false |})
    end.

Definition is_P3 (format : text) : bool :=
  match format with
  | [a; b] => Ascii.eqb a "P" && Ascii.eqb b "3"
  | _ => false
  end.

(* ================================================================== *)
(** * [savePPM] and [loadPPM] *)
(* ================================================================== *)

(** [savePPM]: the value returned and the characters written, given
    whether the file could be opened. *)
Definition savePPM (img : Image) (opened : bool) : result (bool * text) :=
  if negb opened then Ok (false, [])
  else
    let file :=
      ["P"%char; "3"%char; nl] ++ show_int (width img) ++ [sp]
      ++ show_int (height img) ++ [nl] ++ show_int (maxVal img) ++ [nl] in
    file ← for_range (height img) (fun y file =>
      file ← for_range (width img) (fun x file =>
        if channels img =? 1 then
          gray ← pixel img y x 0;
          Ok (file ++ show_int gray ++ [sp] ++ show_int gray ++ [sp]
                ++ show_int gray ++ [sp])
        else
          for_range 3 (fun c file =>
            v ← pixel img y x c;
            Ok (file ++ show_int v ++ [sp])) file) file;
      Ok (file ++ [nl])) file;
    Ok (true, file).

(** [file >> data[y][x][c]]. *)
Definition load_sample (y x c : Z) (s : istream * Image)
  : result (istream * Image) :=
  old ← pixel s.2 y x c;
  let '(v, file) := read_int s.1 old in
  img ← pixel_assign s.2 y x c v;
  Ok (file, img).

(** [loadPPM]: the value returned and the image afterwards, given the
    content of the file, if it could be opened. *)
Definition loadPPM (img : Image) (content : option text)
  : result (bool * Image) :=
  match content with
  | None => Ok (false, img)
  | Some chars =>
      let file := {| rest := chars; failed := false |} in
      let '(format, file) := read_word file in
      if negb (is_P3 format) then Ok (false, img)
      else
        let '(w, file) := read_int file (width img) in
        let '(h, file) := read_int file (height img) in
        let '(m, file) := read_int file (maxVal img) in
        px ← vec_make 3 0;
        row ← vec_make w px;
        d ← vec_resize (data img) h row;
        let img :=
          {| width := w; height := h; maxVal := m; channels := 3; data := d |} in
        s ← for_range (height img) (fun y s =>
          for_range (width s.2) (fun x s =>
            for_range (channels s.2) (fun c s => load_sample y x c s) s) s)
          (file, img);
        Ok (true, s.2)
  end.

(** The value of a run of digits read onto [a]. *)
Definition horner (l : text) (a : Z) : Z :=
  fold_left (fun a c => 10 * a + (code c - 48)) l a.

(** The text does not go on with a digit. *)
Definition no_digit_ahead (s : text) : Prop :=
  match s with
  | c :: _ => is_digit c = false
  | [] => True
  end.

(** [reads vs s s']: [s] is the integers [vs], each after optional
    white space and none followed by a digit, and then [s']. *)
Inductive reads : list Z -> text -> text -> Prop :=
| reads_nil (s : text) : reads [] s s
| reads_cons (v : Z) (vs : list Z) (ws s1 s' : text) :
    Forall (fun c => is_space c = true) ws ->
    no_digit_ahead s1 ->
    INT_MIN <= v <= INT_MAX ->
    reads vs s1 s' ->
    reads (v :: vs) (ws ++ show_int v ++ s1) s'.

(** [spells vs t]: wherever [t] is written after white space, reading
    the integers [vs] consumes it up to some white space. *)
Definition spells (vs : list Z) (t : text) : Prop :=
  forall ws tail,
    Forall (fun c => is_space c = true) ws ->
    exists ws',
      Forall (fun c => is_space c = true) ws'
      /\ reads vs (ws ++ t ++ tail) (ws' ++ tail).

Definition int_ok (z : Z) : bool := (INT_MIN <=? z) && (z <=? INT_MAX).

(** Every integer the image holds is an [int]. *)
Definition ints_ok (img : Image) : bool :=
  int_ok (width img) && int_ok (height img) && int_ok (maxVal img)
  && forallb (forallb (forallb int_ok)) (data img).

(** The sample [savePPM] writes for channel [c] of pixel [(y, x)]. *)
Definition saved_sample (img : Image) (p : Z * Z * Z) : Z :=
  if channels img =? 1 then sample img p.1.1 p.1.2 0
  else sample img p.1.1 p.1.2 p.2.

(** Nothing more can be read: the fail bit is set, or only white space
    is left. *)
Definition exhausted (file : istream) : Prop :=
  failed file = true
  \/ (failed file = false /\ Forall (fun c => is_space c = true) (rest file)).

(** The text starts with white space, or is empty. *)
Definition space_ahead (s : text) : Prop :=
  match s with
  | c :: _ => is_space c = true
  | [] => True
  end.

(** What [savePPM] writes for a pixel, a row and the image, in closed
    form. *)
Definition ppm_pixel (img : Image) (y x : Z) : text :=
  seqZ 0 3 ≫= (fun c => show_int (saved_sample img (y, x, c)) ++ [sp]).

Definition ppm_row (img : Image) (y : Z) : text :=
  (seqZ 0 (width img) ≫= ppm_pixel img y) ++ [nl].

Definition ppm_body (img : Image) : text :=
  seqZ 0 (height img) ≫= ppm_row img.

Definition ppm_text (img : Image) : text :=
  ["P"%char; "3"%char; nl] ++ show_int (width img) ++ [sp]
  ++ show_int (height img) ++ [nl] ++ show_int (maxVal img) ++ [nl]
  ++ ppm_body img.

(** One pass of the innermost loop of [loadPPM], at a triple of
    indices. *)
Definition load_at (p : Z * Z * Z) (s : istream * Image)
  : result (istream * Image) :=
  load_sample p.1.1 p.1.2 p.2 s.

(** A P3 file as text: the header, then the integers [vs], each
    followed by a space. *)
Definition ppm_file (w h m : Z) (vs : list Z) : text :=
  ["P"%char; "3"%char; nl] ++ show_int w ++ [sp]
  ++ show_int h ++ [nl] ++ show_int m ++ [nl]
  ++ (vs ≫= (fun v => show_int v ++ [sp])).

(** The place of sample [(y, x, c)] in a row-major list of the samples
    of a grid of width [w] and three channels. *)
Definition row_major (w : Z) (p : Z * Z * Z) : nat :=
  Z.to_nat ((p.1.1 * w + p.1.2) * 3 + p.2).

(* ================================================================== *)
(**                     * * *   Proofs   * * *                      *)
(* ================================================================== *)

(* ================================================================== *)
(** * The monad and the loops *)
(* ================================================================== *)

Lemma bind_Ok {A B : Type} (a : A) (k : A -> result B) : Ok a ≫= k = k a.
Proof. reflexivity. Qed.

Lemma bind_Ok_inv {A B : Type} (m : result A) (k : A -> result B) (b : B) :
  m ≫= k = Ok b -> exists a, m = Ok a /\ k a = Ok b.
Proof. destruct m as [a|e]; simpl; [eauto | discriminate]. Qed.

Lemma run_app {I S : Type} (body : I -> S -> result S) (l1 l2 : list I) (s : S) :
  run body (l1 ++ l2) s = run body l1 s ≫= run body l2.
Proof.
  revert s. induction l1 as [|i l1 IH]; intros s; simpl; [reflexivity|].
  destruct (body i s) as [s'|e]; simpl; [apply IH | reflexivity].
Qed.

Lemma run_fmap {I J S : Type} (f : I -> J) (body : J -> S -> result S)
    (l : list I) (s : S) :
  run body (f <$> l) s = run (fun i => body (f i)) l s.
Proof.
  revert s. induction l as [|i l IH]; intros s; simpl; [reflexivity|].
  destruct (body (f i) s); simpl; [apply IH | reflexivity].
Qed.

Lemma run_ext {I S : Type} (f g : I -> S -> result S) (l : list I) (s : S) :
  (forall i t, i ∈ l -> f i t = g i t) -> run f l s = run g l s.
Proof.
  revert s. induction l as [|i l IH]; intros s Hfg; simpl; [reflexivity|].
  rewrite (Hfg i s) by apply list_elem_of_here.
  destruct (g i s); simpl; [|reflexivity].
  apply IH. intros j t Hj. apply Hfg. by apply list_elem_of_further.
Qed.

Lemma run_nest {I J S : Type} (body : I -> J -> S -> result S)
    (l : list I) (k : list J) (s : S) :
  run (fun i t => run (body i) k t) l s
  = run (fun p => body p.1 p.2) (i ← l; pair i <$> k) s.
Proof.
  revert s. induction l as [|i l IH]; intros s; csimpl; [reflexivity|].
  rewrite run_app, run_fmap. simpl.
  destruct (run (body i) k s); simpl; [apply IH | reflexivity].
Qed.

Lemma for_from_run {S : Type} (body : Z -> S -> result S) (count : nat) :
  forall (i : Z) (s : S),
    for_from i count body s = run body (seqZ i (Z.of_nat count)) s.
Proof.
  induction count as [|count IH]; intros i s.
  - reflexivity.
  - rewrite seqZ_cons by lia. simpl.
    destruct (body i s); simpl; [|reflexivity].
    rewrite IH. do 2 f_equal; lia.
Qed.

Lemma for_range_run {S : Type} (n : Z) (body : Z -> S -> result S) (s : S) :
  for_range n body s = run body (seqZ 0 n) s.
Proof.
  unfold for_range. rewrite for_from_run. f_equal.
  unfold seqZ. by rewrite Nat2Z.id.
Qed.

(** A nest of two loops visits [idx2], a nest of three visits [idx3]. *)
Lemma loop2_run {S : Type} (n1 n2 : Z) (body : Z -> Z -> S -> result S) (s : S) :
  for_range n1 (fun i t => for_range n2 (fun j u => body i j u) t) s
  = run (fun p => body p.1 p.2) (idx2 n1 n2) s.
Proof.
  rewrite for_range_run.
  rewrite (run_ext _ (fun i t => run (body i) (seqZ 0 n2) t)).
  - apply run_nest.
  - intros i t _. apply for_range_run.
Qed.

Lemma loop3_run {S : Type} (n1 n2 n3 : Z) (body : Z -> Z -> Z -> S -> result S)
    (s : S) :
  for_range n1 (fun i t =>
    for_range n2 (fun j u =>
      for_range n3 (fun k v => body i j k v) u) t) s
  = run (fun p => body p.1.1 p.1.2 p.2) (idx3 n1 n2 n3) s.
Proof.
  rewrite (loop2_run n1 n2 (fun i j u => for_range n3 (body i j) u)).
  rewrite (run_ext _ (fun p t => run (body p.1 p.2) (seqZ 0 n3) t)).
  - apply (run_nest (fun p k => body p.1 p.2 k)).
  - intros p t _. apply for_range_run.
Qed.

Lemma elem_of_idx2 (n1 n2 i j : Z) :
  (i, j) ∈ idx2 n1 n2 <-> 0 <= i < n1 /\ 0 <= j < n2.
Proof.
  unfold idx2. rewrite list_elem_of_bind. split.
  - intros (i' & Hj & Hi). apply list_elem_of_fmap in Hj as (j' & Heq & Hj).
    inversion Heq; subst. apply elem_of_seqZ in Hi, Hj. lia.
  - intros [Hi Hj]. exists i. split.
    + apply list_elem_of_fmap. exists j. split; [done|]. apply elem_of_seqZ. lia.
    + apply elem_of_seqZ. lia.
Qed.

Lemma elem_of_idx3 (n1 n2 n3 i j k : Z) :
  (i, j, k) ∈ idx3 n1 n2 n3 <-> 0 <= i < n1 /\ 0 <= j < n2 /\ 0 <= k < n3.
Proof.
  unfold idx3. rewrite list_elem_of_bind. split.
  - intros ([i' j'] & Hk & Hij). apply list_elem_of_fmap in Hk as (k' & Heq & Hk).
    inversion Heq; subst. apply elem_of_idx2 in Hij. apply elem_of_seqZ in Hk. lia.
  - intros (Hi & Hj & Hk). exists (i, j). split.
    + apply list_elem_of_fmap. exists k. split; [done|]. apply elem_of_seqZ. lia.
    + apply elem_of_idx2. lia.
Qed.

Lemma NoDup_pairs {A B : Type} (l : list A) (k : list B) :
  NoDup l -> NoDup k -> NoDup (a ← l; pair a <$> k).
Proof.
  intros Hl Hk. apply NoDup_bind; [| |done].
  - intros a1 a2 [a b] _ _ H1 H2.
    apply list_elem_of_fmap in H1 as (? & [= -> ->] & _).
    apply list_elem_of_fmap in H2 as (? & [= -> _] & _). done.
  - intros a _. apply NoDup_fmap_2; [|done]. by intros ?? [=].
Qed.

Lemma NoDup_idx2 (n1 n2 : Z) : NoDup (idx2 n1 n2).
Proof. apply NoDup_pairs; apply NoDup_seqZ. Qed.

Lemma NoDup_idx3 (n1 n2 n3 : Z) : NoDup (idx3 n1 n2 n3).
Proof. apply NoDup_pairs; [apply NoDup_idx2 | apply NoDup_seqZ]. Qed.

(* ================================================================== *)
(** * Vectors and pixels *)
(* ================================================================== *)

Lemma vec_at_lookup {A : Type} (v : list A) (i : Z) (a : A) :
  0 <= i -> v !! Z.to_nat i = Some a -> vec_at v i = Ok a.
Proof.
  intros Hi Hl. unfold vec_at.
  destruct (Z.ltb_spec i 0); [lia|]. by rewrite Hl.
Qed.

Lemma vec_at_Ok {A : Type} (v : list A) (i : Z) (a : A) :
  vec_at v i = Ok a -> 0 <= i < Z.of_nat (length v) /\ v !! Z.to_nat i = Some a.
Proof.
  unfold vec_at. destruct (Z.ltb_spec i 0); [discriminate|].
  destruct (v !! Z.to_nat i) eqn:Hl; [|discriminate].
  intros [= ->]. apply lookup_lt_Some in Hl as Hlt. split; [lia | done].
Qed.

Lemma vec_at_outside {A : Type} (v : list A) (i : Z) :
  ~ 0 <= i < Z.of_nat (length v) -> vec_at v i = Fault OutOfRange.
Proof.
  intros Hi. unfold vec_at. destruct (Z.ltb_spec i 0); [done|].
  rewrite lookup_ge_None_2; [done | lia].
Qed.

Lemma vec_set_Ok {A : Type} (v : list A) (i : Z) (a : A) :
  0 <= i < Z.of_nat (length v) -> vec_set v i a = Ok (<[Z.to_nat i := a]> v).
Proof.
  intros Hi. unfold vec_set.
  destruct (Z.leb_spec 0 i); [|lia].
  destruct (Z.ltb_spec i (Z.of_nat (length v))); [done | lia].
Qed.

Lemma vec_set_inv {A : Type} (v v' : list A) (i : Z) (a : A) :
  vec_set v i a = Ok v' ->
  0 <= i < Z.of_nat (length v) /\ v' = <[Z.to_nat i := a]> v.
Proof.
  unfold vec_set.
  destruct (Z.leb_spec 0 i); [|discriminate].
  destruct (Z.ltb_spec i (Z.of_nat (length v))); [|discriminate].
  intros [= <-]. split; [lia | done].
Qed.

Lemma vec_at_insert {A : Type} (v : list A) (i j : Z) (a : A) :
  0 <= i < Z.of_nat (length v) ->
  vec_at (<[Z.to_nat i := a]> v) j = if decide (j = i) then Ok a else vec_at v j.
Proof.
  intros Hi. unfold vec_at. destruct (Z.ltb_spec j 0).
  - destruct (decide (j = i)); [lia | done].
  - destruct (decide (j = i)) as [->|Hne].
    + rewrite list_lookup_insert_eq by lia. done.
    + rewrite list_lookup_insert_ne by lia. done.
Qed.

Lemma forallb_Forall {A : Type} (f : A -> bool) (P : A -> Prop) (l : list A) :
  (forall a, f a = true <-> P a) -> forallb f l = true <-> Forall P l.
Proof.
  intros Hf. induction l as [|a l IH]; simpl.
  - split; [constructor | done].
  - rewrite andb_true_iff, Forall_cons, IH, Hf. done.
Qed.

Lemma shape_ok_wf (img : Image) : shape_ok img = true <-> wf img.
Proof.
  unfold shape_ok, wf. rewrite !andb_true_iff, !Z.leb_le, Z.eqb_eq.
  rewrite (forallb_Forall _
    (fun row => Z.of_nat (length row) = width img
       /\ Forall (fun px => Z.of_nat (length px) = channels img) row)).
  - split; intros Hs; destruct_and!; split_and!; done.
  - intros row. rewrite andb_true_iff, Z.eqb_eq.
    rewrite (forallb_Forall _ (fun px => Z.of_nat (length px) = channels img)).
    + done.
    + intros px. apply Z.eqb_eq.
Qed.

Lemma samples_ok_in_range (img : Image) : samples_ok img = true <-> in_range img.
Proof.
  unfold samples_ok, in_range.
  apply forallb_Forall. intros row.
  apply forallb_Forall. intros px.
  apply forallb_Forall. intros v.
  unfold sample_ok. rewrite andb_true_iff, !Z.leb_le. done.
Qed.

(** Inside the box of a well-formed image the three vectors exist. *)
Lemma wf_lookup (img : Image) (y x c : Z) :
  wf img -> in_box img (y, x, c) ->
  exists row px v,
    data img !! Z.to_nat y = Some row /\ length row = Z.to_nat (width img)
    /\ row !! Z.to_nat x = Some px /\ length px = Z.to_nat (channels img)
    /\ px !! Z.to_nat c = Some v.
Proof.
  intros (Hw & Hh & Hc & Hlen & Hrows) (Hy & Hx & Hcc).
  destruct (lookup_lt_is_Some_2 (data img) (Z.to_nat y)) as [row Hrow]; [lia|].
  pose proof (proj1 (Forall_lookup _ _) Hrows _ _ Hrow) as [Hlr Hpxs]. cbv beta in *.
  destruct (lookup_lt_is_Some_2 row (Z.to_nat x)) as [px Hpx]; [lia|].
  pose proof (proj1 (Forall_lookup _ _) Hpxs _ _ Hpx) as Hlp. cbv beta in *.
  destruct (lookup_lt_is_Some_2 px (Z.to_nat c)) as [v Hv]; [lia|].
  exists row, px, v. split_and!; (done || lia).
Qed.

Lemma pixel_in_box (img : Image) (y x c : Z) :
  wf img -> in_box img (y, x, c) -> exists v, pixel img y x c = Ok v.
Proof.
  intros Hwf Hbox.
  destruct (wf_lookup img y x c Hwf Hbox) as (row & px & v & Hr & _ & Hp & _ & Hv).
  destruct Hbox as (? & ? & ?).
  exists v. unfold pixel.
  rewrite (vec_at_lookup _ y _ ltac:(lia) Hr). simpl.
  rewrite (vec_at_lookup _ x _ ltac:(lia) Hp). simpl.
  by apply vec_at_lookup; [lia|].
Qed.

(** Outside the box a read faults. *)
Lemma pixel_outside (img : Image) (y x c : Z) :
  wf img -> ~ in_box img (y, x, c) -> pixel img y x c = Fault OutOfRange.
Proof.
  intros (Hw & Hh & Hc & Hlen & Hrows) Hout. unfold pixel.
  destruct (vec_at (data img) y) as [row|e] eqn:Hrow; simpl.
  2:{ unfold vec_at in Hrow. destruct (y <? 0); [congruence|].
      destruct (data img !! Z.to_nat y); congruence. }
  apply vec_at_Ok in Hrow as [Hy Hrow].
  pose proof (proj1 (Forall_lookup _ _) Hrows _ _ Hrow) as [Hlr Hpxs]. cbv beta in *.
  destruct (vec_at row x) as [px|e] eqn:Hpx; simpl.
  2:{ unfold vec_at in Hpx. destruct (x <? 0); [congruence|].
      destruct (row !! Z.to_nat x); congruence. }
  apply vec_at_Ok in Hpx as [Hx Hpx].
  pose proof (proj1 (Forall_lookup _ _) Hpxs _ _ Hpx) as Hlp. cbv beta in *.
  apply vec_at_outside. intros Hcc. apply Hout. simpl. lia.
Qed.

(** An assignment inside the box succeeds, keeps the shape and changes
    the one sample it names. *)
Lemma pixel_assign_spec (img : Image) (y x c v : Z) :
  wf img -> in_box img (y, x, c) ->
  exists img',
    pixel_assign img y x c v = Ok img'
    /\ wf img' /\ same_dims img' img /\ maxVal img' = maxVal img
    /\ forall q, pixel_at img' q
                 = if decide (q = (y, x, c)) then Ok v else pixel_at img q.
Proof.
  intros Hwf Hbox.
  destruct (wf_lookup img y x c Hwf Hbox)
    as (row & px & v0 & Hr & Hlr & Hp & Hlp & Hv).
  destruct Hbox as (Hy & Hx & Hc).
  destruct Hwf as (Hw & Hh & Hch & Hlen & Hrows).
  pose proof (proj1 (Forall_lookup _ _) Hrows _ _ Hr) as [_ Hpxs]. cbv beta in *.
  eexists. split.
  { unfold pixel_assign.
    rewrite (vec_at_lookup _ y _ ltac:(lia) Hr). simpl.
    rewrite (vec_at_lookup _ x _ ltac:(lia) Hp). simpl.
    rewrite vec_set_Ok by lia. simpl.
    rewrite vec_set_Ok by lia. simpl.
    rewrite vec_set_Ok by lia. simpl. reflexivity. }
  split_and!; try done.
  - unfold wf; simpl. split_and!; try done.
    + by rewrite length_insert.
    + apply Forall_insert; [done|]. split; [rewrite length_insert; lia|].
      apply Forall_insert; [done|]. rewrite length_insert; lia.
  - intros [[y' x'] c']. unfold pixel_at, pixel; simpl.
    rewrite vec_at_insert by lia.
    destruct (decide (y' = y)) as [->|Hny]; simpl.
    2:{ rewrite decide_False by congruence. done. }
    rewrite vec_at_insert by lia.
    rewrite (vec_at_lookup _ y _ ltac:(lia) Hr). simpl.
    destruct (decide (x' = x)) as [->|Hnx]; simpl.
    2:{ rewrite decide_False by congruence. done. }
    rewrite vec_at_insert by lia.
    rewrite (vec_at_lookup _ x _ ltac:(lia) Hp). simpl.
    destruct (decide (c' = c)) as [->|Hnc].
    + rewrite decide_True by done. done.
    + rewrite decide_False by congruence. done.
Qed.

(** Two well-formed images of the same sizes that agree on every sample
    of the box have the same buffer. *)
Lemma data_ext (a b : Image) :
  wf a -> wf b -> same_dims a b ->
  (forall q, in_box a q -> pixel_at a q = pixel_at b q) ->
  data a = data b.
Proof.
  intros Ha Hb (Hw & Hh & Hc) Hpix.
  pose proof Ha as (_ & _ & _ & Hla & Hra).
  pose proof Hb as (_ & _ & _ & Hlb & Hrb).
  apply (list_eq_same_length _ _ (Z.to_nat (height a))); [lia | lia |].
  intros i ra rb Hi Hia Hib.
  pose proof (proj1 (Forall_lookup _ _) Hra _ _ Hia) as [Hlra Hpa]. cbv beta in *.
  pose proof (proj1 (Forall_lookup _ _) Hrb _ _ Hib) as [Hlrb Hpb]. cbv beta in *.
  apply (list_eq_same_length _ _ (Z.to_nat (width a))); [lia | lia |].
  intros j pa pb Hj Hja Hjb.
  pose proof (proj1 (Forall_lookup _ _) Hpa _ _ Hja) as Hlpa. cbv beta in *.
  pose proof (proj1 (Forall_lookup _ _) Hpb _ _ Hjb) as Hlpb. cbv beta in *.
  apply (list_eq_same_length _ _ (Z.to_nat (channels a))); [lia | lia |].
  intros k va vb Hk Hka Hkb.
  specialize (Hpix (Z.of_nat i, Z.of_nat j, Z.of_nat k)).
  unfold pixel_at, pixel in Hpix.
  rewrite (vec_at_lookup (data a) _ ra), (vec_at_lookup (data b) _ rb) in Hpix
    by (rewrite ?Nat2Z.id; (lia || done)).
  simpl in Hpix.
  rewrite (vec_at_lookup ra _ pa), (vec_at_lookup rb _ pb) in Hpix
    by (rewrite ?Nat2Z.id; (lia || done)).
  simpl in Hpix.
  rewrite (vec_at_lookup pa _ va), (vec_at_lookup pb _ vb) in Hpix
    by (rewrite ?Nat2Z.id; (lia || done)).
  assert (Ok va = Ok vb) as [= ->]; [|done].
  apply Hpix. simpl. lia.
Qed.

Lemma in_box_same_dims (a b : Image) (q : Z * Z * Z) :
  same_dims a b -> in_box a q -> in_box b q.
Proof. destruct q as [[y x] c]. unfold same_dims, in_box. intros (-> & -> & ->). done. Qed.

Lemma same_dims_sym (a b : Image) : same_dims a b -> same_dims b a.
Proof. unfold same_dims. intros (-> & -> & ->). done. Qed.

Lemma same_dims_trans (a b c : Image) :
  same_dims a b -> same_dims b c -> same_dims a c.
Proof. unfold same_dims. intros (-> & -> & ->). done. Qed.

Lemma pixel_sample (img : Image) (y x c : Z) :
  wf img -> in_box img (y, x, c) -> pixel img y x c = Ok (sample img y x c).
Proof.
  intros Hwf Hbox. destruct (pixel_in_box img y x c Hwf Hbox) as [v Hv].
  unfold sample. by rewrite Hv.
Qed.

(** The constructor: with no negative size it returns the blank image,
    every sample of which is zero. *)
Lemma Image_ctor_spec (w h ch : Z) :
  0 <= w -> 0 <= h -> 0 <= ch ->
  exists img,
    Image_ctor w h ch = Ok img
    /\ img = {| width := w; height := h; maxVal := 255; channels := ch;
                data := replicate (Z.to_nat h)
                          (replicate (Z.to_nat w) (replicate (Z.to_nat ch) 0)) |}
    /\ wf img
    /\ forall q, in_box img q -> pixel_at img q = Ok 0.
Proof.
  intros Hw Hh Hch. eexists. split; [|split; [reflexivity|]].
  { unfold Image_ctor, vec_make.
    destruct (Z.ltb_spec ch 0); [lia|]. simpl.
    destruct (Z.ltb_spec w 0); [lia|]. simpl.
    destruct (Z.ltb_spec h 0); [lia|]. reflexivity. }
  split.
  - unfold wf; simpl. split_and!; try done.
    + rewrite length_replicate. lia.
    + apply Forall_replicate. split; [rewrite length_replicate; lia|].
      apply Forall_replicate. rewrite length_replicate. lia.
  - intros [[y x] c] (Hy & Hx & Hc). simpl in *. unfold pixel. simpl.
    rewrite (vec_at_lookup _ y (replicate (Z.to_nat w) (replicate (Z.to_nat ch) 0)));
      [|lia|apply lookup_replicate_2; lia]. simpl.
    rewrite (vec_at_lookup _ x (replicate (Z.to_nat ch) 0));
      [|lia|apply lookup_replicate_2; lia]. simpl.
    apply vec_at_lookup; [lia|]. apply lookup_replicate_2. lia.
Qed.

Lemma Image_ctor_negative (w h ch : Z) :
  w < 0 \/ h < 0 \/ ch < 0 -> Image_ctor w h ch = Fault LengthError.
Proof.
  intros Hneg. unfold Image_ctor, vec_make.
  destruct (Z.ltb_spec ch 0); [done|]. simpl.
  destruct (Z.ltb_spec w 0); [done|]. simpl.
  destruct (Z.ltb_spec h 0); [done|]. lia.
Qed.

(* ================================================================== *)
(** * Loops that write each target once *)
(* ================================================================== *)

(** A run whose body stores [val i] at [tgt i], the targets pairwise
    distinct and inside the box: it succeeds, every target holds its
    value and every other sample is untouched. *)
Lemma run_scatter {I : Type} (body : I -> Image -> result Image)
    (tgt : I -> Z * Z * Z) (val : I -> Z) (idxs : list I) :
  NoDup (tgt <$> idxs) ->
  forall out0,
    wf out0 ->
    (forall i, i ∈ idxs -> in_box out0 (tgt i)) ->
    (forall i out, i ∈ idxs -> body i out = assign_at out (tgt i) (val i)) ->
    exists out,
      run body idxs out0 = Ok out
      /\ wf out /\ same_dims out out0 /\ maxVal out = maxVal out0
      /\ (forall i, i ∈ idxs -> pixel_at out (tgt i) = Ok (val i))
      /\ (forall q, q ∉ tgt <$> idxs -> pixel_at out q = pixel_at out0 q).
Proof.
  induction idxs as [|i l IH]; intros Hnd out0 Hwf Hbox Hbody.
  - exists out0. split_and!; try done. intros i Hi. by apply elem_of_nil in Hi.
  - rewrite fmap_cons in Hnd. apply NoDup_cons in Hnd as [Hfresh Hnd].
    pose proof (Hbox i (list_elem_of_here _ _)) as Hbi.
    simpl. rewrite (Hbody i out0) by apply list_elem_of_here.
    destruct (tgt i) as [[y x] c] eqn:Htgt.
    destruct (pixel_assign_spec out0 y x c (val i) Hwf Hbi)
      as (out1 & Hrun1 & Hwf1 & Hdims1 & Hmax1 & Hpix1).
    simpl. rewrite Hrun1. simpl.
    destruct (IH Hnd out1 Hwf1) as (out & Hrun & Hwfo & Hdims & Hmax & Hin & Hout).
    { intros j Hj. apply (in_box_same_dims out0).
      - by apply same_dims_sym.
      - by apply Hbox, list_elem_of_further. }
    { intros j o Hj. by apply Hbody, list_elem_of_further. }
    exists out. split_and!; try done.
    + by apply (same_dims_trans _ out1).
    + congruence.
    + intros j Hj. apply elem_of_cons in Hj as [->|Hj]; [|by apply Hin].
      rewrite Htgt, Hout by done. rewrite Hpix1. by rewrite decide_True.
    + intros q Hq. rewrite ?fmap_cons, ?Htgt in Hq.
      apply not_elem_of_cons in Hq as [Hne Hq].
      rewrite Hout by done. rewrite Hpix1. by rewrite decide_False.
Qed.

(** The same for a nest of three counting loops. *)
Lemma loop3_scatter (n1 n2 n3 : Z)
    (body : Z -> Z -> Z -> Image -> result Image)
    (tgt : Z * Z * Z -> Z * Z * Z) (val : Z * Z * Z -> Z) (out0 : Image) :
  wf out0 ->
  (forall p, p ∈ idx3 n1 n2 n3 -> in_box out0 (tgt p)) ->
  (forall p p', p ∈ idx3 n1 n2 n3 -> p' ∈ idx3 n1 n2 n3 -> tgt p = tgt p' -> p = p') ->
  (forall p out, p ∈ idx3 n1 n2 n3 ->
     body p.1.1 p.1.2 p.2 out = assign_at out (tgt p) (val p)) ->
  exists out,
    for_range n1 (fun i t =>
      for_range n2 (fun j u =>
        for_range n3 (fun k v => body i j k v) u) t) out0 = Ok out
    /\ wf out /\ same_dims out out0 /\ maxVal out = maxVal out0
    /\ (forall p, p ∈ idx3 n1 n2 n3 -> pixel_at out (tgt p) = Ok (val p))
    /\ (forall q, q ∉ tgt <$> idx3 n1 n2 n3 -> pixel_at out q = pixel_at out0 q).
Proof.
  intros Hwf Hbox Hinj Hbody. rewrite loop3_run.
  apply (run_scatter _ tgt val); try done.
  apply NoDup_fmap_2_strong; [done | apply NoDup_idx3].
Qed.

(** And for a nest of two. *)
Lemma loop2_scatter (n1 n2 : Z)
    (body : Z -> Z -> Image -> result Image)
    (tgt : Z * Z -> Z * Z * Z) (val : Z * Z -> Z) (out0 : Image) :
  wf out0 ->
  (forall p, p ∈ idx2 n1 n2 -> in_box out0 (tgt p)) ->
  (forall p p', p ∈ idx2 n1 n2 -> p' ∈ idx2 n1 n2 -> tgt p = tgt p' -> p = p') ->
  (forall p out, p ∈ idx2 n1 n2 ->
     body p.1 p.2 out = assign_at out (tgt p) (val p)) ->
  exists out,
    for_range n1 (fun i t => for_range n2 (fun j u => body i j u) t) out0 = Ok out
    /\ wf out /\ same_dims out out0 /\ maxVal out = maxVal out0
    /\ (forall p, p ∈ idx2 n1 n2 -> pixel_at out (tgt p) = Ok (val p))
    /\ (forall q, q ∉ tgt <$> idx2 n1 n2 -> pixel_at out q = pixel_at out0 q).
Proof.
  intros Hwf Hbox Hinj Hbody. rewrite loop2_run.
  apply (run_scatter _ tgt val); try done.
  apply NoDup_fmap_2_strong; [done | apply NoDup_idx2].
Qed.

(* ================================================================== *)
(** * What each transform computes *)
(* ================================================================== *)

Section Pixelwise.

Variable input : Image.
Hypothesis Hwf : wf input.

(** The output each transform starts from. *)
Lemma Image_ctor_like :
  exists out0,
    Image_ctor (width input) (height input) (channels input) = Ok out0
    /\ wf out0 /\ same_dims out0 input /\ maxVal out0 = 255
    /\ forall q, in_box out0 q -> pixel_at out0 q = Ok 0.
Proof using Hwf.
  destruct Hwf as (Hw & Hh & Hc & _).
  destruct (Image_ctor_spec _ _ _ Hw Hh Hc) as (out0 & Hctor & Heq & Hwf0 & Hz).
  exists out0. split_and!; try done; by subst out0.
Qed.

(** A transform made of the constructor call and a nest of three loops
    over rows, columns and channels, whose body stores [val p] at
    [tgt p], where [tgt] permutes the box with inverse [src]. *)
Lemma transform3_spec
    (body : Z -> Z -> Z -> Image -> result Image)
    (tgt src : Z * Z * Z -> Z * Z * Z) (val : Z * Z * Z -> Z) :
  (forall p, in_box input p -> in_box input (tgt p) /\ src (tgt p) = p) ->
  (forall q, in_box input q -> in_box input (src q) /\ tgt (src q) = q) ->
  (forall p out, in_box input p ->
     body p.1.1 p.1.2 p.2 out = assign_at out (tgt p) (val p)) ->
  exists out,
    (Image_ctor (width input) (height input) (channels input) ≫= fun output =>
       for_range (height input) (fun i t =>
         for_range (width input) (fun j u =>
           for_range (channels input) (fun k v => body i j k v) u) t) output)
    = Ok out
    /\ wf out /\ same_dims out input /\ maxVal out = 255
    /\ forall q, in_box input q -> pixel_at out q = Ok (val (src q)).
Proof using Hwf.
  intros Htgt Hsrc Hbody.
  destruct Image_ctor_like as (out0 & Hctor & Hwf0 & Hd0 & Hmax0 & _).
  assert (forall p, p ∈ idx3 (height input) (width input) (channels input)
                    <-> in_box input p) as Hidx.
  { intros [[y x] c]. rewrite elem_of_idx3. unfold in_box. lia. }
  destruct (loop3_scatter (height input) (width input) (channels input)
              body tgt val out0 Hwf0)
    as (out & Hrun & Hwfo & Hdo & Hmaxo & Hin & _).
  - intros p Hp. apply (in_box_same_dims input); [by apply same_dims_sym|].
    by apply Htgt, Hidx.
  - intros p p' Hp Hp' Heq.
    rewrite <- (proj2 (Htgt p (proj1 (Hidx p) Hp))).
    rewrite <- (proj2 (Htgt p' (proj1 (Hidx p') Hp'))). by rewrite Heq.
  - intros p out Hp. by apply Hbody, Hidx.
  - exists out. split_and!.
    + rewrite Hctor. exact Hrun.
    + done.
    + by apply (same_dims_trans _ out0).
    + congruence.
    + intros q Hq. destruct (Hsrc q Hq) as [Hbs Hts].
      rewrite <- Hts at 1. by apply Hin, Hidx.
Qed.

Lemma flipHorizontal_spec :
  exists out,
    flipHorizontal input = Ok out
    /\ wf out /\ same_dims out input /\ maxVal out = 255
    /\ forall y x c, in_box input (y, x, c) ->
         pixel out y x c = pixel input y (width input - 1 - x) c.
Proof using Hwf.
  destruct (transform3_spec
    (fun y x c output =>
       v ← pixel input y x c; pixel_assign output y (width input - 1 - x) c v)
    (fun p => (p.1.1, width input - 1 - p.1.2, p.2))
    (fun p => (p.1.1, width input - 1 - p.1.2, p.2))
    (fun p => sample input p.1.1 p.1.2 p.2))
    as (out & Hrun & Hwfo & Hdo & Hmaxo & Hpix).
  - intros [[y x] c] Hp. unfold in_box in *. simpl.
    split; [lia | repeat f_equal; lia].
  - intros [[y x] c] Hp. unfold in_box in *. simpl.
    split; [lia | repeat f_equal; lia].
  - intros [[y x] c] out Hp. simpl.
    by rewrite (pixel_sample input y x c Hwf Hp).
  - exists out. split_and!; try done.
    intros y x c Hbox. pose proof (Hpix (y, x, c) Hbox) as Hq.
    unfold pixel_at in Hq. rewrite Hq. simpl.
    symmetry. apply pixel_sample; [done|]. unfold in_box in *. lia.
Qed.

Lemma flipVertical_spec :
  exists out,
    flipVertical input = Ok out
    /\ wf out /\ same_dims out input /\ maxVal out = 255
    /\ forall y x c, in_box input (y, x, c) ->
         pixel out y x c = pixel input (height input - 1 - y) x c.
Proof using Hwf.
  destruct (transform3_spec
    (fun y x c output =>
       v ← pixel input y x c; pixel_assign output (height input - 1 - y) x c v)
    (fun p => (height input - 1 - p.1.1, p.1.2, p.2))
    (fun p => (height input - 1 - p.1.1, p.1.2, p.2))
    (fun p => sample input p.1.1 p.1.2 p.2))
    as (out & Hrun & Hwfo & Hdo & Hmaxo & Hpix).
  - intros [[y x] c] Hp. unfold in_box in *. simpl.
    split; [lia | repeat f_equal; lia].
  - intros [[y x] c] Hp. unfold in_box in *. simpl.
    split; [lia | repeat f_equal; lia].
  - intros [[y x] c] out Hp. simpl.
    by rewrite (pixel_sample input y x c Hwf Hp).
  - exists out. split_and!; try done.
    intros y x c Hbox. pose proof (Hpix (y, x, c) Hbox) as Hq.
    unfold pixel_at in Hq. rewrite Hq. simpl.
    symmetry. apply pixel_sample; [done|]. unfold in_box in *. lia.
Qed.

Lemma adjustBrightness_spec (value : Z) :
  exists out,
    adjustBrightness input value = Ok out
    /\ wf out /\ same_dims out input /\ maxVal out = 255
    /\ forall y x c, in_box input (y, x, c) ->
         pixel out y x c = Ok (brighten value (sample input y x c)).
Proof using Hwf.
  destruct (transform3_spec
    (fun y x c output =>
       v ← pixel input y x c;
       let new_value := int_add v value in
       let new_value := Z.max 0 (Z.min 255 new_value) in
       pixel_assign output y x c new_value)
    (fun p => p) (fun p => p)
    (fun p => brighten value (sample input p.1.1 p.1.2 p.2)))
    as (out & Hrun & Hwfo & Hdo & Hmaxo & Hpix).
  - done.
  - done.
  - intros [[y x] c] out Hp. simpl.
    by rewrite (pixel_sample input y x c Hwf Hp).
  - exists out. split_and!; try done.
    intros y x c Hbox. apply (Hpix (y, x, c) Hbox).
Qed.

End Pixelwise.

(* ================================================================== *)
(** * Floating-point facts *)
(* ================================================================== *)

Lemma fp_eqb_eq (x y : fp) : fp_eqb x y = true -> x = y.
Proof.
  destruct x as [|s1|m1 e1], y as [|s2|m2 e2]; simpl; try done.
  - intros H. apply eqb_prop in H. by subst.
  - rewrite andb_true_iff, !Z.eqb_eq. intros [-> ->]. done.
Qed.

Lemma is_Ok_of_eq (r : result Z) (v : Z) : is_Ok_of r v = true -> r = Ok v.
Proof. destruct r; simpl; [|done]. rewrite Z.eqb_eq. by intros ->. Qed.

(** A check run over [0 .. n-1] holds at each of them. *)
Lemma range_check (f : Z -> bool) (n v : Z) :
  forallb f (seqZ 0 n) = true -> 0 <= v < n -> f v = true.
Proof.
  intros Hall Hv. rewrite forallb_forall in Hall. apply Hall.
  apply list_elem_of_In, elem_of_seqZ. lia.
Qed.

Lemma literals_32 :
  lit_0f = Fin 0 0 /\ lit_1f = Fin 1 0 /\ lit_128f = Fin 128 0
  /\ lit_255f = Fin 255 0 /\ lit_1_5f = Fin 12582912 (-23).
Proof. vm_compute. done. Qed.

Lemma literals_64 :
  lit_0_299 = Fin 5386305154335113 (-54)
  /\ lit_0_587 = Fin 5287225962532962 (-53)
  /\ lit_0_114 = Fin 8214565720323785 (-56).
Proof. vm_compute. done. Qed.

(** Each literal is the binary64 number nearest to its decimal: a
    53-digit mantissa, less than half a unit in the last place away. *)
Lemma literals_64_nearest :
  (2 ^ 52 <= 5386305154335113 < 2 ^ 53
   /\ Z.abs (1000 * 5386305154335113 - 299 * 2 ^ 54) < 500)
  /\ (2 ^ 52 <= 5287225962532962 < 2 ^ 53
      /\ Z.abs (1000 * 5287225962532962 - 587 * 2 ^ 53) < 500)
  /\ (2 ^ 52 <= 8214565720323785 < 2 ^ 53
      /\ Z.abs (1000 * 8214565720323785 - 114 * 2 ^ 56) < 500).
Proof. vm_compute. repeat split; (done || discriminate). Qed.

(** An [int] of at most eight bits converts exactly. *)
Lemma of_int_small (f : format) (v : Z) :
  f = binary32 \/ f = binary64 -> 0 <= v <= 255 -> of_int f v = Fin v 0.
Proof.
  intros Hf Hv. apply fp_eqb_eq.
  apply (range_check (fun v => fp_eqb (of_int f v) (Fin v 0)) 256); [|lia].
  destruct Hf as [-> | ->]; vm_compute; reflexivity.
Qed.

(** With factor 1 the contrast of a sample is the sample. *)
Lemma contrast_value_one (v : Z) :
  0 <= v <= 255 -> contrast_value lit_1f v = Ok v.
Proof.
  intros Hv. apply is_Ok_of_eq.
  apply (range_check (fun v => is_Ok_of (contrast_value lit_1f v) v) 256); [|lia].
  vm_compute. reflexivity.
Qed.

Lemma trunc_bounds (m e : Z) (hi : Z) :
  0 <= m ->
  m * 2 ^ (e - Z.min e 0) < hi * 2 ^ (0 - Z.min e 0) ->
  0 <= trunc m e < hi.
Proof.
  intros Hm Hlt. unfold trunc. destruct (Z.leb_spec 0 e) as [He|He].
  - rewrite Z.min_r in Hlt by lia. rewrite Z.sub_0_r in Hlt.
    change (2 ^ (0 - 0)) with 1 in Hlt.
    pose proof (Z.pow_nonneg 2 e). nia.
  - rewrite Z.min_l in Hlt by lia. rewrite Z.sub_diag in Hlt.
    change (2 ^ 0) with 1 in Hlt. replace (0 - e) with (- e) in Hlt by lia.
    assert (0 < 2 ^ (- e)) by (apply Z.pow_pos_nonneg; lia).
    rewrite Z.quot_div_nonneg by lia. split.
    + apply Z.div_pos; lia.
    + apply Z.div_lt_upper_bound; lia.
Qed.

(** The clamp of [adjustContrast]: whatever the value, the stored
    sample exists and lies in [0, 255]. *)
Lemma clamp_to_int (a : fp) :
  exists t, to_int (fmax lit_0f (fmin lit_255f a)) = Ok t /\ 0 <= t <= 255.
Proof.
  destruct literals_32 as (-> & _ & _ & -> & _).
  destruct a as [|[]|m e].
  - exists 255. by vm_compute.
  - exists 0. by vm_compute.
  - exists 255. by vm_compute.
  - unfold fmin. destruct (flt (Fin m e) (Fin 255 0)) eqn:Hhi.
    2:{ exists 255. by vm_compute. }
    unfold fmax. destruct (flt (Fin 0 0) (Fin m e)) eqn:Hlo.
    2:{ exists 0. by vm_compute. }
    simpl in Hhi, Hlo. apply Z.ltb_lt in Hhi, Hlo.
    rewrite Z.mul_0_l in Hlo.
    assert (0 < m) as Hm.
    { assert (0 < 2 ^ (e - Z.min 0 e)) by (apply Z.pow_pos_nonneg; lia). nia. }
    destruct (trunc_bounds m e 255 ltac:(lia) Hhi) as [Ht0 Ht1].
    exists (trunc m e). split; [|lia]. unfold to_int.
    destruct (Z.leb_spec INT_MIN (trunc m e)); [|unfold INT_MIN in *; lia].
    destruct (Z.leb_spec (trunc m e) INT_MAX); [done|unfold INT_MAX in *; lia].
Qed.

(** On the samples 0 .. 255 the arithmetic of this file and that of
    [SpecFloat] give the same numbers: at every step of the contrast
    for each of [factors], at every step of the grey level along three
    families of pixels, and for the four decimal literals. *)
Lemma agrees_with_SpecFloat :
  forallb (fun f => forallb (check_contrast f) (seqZ 0 256)) factors = true
  /\ forallb (fun v =>
        check_gray v v v
        && check_gray v (255 - v) ((v * 7) mod 256)
        && check_gray ((v * 11) mod 256) v ((v * 5 + 3) mod 256))
       (seqZ 0 256) = true
  /\ check_literal binary64 lit_0_299 299 1000 = true
  /\ check_literal binary64 lit_0_587 587 1000 = true
  /\ check_literal binary64 lit_0_114 114 1000 = true
  /\ check_literal binary32 lit_1_5f 3 2 = true.
Proof. vm_compute. repeat split; reflexivity. Qed.

(** ** Rounding does not step over a number of the format

    Numbers below 256 are measured in units of [2^-56], the finest
    exponent the grey-level computation meets; every binary64 number
    below 256 is a multiple of [2^-45], that is of [2^11] such units. *)

Lemma digits_spec (m : Z) :
  0 < m -> 1 <= digits m /\ 2 ^ (digits m - 1) <= m < 2 ^ digits m.
Proof.
  intros Hm. unfold digits. destruct (Z.eqb_spec m 0); [lia|].
  rewrite Z.abs_eq by lia.
  pose proof (Z.log2_spec m Hm) as Hs. pose proof (Z.log2_nonneg m).
  replace (Z.log2 m + 1 - 1) with (Z.log2 m) by lia.
  replace (Z.succ (Z.log2 m)) with (Z.log2 m + 1) in Hs by lia. lia.
Qed.

Lemma digits_bound (m e : Z) :
  0 < m -> -56 <= e -> m * 2 ^ (e + 56) < 2 ^ 64 -> digits m + e <= 8.
Proof.
  intros Hm He Hlt. destruct (digits_spec m Hm) as [Hd [Hlo _]].
  destruct (Z_le_gt_dec (digits m + e) 8) as [|Hgt]; [done|exfalso].
  assert (2 ^ 64 <= 2 ^ (digits m - 1) * 2 ^ (e + 56)) as Hge.
  { rewrite <- Z.pow_add_r by lia. apply Z.pow_le_mono_r; lia. }
  assert (0 < 2 ^ (e + 56)) by (apply Z.pow_pos_nonneg; lia).
  nia.
Qed.

Lemma rne_shift_nonneg (a k : Z) : 0 <= a -> 0 < k -> 0 <= rne_shift a k.
Proof.
  intros Ha Hk. unfold rne_shift.
  assert (0 < 2 ^ k) by (apply Z.pow_pos_nonneg; lia).
  assert (0 <= a / 2 ^ k) by (apply Z.div_pos; lia).
  repeat case_match; lia.
Qed.

Lemma rne_shift_le (a k T : Z) :
  0 <= a -> 0 < k -> a <= T * 2 ^ k -> rne_shift a k <= T.
Proof.
  intros Ha Hk Hle. unfold rne_shift.
  assert (0 < 2 ^ k) as Hp by (apply Z.pow_pos_nonneg; lia).
  assert (0 < 2 ^ (k - 1)) as Hh by (apply Z.pow_pos_nonneg; lia).
  pose proof (Z.div_mod a (2 ^ k) ltac:(lia)) as Hdm.
  pose proof (Z.mod_pos_bound a (2 ^ k) Hp) as Hr.
  assert (a / 2 ^ k <= T) as Hq by (apply Z.div_le_upper_bound; lia).
  destruct (Z.ltb_spec (a mod 2 ^ k) (2 ^ (k - 1))) as [|Hge]; [done|].
  assert (a / 2 ^ k < T) by nia.
  repeat case_match; lia.
Qed.

Lemma round64_bound (m e B : Z) :
  0 <= m -> -56 <= e -> m * 2 ^ (e + 56) <= B * 2 ^ 11 -> B < 2 ^ 53 ->
  exists m' e',
    round binary64 m e = Fin m' e'
    /\ 0 <= m' /\ -56 <= e' /\ m' * 2 ^ (e' + 56) <= B * 2 ^ 11.
Proof.
  intros Hm He Hle HB. unfold round.
  destruct (Z.eqb_spec m 0) as [->|Hnz].
  { exists 0, 0. split_and!; try done; lia. }
  assert (0 < m) as Hpos by lia.
  assert (m * 2 ^ (e + 56) < 2 ^ 64) as Hlt by lia.
  pose proof (digits_bound m e Hpos He Hlt) as Hd.
  destruct (digits_spec m Hpos) as [Hd1 _].
  change (prec binary64) with 53. change (emin binary64) with (-1074).
  change (emax binary64) with 1024.
  set (fe := Z.max (digits m + e - 53) (-1074)).
  assert (fe <= -45) as Hfe by (unfold fe; lia).
  destruct (Z.leb_spec fe e) as [Hex|Hrnd].
  - destruct (Z.ltb_spec 1024 (digits m + e)); [lia|].
    exists m, e. split_and!; (done || lia).
  - rewrite Z.sgn_pos, Z.mul_1_l, Z.abs_eq by lia.
    set (r := rne_shift m (fe - e)).
    assert (0 <= r) as Hr0 by (apply rne_shift_nonneg; lia).
    assert (r * 2 ^ (fe + 56) <= B * 2 ^ 11) as Hrb.
    { assert (0 < 2 ^ (e + 56)) by (apply Z.pow_pos_nonneg; lia).
      assert (0 < 2 ^ (fe + 56)) by (apply Z.pow_pos_nonneg; lia).
      assert (2 ^ 11 = 2 ^ (- 45 - fe) * 2 ^ (fe + 56)) as H11.
      { rewrite <- Z.pow_add_r by lia. f_equal. lia. }
      assert (2 ^ (fe + 56) = 2 ^ (fe - e) * 2 ^ (e + 56)) as Hsplit.
      { rewrite <- Z.pow_add_r by lia. f_equal. lia. }
      assert (r <= B * 2 ^ (- 45 - fe)) as HrT.
      { apply rne_shift_le; [lia | lia |].
        rewrite H11, Hsplit in Hle.
        assert (0 < 2 ^ (fe - e)) by (apply Z.pow_pos_nonneg; lia).
        nia. }
      rewrite H11. nia. }
    assert (digits r + fe <= 1024) as Hov.
    { destruct (Z.eq_dec r 0) as [->|Hrnz]; [vm_compute (digits 0); lia|].
      pose proof (digits_bound r fe ltac:(lia) ltac:(lia) ltac:(lia)). lia. }
    destruct (Z.ltb_spec 1024 (digits r + fe)); [lia|].
    exists r, fe. split_and!; (done || lia).
Qed.

Lemma fmul64_bound (ma ea v B : Z) :
  0 <= ma -> -56 <= ea -> 0 <= v <= 255 ->
  ma * 255 * 2 ^ (ea + 56) <= B * 2 ^ 11 -> B < 2 ^ 53 ->
  exists m e,
    fmul binary64 (Fin ma ea) (of_int binary64 v) = Fin m e
    /\ 0 <= m /\ -56 <= e /\ m * 2 ^ (e + 56) <= B * 2 ^ 11.
Proof.
  intros Hma Hea Hv Hle HB.
  rewrite of_int_small by (auto || lia). simpl.
  apply round64_bound; try lia.
  rewrite Z.add_0_r.
  assert (0 < 2 ^ (ea + 56)) by (apply Z.pow_pos_nonneg; lia). nia.
Qed.

Lemma fadd64_bound (m1 e1 m2 e2 B1 B2 : Z) :
  0 <= m1 -> -56 <= e1 -> m1 * 2 ^ (e1 + 56) <= B1 * 2 ^ 11 ->
  0 <= m2 -> -56 <= e2 -> m2 * 2 ^ (e2 + 56) <= B2 * 2 ^ 11 ->
  B1 + B2 < 2 ^ 53 ->
  exists m e,
    fadd binary64 (Fin m1 e1) (Fin m2 e2) = Fin m e
    /\ 0 <= m /\ -56 <= e /\ m * 2 ^ (e + 56) <= (B1 + B2) * 2 ^ 11.
Proof.
  intros Hm1 He1 Hb1 Hm2 He2 Hb2 HB. simpl.
  set (l := Z.min e1 e2).
  assert (0 < 2 ^ (e1 - l)) by (apply Z.pow_pos_nonneg; lia).
  assert (0 < 2 ^ (e2 - l)) by (apply Z.pow_pos_nonneg; lia).
  apply round64_bound; try lia.
  rewrite Z.mul_add_distr_r, <- !Z.mul_assoc, <- !Z.pow_add_r by lia.
  replace (e1 - l + (l + 56)) with (e1 + 56) by lia.
  replace (e2 - l + (l + 56)) with (e2 + 56) by lia. lia.
Qed.

(** The grey level of a pixel whose three samples lie in [0, 255]
    exists and lies in [0, 255]. *)
Lemma gray_value_range (R G B : Z) :
  0 <= R <= 255 -> 0 <= G <= 255 -> 0 <= B <= 255 ->
  exists t, gray_value R G B = Ok t /\ 0 <= t <= 255.
Proof.
  intros HR HG HB. unfold gray_value.
  destruct literals_64 as (-> & -> & ->).
  destruct (fmul64_bound 5386305154335113 (-54) R 2682632449912996)
    as (m1 & e1 & -> & Hm1 & He1 & Hb1); [lia..|].
  destruct (fmul64_bound 5287225962532962 (-53) G 5266572736116818)
    as (m2 & e2 & -> & Hm2 & He2 & Hb2); [lia..|].
  destruct (fmul64_bound 8214565720323785 (-56) B 1022809696622347)
    as (m3 & e3 & -> & Hm3 & He3 & Hb3); [lia..|].
  destruct (fadd64_bound m1 e1 m2 e2 _ _ Hm1 He1 Hb1 Hm2 He2 Hb2)
    as (m12 & e12 & -> & Hm12 & He12 & Hb12); [lia|].
  destruct (fadd64_bound m12 e12 m3 e3 _ _ Hm12 He12 Hb12 Hm3 He3 Hb3)
    as (m & e & -> & Hm & He & Hb); [lia|].
  assert (0 <= trunc m e < 256) as Ht.
  { apply trunc_bounds; [done|].
    assert (m * 2 ^ (e + 56) < 256 * 2 ^ 56) as Hlt by lia.
    destruct (Z_le_gt_dec 0 e).
    - rewrite Z.min_r by lia. rewrite Z.sub_0_r. change (2 ^ (0 - 0)) with 1.
      rewrite Z.pow_add_r in Hlt by lia. lia.
    - rewrite Z.min_l by lia. rewrite Z.sub_diag. change (2 ^ 0) with 1.
      replace (0 - e) with (- e) by lia.
      assert (2 ^ 56 = 2 ^ (- e) * 2 ^ (e + 56)) as H56.
      { rewrite <- Z.pow_add_r by lia. f_equal. lia. }
      assert (0 < 2 ^ (e + 56)) by (apply Z.pow_pos_nonneg; lia).
      rewrite H56 in Hlt. nia. }
  exists (trunc m e). split; [|lia]. unfold to_int.
  destruct (Z.leb_spec INT_MIN (trunc m e)); [|unfold INT_MIN in *; lia].
  destruct (Z.leb_spec (trunc m e) INT_MAX); [done|unfold INT_MAX in *; lia].
Qed.

(* ================================================================== *)
(** * Samples in range *)
(* ================================================================== *)

Lemma pixel_in_range (img : Image) (y x c v : Z) :
  in_range img -> pixel img y x c = Ok v -> 0 <= v <= 255.
Proof.
  intros Hr Hp. unfold pixel in Hp.
  apply bind_Ok_inv in Hp as (row & Hrow & Hp).
  apply bind_Ok_inv in Hp as (px & Hpx & Hv).
  apply vec_at_Ok in Hrow as [_ Hrow].
  apply vec_at_Ok in Hpx as [_ Hpx].
  apply vec_at_Ok in Hv as [_ Hv].
  pose proof (proj1 (Forall_lookup _ _) Hr _ _ Hrow) as Hr1.
  pose proof (proj1 (Forall_lookup _ _) Hr1 _ _ Hpx) as Hr2.
  apply (proj1 (Forall_lookup _ _) Hr2 _ _ Hv).
Qed.

Lemma sample_in_range (img : Image) (y x c : Z) :
  in_range img -> 0 <= sample img y x c <= 255.
Proof.
  intros Hr. unfold sample. destruct (pixel img y x c) as [v|] eqn:Hp; [|lia].
  by apply (pixel_in_range img y x c).
Qed.

Lemma pixel_assign_in_range (img img' : Image) (y x c v : Z) :
  in_range img -> 0 <= v <= 255 ->
  pixel_assign img y x c v = Ok img' -> in_range img'.
Proof.
  intros Hr Hv Ha. unfold pixel_assign in Ha.
  apply bind_Ok_inv in Ha as (row & Hrow & Ha).
  apply bind_Ok_inv in Ha as (px & Hpx & Ha).
  apply bind_Ok_inv in Ha as (px' & Hpx' & Ha).
  apply bind_Ok_inv in Ha as (row' & Hrow' & Ha).
  apply bind_Ok_inv in Ha as (d' & Hd' & Ha).
  injection Ha as <-.
  apply vec_at_Ok in Hrow as [_ Hrow].
  apply vec_at_Ok in Hpx as [_ Hpx].
  apply vec_set_inv in Hpx' as [_ ->].
  apply vec_set_inv in Hrow' as [_ ->].
  apply vec_set_inv in Hd' as [_ ->].
  pose proof (proj1 (Forall_lookup _ _) Hr _ _ Hrow) as Hr1.
  pose proof (proj1 (Forall_lookup _ _) Hr1 _ _ Hpx) as Hr2.
  unfold in_range; simpl.
  apply Forall_insert; [done|]. apply Forall_insert; [done|].
  by apply Forall_insert.
Qed.

Lemma Image_ctor_in_range (w h ch : Z) (img : Image) :
  Image_ctor w h ch = Ok img -> in_range img /\ all_zero img = true.
Proof.
  unfold Image_ctor, vec_make.
  destruct (ch <? 0); [done|]. simpl.
  destruct (w <? 0); [done|]. simpl.
  destruct (h <? 0); [done|]. simpl.
  intros [= <-]. split.
  - unfold in_range; simpl. do 3 apply Forall_replicate. lia.
  - unfold all_zero; simpl.
    apply (forallb_Forall _ (Forall (Forall (eq 0)))), Forall_replicate.
    2: apply Forall_replicate, Forall_replicate; reflexivity.
    intros row. apply forallb_Forall. intros px. apply forallb_Forall.
    intros v. rewrite Z.eqb_eq. done.
Qed.

(** A property that every step of the body keeps is kept by the loop. *)
Lemma run_invariant {I S : Type} (P : S -> Prop)
    (body : I -> S -> result S) (idxs : list I) :
  (forall i s s', P s -> body i s = Ok s' -> P s') ->
  forall s s', P s -> run body idxs s = Ok s' -> P s'.
Proof.
  intros Hstep. induction idxs as [|i l IH]; intros s s' Hs Hrun; simpl in Hrun.
  - by injection Hrun as <-.
  - apply bind_Ok_inv in Hrun as (s1 & H1 & Hrun). eauto.
Qed.

Lemma loop3_invariant (P : Image -> Prop) (n1 n2 n3 : Z)
    (body : Z -> Z -> Z -> Image -> result Image) (out0 out : Image) :
  (forall i j k s s', P s -> body i j k s = Ok s' -> P s') ->
  P out0 ->
  for_range n1 (fun i t =>
    for_range n2 (fun j u =>
      for_range n3 (fun k v => body i j k v) u) t) out0 = Ok out ->
  P out.
Proof.
  intros Hstep H0. rewrite loop3_run. apply run_invariant; [|done].
  intros p s s'. apply Hstep.
Qed.

Lemma loop2_invariant (P : Image -> Prop) (n1 n2 : Z)
    (body : Z -> Z -> Image -> result Image) (out0 out : Image) :
  (forall i j s s', P s -> body i j s = Ok s' -> P s') ->
  P out0 ->
  for_range n1 (fun i t => for_range n2 (fun j u => body i j u) t) out0 = Ok out ->
  P out.
Proof.
  intros Hstep H0. rewrite loop2_run. apply run_invariant; [|done].
  intros p s s'. apply Hstep.
Qed.

(** The common opening of the next five proofs: the constructor gives
    a grid in range, and it remains to show that one pass through the
    body keeps it so. *)
Ltac enter_loops Hrun :=
  apply bind_Ok_inv in Hrun as (?out0 & ?Hctor & Hrun);
  apply Image_ctor_in_range in Hctor as [?H0 _];
  revert Hrun;
  first [apply loop3_invariant | apply loop2_invariant]; [|done].

Ltac read_sample Hb v Hv :=
  apply bind_Ok_inv in Hb as (v & Hv & Hb).

(** Whatever grid a transform returns, its samples lie in [0, 255] when
    those of the input do. *)
Lemma convertToGrayscale_in_range (input out : Image) :
  in_range input -> convertToGrayscale input = Ok out -> in_range out.
Proof.
  intros Hr Hrun. unfold convertToGrayscale in Hrun. enter_loops Hrun.
  intros y x s s' Hs Hb.
  read_sample Hb R HR. read_sample Hb G HG. read_sample Hb B HB.
  read_sample Hb gray Hg.
  apply (pixel_in_range _ _ _ _ _ Hr) in HR, HG, HB.
  destruct (gray_value_range R G B HR HG HB) as (t & Ht & Hrange).
  unfold gray_value in Ht. rewrite Ht in Hg. injection Hg as <-.
  by eapply (pixel_assign_in_range s s').
Qed.

Lemma flipHorizontal_in_range (input out : Image) :
  in_range input -> flipHorizontal input = Ok out -> in_range out.
Proof.
  intros Hr Hrun. unfold flipHorizontal in Hrun. enter_loops Hrun.
  intros y x c s s' Hs Hb. read_sample Hb v Hv.
  apply (pixel_in_range _ _ _ _ _ Hr) in Hv.
  by eapply (pixel_assign_in_range s s').
Qed.

Lemma flipVertical_in_range (input out : Image) :
  in_range input -> flipVertical input = Ok out -> in_range out.
Proof.
  intros Hr Hrun. unfold flipVertical in Hrun. enter_loops Hrun.
  intros y x c s s' Hs Hb. read_sample Hb v Hv.
  apply (pixel_in_range _ _ _ _ _ Hr) in Hv.
  by eapply (pixel_assign_in_range s s').
Qed.

(** The next two need nothing of the input: the clamp alone bounds the
    stored samples. *)
Lemma adjustBrightness_in_range (input out : Image) (value : Z) :
  adjustBrightness input value = Ok out -> in_range out.
Proof.
  intros Hrun. unfold adjustBrightness in Hrun. enter_loops Hrun.
  intros y x c s s' Hs Hb. read_sample Hb v Hv.
  apply (pixel_assign_in_range s s' _ _ _ _ Hs) in Hb; [done|lia].
Qed.

Lemma adjustContrast_in_range (input out : Image) (factor : fp) :
  adjustContrast input factor = Ok out -> in_range out.
Proof.
  intros Hrun. unfold adjustContrast in Hrun. enter_loops Hrun.
  intros x y c s s' Hs Hb. read_sample Hb v Hv. read_sample Hb stored Hst.
  match type of Hst with
  | to_int (fmax _ (fmin _ ?a)) = _ =>
      destruct (clamp_to_int a) as (t & Ht & Hrange)
  end.
  rewrite Ht in Hst. injection Hst as <-.
  by eapply (pixel_assign_in_range s s').
Qed.

Lemma applyBlur_in_range (input out : Image) :
  applyBlur input = Ok out -> in_range out /\ all_zero out = true.
Proof.
  intros Hrun. unfold applyBlur in Hrun.
  apply bind_Ok_inv in Hrun as (out0 & Hctor & [= <-]).
  by apply Image_ctor_in_range in Hctor.
Qed.

Lemma rotate90_in_range (input out : Image) :
  rotate90 input = Ok out -> in_range out /\ all_zero out = true.
Proof.
  intros Hrun. unfold rotate90 in Hrun.
  apply bind_Ok_inv in Hrun as (out0 & Hctor & [= <-]).
  by apply Image_ctor_in_range in Hctor.
Qed.

(* ================================================================== *)
(** * What the two floating-point transforms compute *)
(* ================================================================== *)

Lemma contrast_value_level (factor : fp) (v : Z) :
  contrast_value factor v = Ok (contrast_level factor v)
  /\ 0 <= contrast_level factor v <= 255.
Proof.
  unfold contrast_level, contrast_value.
  match goal with
  | |- context [fmin _ ?a] => destruct (clamp_to_int a) as (t & -> & Ht)
  end. done.
Qed.

Lemma convertToGrayscale_spec (input : Image) :
  wf input -> in_range input ->
  width input = 0 \/ height input = 0 \/ 3 <= channels input ->
  exists out,
    convertToGrayscale input = Ok out
    /\ wf out /\ width out = width input /\ height out = height input
    /\ channels out = 1 /\ maxVal out = 255
    /\ forall y x, 0 <= y < height input -> 0 <= x < width input ->
         pixel out y x 0
         = gray_value (sample input y x 0) (sample input y x 1)
             (sample input y x 2).
Proof.
  intros Hwf Hr Hch. pose proof Hwf as (Hw & Hh & _).
  destruct (Image_ctor_spec (width input) (height input) 1 Hw Hh ltac:(lia))
    as (out0 & Hctor & Heq & Hwf0 & _).
  assert (width out0 = width input /\ height out0 = height input
          /\ channels out0 = 1 /\ maxVal out0 = 255) as (Hw0 & Hh0 & Hc0 & Hm0)
    by (by subst out0).
  destruct (loop2_scatter (height input) (width input)
    (fun y x output =>
       R ← pixel input y x 0;
       G ← pixel input y x 1;
       B ← pixel input y x 2;
       gray ← to_int
         (fadd binary64
            (fadd binary64
               (fmul binary64 lit_0_299 (of_int binary64 R))
               (fmul binary64 lit_0_587 (of_int binary64 G)))
            (fmul binary64 lit_0_114 (of_int binary64 B)));
       pixel_assign output y x 0 gray)
    (fun p => (p.1, p.2, 0))
    (fun p => gray_level (sample input p.1 p.2 0) (sample input p.1 p.2 1)
                (sample input p.1 p.2 2))
    out0 Hwf0)
    as (out & Hrun & Hwfo & (Hwo & Hho & Hco) & Hmaxo & Hin & _).
  - intros [y x] Hp. apply elem_of_idx2 in Hp. unfold in_box. simpl. lia.
  - intros [y x] [y' x'] _ _ [=]. by subst.
  - intros [y x] out Hp. apply elem_of_idx2 in Hp. cbn [fst snd].
    rewrite !pixel_sample by (done || unfold in_box; lia).
    do 3 (rewrite bind_Ok; cbv beta).
    destruct (gray_value_range (sample input y x 0) (sample input y x 1)
                (sample input y x 2)) as (t & Ht & _);
      try by apply sample_in_range.
    unfold gray_level. rewrite Ht. unfold gray_value in Ht. by rewrite Ht.
  - exists out. split_and!; try congruence; try done.
    + unfold convertToGrayscale, getHeight, getWidth. rewrite Hctor. exact Hrun.
    + intros y x Hy Hx.
      pose proof (Hin (y, x) (proj2 (elem_of_idx2 _ _ _ _) (conj Hy Hx))) as Hq.
      unfold pixel_at in Hq. cbn [fst snd] in Hq. rewrite Hq. unfold gray_level.
      destruct (gray_value_range (sample input y x 0) (sample input y x 1)
                  (sample input y x 2)) as (t & -> & _);
        try by apply sample_in_range.
      done.
Qed.

Lemma adjustContrast_spec (input : Image) (factor : fp) :
  wf input ->
  width input = height input \/ width input = 0 \/ height input = 0 ->
  exists out,
    adjustContrast input factor = Ok out
    /\ wf out /\ same_dims out input /\ maxVal out = 255
    /\ forall y x c, in_box input (y, x, c) ->
         pixel out y x c = contrast_value factor (sample input y x c).
Proof.
  intros Hwf Hsq.
  destruct (transform3_spec input Hwf
    (fun x y c output =>
       v ← pixel input y x c;
       let original := of_int binary32 v in
       let adjusted :=
         fadd binary32
           (fmul binary32 factor (fsub binary32 original lit_128f))
           lit_128f in
       let adjusted := fmax lit_0f (fmin lit_255f adjusted) in
       stored ← to_int adjusted;
       pixel_assign output y x c stored)
    (fun p => (p.1.2, p.1.1, p.2)) (fun p => (p.1.2, p.1.1, p.2))
    (fun p => contrast_level factor (sample input p.1.2 p.1.1 p.2)))
    as (out & Hrun & Hwfo & Hdo & Hmaxo & Hpix).
  - intros [[x y] c] Hp. unfold in_box in *. simpl. split; [lia | done].
  - intros [[y x] c] Hp. unfold in_box in *. simpl. split; [lia | done].
  - intros [[x y] c] out Hp. cbn [fst snd].
    rewrite (pixel_sample input y x c Hwf) by (unfold in_box in *; lia).
    rewrite bind_Ok. cbv beta zeta.
    destruct (contrast_value_level factor (sample input y x c)) as [Hv _].
    unfold contrast_value in Hv. cbv zeta in Hv. by rewrite Hv.
  - exists out. split_and!; try done.
    intros y x c Hbox. pose proof (Hpix (y, x, c) Hbox) as Hq.
    unfold pixel_at in Hq. cbn [fst snd] in Hq. rewrite Hq.
    symmetry. apply contrast_value_level.
Qed.

(* ================================================================== *)
(** * The blur *)
(* ================================================================== *)

(** What [applyBlur] does: the blank image of the input's sizes. *)
Lemma applyBlur_blank (input : Image) :
  shape_ok input = true ->
  exists out,
    applyBlur input = Ok out
    /\ same_dims out input /\ wf out /\ all_zero out = true
    /\ forall q, in_box out q -> pixel_at out q = Ok 0.
Proof.
  intros Hs. apply shape_ok_wf in Hs.
  destruct (Image_ctor_like input Hs) as (out & Hctor & Hwf & Hd & _ & Hz).
  exists out. split_and!; try done.
  - unfold applyBlur, getHeight, getWidth, getChannels. by rewrite Hctor.
  - by apply (Image_ctor_in_range _ _ _ _ Hctor).
Qed.

(** C10: for every input grid, [applyBlur] returns a grid of the same
    width, height and channel count in which every sample, border and
    interior alike, is 0. *)
Theorem applyBlur_all_zero (input : Image) :
  shape_ok input = true ->
  exists out,
    applyBlur input = Ok out
    /\ width out = width input /\ height out = height input
    /\ channels out = channels input
    /\ shape_ok out = true /\ all_zero out = true
    /\ forall y x c, in_box out (y, x, c) -> pixel out y x c = Ok 0.
Proof.
  intros Hs.
  destruct (applyBlur_blank input Hs) as (out & Hrun & Hd & Hwf & Hzero & Hz).
  destruct Hd as (Hw & Hh & Hc).
  exists out. split_and!; try done.
  - by apply shape_ok_wf.
  - intros y x c Hbox. apply (Hz (y, x, c) Hbox).
Qed.

Lemma applyBlur_all_zero_witness :
  exists out,
    applyBlur test_image = Ok out
    /\ width out = 4 /\ height out = 4 /\ channels out = 3
    /\ shape_ok out = true /\ all_zero out = true
    /\ forall y x c, in_box out (y, x, c) -> pixel out y x c = Ok 0.
Proof. apply (applyBlur_all_zero test_image). reflexivity. Defined.

(** C1, at the 3x3 one-channel image whose samples are all 9: the
    interior pixel [(1, 1)] should hold [floor (81 / 9) = 9]; the grid
    [applyBlur] returns holds 0 there. *)
Theorem applyBlur_interior_not_averaged :
  shape_ok nines = true
  /\ blur_spec nines 1 1 0 = 9
  /\ exists out, applyBlur nines = Ok out /\ pixel out 1 1 0 = Ok 0.
Proof.
  split; [reflexivity|]. split; [reflexivity|].
  eexists. split; reflexivity.
Qed.

(* ================================================================== *)
(** * The rotation *)
(* ================================================================== *)

(** What [rotate90] does: the blank image with the two sizes
    exchanged. *)
Lemma rotate90_blank (input : Image) :
  shape_ok input = true ->
  exists out,
    rotate90 input = Ok out
    /\ width out = height input /\ height out = width input
    /\ channels out = channels input /\ all_zero out = true.
Proof.
  intros Hs. apply shape_ok_wf in Hs. destruct Hs as (Hw & Hh & Hc & _).
  destruct (Image_ctor_spec _ _ _ Hh Hw Hc) as (out & Hctor & Heq & _).
  exists out. split_and!; try by subst out.
  - unfold rotate90, getHeight, getWidth, getChannels. by rewrite Hctor.
  - by apply (Image_ctor_in_range _ _ _ _ Hctor).
Qed.

(** C2, at the 1x1 one-channel image holding 7: four rotations should
    give the image back, and one rotation should carry the sample of
    [(0, 0)] to [(0, 0)]; the code returns the image holding 0. *)
Theorem rotate90_loses_samples :
  shape_ok dot = true
  /\ iter_result 4 rotate90 dot = Ok (with_data dot [ [[0]] ])
  /\ iter_result 4 rotate90 dot <> Ok dot
  /\ exists out,
       rotate90 dot = Ok out
       /\ pixel dot 0 0 0 = Ok 7
       /\ pixel out 0 (height dot - 1 - 0) 0 = Ok 0.
Proof.
  split; [reflexivity|]. split; [reflexivity|]. split; [discriminate|].
  eexists. split; [reflexivity|]. split; reflexivity.
Qed.

(* ================================================================== *)
(** * The flips *)
(* ================================================================== *)

(** Same sizes, both well formed, the same sample everywhere in the
    box: the same grid. *)
Lemma same_grid_pointwise (a b : Image) :
  wf a -> wf b -> same_dims a b ->
  (forall y x c, in_box b (y, x, c) -> pixel a y x c = pixel b y x c) ->
  same_grid a b.
Proof.
  intros Ha Hb Hd Hpix. pose proof Hd as (? & ? & ?).
  unfold same_grid. split_and!; try done.
  apply data_ext; try done. intros [[y x] c] Hbox.
  apply Hpix. by apply (in_box_same_dims a).
Qed.

Lemma same_grid_eq (a b : Image) :
  same_grid a b -> maxVal a = maxVal b -> a = b.
Proof.
  destruct a, b. unfold same_grid. simpl. intros (-> & -> & -> & ->) ->. done.
Qed.

(** C6, as stated, at a 1x1 grid whose [maxVal] is 100: the grid two
    flips return has the samples of the input but the [maxVal] 255 of
    the constructor, so it is not the input, and it is saved as a
    different file. *)
Lemma flips_reset_maxVal :
  shape_ok low = true /\ samples_ok low = true
  /\ flipHorizontal low ≫= flipHorizontal
     = Ok {| width := 1; height := 1; maxVal := 255; channels := 3;
             data := [ [[10; 50; 100]] ] |}
  /\ flipVertical low ≫= flipVertical
     = Ok {| width := 1; height := 1; maxVal := 255; channels := 3;
             data := [ [[10; 50; 100]] ] |}
  /\ flipHorizontal low ≫= flipHorizontal <> Ok low
  /\ flipVertical low ≫= flipVertical <> Ok low
  /\ ((flipHorizontal low ≫= flipHorizontal) ≫= fun out => savePPM out true)
     <> savePPM low true.
Proof.
  split_and!; try reflexivity; vm_compute; discriminate.
Qed.

(** C6, amended: on every valid grid each flip applied twice returns a
    grid with the sizes and the samples of the input and the [maxVal]
    255; it is the input itself exactly when the input's [maxVal] is
    255. *)
Theorem flips_involutive (G : Image) :
  shape_ok G = true ->
  exists H2 V2,
    flipHorizontal G ≫= flipHorizontal = Ok H2
    /\ flipVertical G ≫= flipVertical = Ok V2
    /\ same_grid H2 G /\ same_grid V2 G
    /\ maxVal H2 = 255 /\ maxVal V2 = 255
    /\ (H2 = G <-> maxVal G = 255) /\ (V2 = G <-> maxVal G = 255).
Proof.
  intros Hs. apply shape_ok_wf in Hs.
  destruct (flipHorizontal_spec G Hs) as (H1 & Hr1 & Hwf1 & Hd1 & Hm1 & Hp1).
  destruct (flipHorizontal_spec H1 Hwf1) as (H2 & Hr2 & Hwf2 & Hd2 & Hm2 & Hp2).
  destruct (flipVertical_spec G Hs) as (V1 & Hv1 & Hwv1 & Hdv1 & Hmv1 & Hq1).
  destruct (flipVertical_spec V1 Hwv1) as (V2 & Hv2 & Hwv2 & Hdv2 & Hmv2 & Hq2).
  assert (same_grid H2 G) as HH.
  { apply same_grid_pointwise; [done | done | by apply (same_dims_trans _ H1) |].
    intros y x c Hbox.
    pose proof (in_box_same_dims _ _ _ (same_dims_sym _ _ Hd1) Hbox) as Hb1.
    destruct Hd1 as (Hw & _ & _).
    rewrite Hp2, Hp1, Hw by (done || unfold in_box in *; lia).
    f_equal. lia. }
  assert (same_grid V2 G) as HV.
  { apply same_grid_pointwise; [done | done | by apply (same_dims_trans _ V1) |].
    intros y x c Hbox.
    pose proof (in_box_same_dims _ _ _ (same_dims_sym _ _ Hdv1) Hbox) as Hb1.
    destruct Hdv1 as (_ & Hh & _).
    rewrite Hq2, Hq1, Hh by (done || unfold in_box in *; lia).
    f_equal. lia. }
  exists H2, V2. split_and!; try done.
  - by rewrite Hr1.
  - by rewrite Hv1.
  - split; [by intros <-|]. intros Hmax. apply same_grid_eq; (done || congruence).
  - split; [by intros <-|]. intros Hmax. apply same_grid_eq; (done || congruence).
Qed.

Lemma flips_involutive_witness :
  exists H2 V2,
    flipHorizontal test_image ≫= flipHorizontal = Ok H2
    /\ flipVertical test_image ≫= flipVertical = Ok V2
    /\ same_grid H2 test_image /\ same_grid V2 test_image
    /\ maxVal H2 = 255 /\ maxVal V2 = 255
    /\ (H2 = test_image <-> maxVal test_image = 255)
    /\ (V2 = test_image <-> maxVal test_image = 255).
Proof. apply (flips_involutive test_image). reflexivity. Defined.

(* ================================================================== *)
(** * The brightness *)
(* ================================================================== *)

Lemma brighten_zero (v : Z) : 0 <= v <= 255 -> brighten 0 v = v.
Proof.
  intros Hv. unfold brighten, int_add, wrap32. rewrite Z.add_0_r.
  rewrite Z.mod_small by lia. lia.
Qed.

(** C7, as stated, at a 1x1 grid with samples in [0, 255] whose
    [maxVal] is 100: the grid [adjustBrightness] returns for the amount
    0 has the samples of the input but the [maxVal] 255 of the
    constructor, so it is not the input. *)
Lemma adjustBrightness_zero_resets_maxVal :
  shape_ok low = true /\ samples_ok low = true
  /\ adjustBrightness low 0
     = Ok {| width := 1; height := 1; maxVal := 255; channels := 3;
             data := [ [[10; 50; 100]] ] |}
  /\ adjustBrightness low 0 <> Ok low.
Proof.
  split_and!; try reflexivity; vm_compute; discriminate.
Qed.

(** C7, amended: on every valid grid with samples in [0, 255],
    [adjustBrightness G 0] returns a grid with the sizes and the
    samples of [G] and the [maxVal] 255, which is [G] itself exactly
    when the [maxVal] of [G] is 255; and whatever the amount every
    sample of [adjustBrightness G delta] lies in [0, 255]. *)
Theorem adjustBrightness_identity_and_range (G : Image) (delta : Z) :
  shape_ok G = true -> samples_ok G = true ->
  (exists out,
     adjustBrightness G 0 = Ok out
     /\ same_grid out G /\ maxVal out = 255
     /\ (out = G <-> maxVal G = 255))
  /\ (exists out,
        adjustBrightness G delta = Ok out
        /\ samples_ok out = true /\ in_range out).
Proof.
  intros Hs Hr. apply shape_ok_wf in Hs. apply samples_ok_in_range in Hr.
  split.
  - destruct (adjustBrightness_spec G Hs 0) as (out & Hrun & Hwf & Hd & Hm & Hp).
    assert (same_grid out G) as Hsame.
    { apply same_grid_pointwise; try done. intros y x c Hbox.
      rewrite Hp, brighten_zero by (done || by apply sample_in_range).
      symmetry. by apply pixel_sample. }
    exists out. split_and!; try done.
    split; [by intros <-|].
    intros Hmax. apply same_grid_eq; (done || congruence).
  - destruct (adjustBrightness_spec G Hs delta) as (out & Hrun & _).
    exists out. split; [done|].
    pose proof (adjustBrightness_in_range _ _ _ Hrun) as Hin.
    split; [by apply samples_ok_in_range | done].
Qed.

Lemma adjustBrightness_identity_and_range_witness :
  (exists out,
     adjustBrightness test_image 0 = Ok out
     /\ same_grid out test_image /\ maxVal out = 255
     /\ (out = test_image <-> maxVal test_image = 255))
  /\ (exists out,
        adjustBrightness test_image 50 = Ok out
        /\ samples_ok out = true /\ in_range out).
Proof.
  apply (adjustBrightness_identity_and_range test_image 50); reflexivity.
Defined.

(* ================================================================== *)
(** * The grey levels of the test image *)
(* ================================================================== *)

(** [createTestImage] builds [test_image]. *)
Lemma createTestImage_builds : createTestImage = Ok test_image.
Proof. reflexivity. Qed.

Lemma pixel_row (img : Image) (i : nat) (row : list (list Z)) (x c : Z) :
  data img !! i = Some row ->
  pixel img (Z.of_nat i) x c = vec_at row x ≫= fun px => vec_at px c.
Proof.
  intros Hrow. unfold pixel.
  rewrite (vec_at_lookup _ _ row); [done | lia | by rewrite Nat2Z.id].
Qed.

(** C4, as stated, at the test image: the second sample of row 0 is not
    150. *)
Lemma grayscale_row0_not_150 :
  data test_image !! 0%nat = Some row0
  /\ ~ (exists out,
          convertToGrayscale test_image = Ok out
          /\ pixel out 0 0 0 = Ok 76 /\ pixel out 0 1 0 = Ok 150
          /\ pixel out 0 2 0 = Ok 29 /\ pixel out 0 3 0 = Ok 255).
Proof.
  split; [reflexivity|].
  intros (out & Hrun & _ & H150 & _).
  vm_compute in Hrun. injection Hrun as <-.
  vm_compute in H150. discriminate.
Qed.

(** C4, amended: for a 4x4 RGB grid whose row 0 is red, green, blue,
    white, [convertToGrayscale] returns a one-channel grid whose row 0
    is 76, 149, 29, 255, each the truncation toward zero of
    [0.299*R + 0.587*G + 0.114*B] computed in binary64. *)
Theorem grayscale_row0 (G : Image) :
  shape_ok G = true -> samples_ok G = true ->
  width G = 4 -> height G = 4 -> channels G = 3 ->
  data G !! 0%nat = Some row0 ->
  exists out,
    convertToGrayscale G = Ok out
    /\ channels out = 1
    /\ pixel out 0 0 0 = Ok 76 /\ pixel out 0 1 0 = Ok 149
    /\ pixel out 0 2 0 = Ok 29 /\ pixel out 0 3 0 = Ok 255
    /\ forall x, 0 <= x < 4 ->
         pixel out 0 x 0
         = gray_value (sample G 0 x 0) (sample G 0 x 1) (sample G 0 x 2).
Proof.
  intros Hs Hr Hw Hh Hc Hrow.
  apply shape_ok_wf in Hs. apply samples_ok_in_range in Hr.
  destruct (convertToGrayscale_spec G Hs Hr ltac:(lia))
    as (out & Hrun & _ & _ & _ & Hc1 & _ & Hpix).
  assert (forall x c, sample G 0 x c
            = match vec_at row0 x ≫= (fun px => vec_at px c) with
              | Ok v => v | Fault _ => 0 end) as Hsample.
  { intros x c. unfold sample.
    pose proof (pixel_row G 0 row0 x c Hrow) as Hp.
    change (Z.of_nat 0) with 0 in Hp. by rewrite Hp. }
  exists out. split_and!; try done.
  - rewrite Hpix, !Hsample by lia. vm_compute. reflexivity.
  - rewrite Hpix, !Hsample by lia. vm_compute. reflexivity.
  - rewrite Hpix, !Hsample by lia. vm_compute. reflexivity.
  - rewrite Hpix, !Hsample by lia. vm_compute. reflexivity.
  - intros x Hx. apply Hpix; lia.
Qed.

Lemma grayscale_row0_witness :
  exists out,
    convertToGrayscale test_image = Ok out
    /\ channels out = 1
    /\ pixel out 0 0 0 = Ok 76 /\ pixel out 0 1 0 = Ok 149
    /\ pixel out 0 2 0 = Ok 29 /\ pixel out 0 3 0 = Ok 255
    /\ forall x, 0 <= x < 4 ->
         pixel out 0 x 0
         = gray_value (sample test_image 0 x 0) (sample test_image 0 x 1)
             (sample test_image 0 x 2).
Proof. apply (grayscale_row0 test_image); reflexivity. Defined.

(** The decimal values behind the four samples: the exact weighted
    sums, in thousandths, and their integer parts. *)
Lemma row0_exact_sums :
  299 * 255 = 76245 /\ 76245 ÷ 1000 = 76
  /\ 587 * 255 = 149685 /\ 149685 ÷ 1000 = 149
  /\ 114 * 255 = 29070 /\ 29070 ÷ 1000 = 29
  /\ (299 + 587 + 114) * 255 ÷ 1000 = 255
  /\ gray_value 255 0 0 = Ok 76 /\ gray_value 0 255 0 = Ok 149
  /\ gray_value 0 0 255 = Ok 29 /\ gray_value 255 255 255 = Ok 255.
Proof. vm_compute. repeat split; reflexivity. Qed.

(* ================================================================== *)
(** * The contrast *)
(* ================================================================== *)

(** C3, at the one-channel image of width 2 and height 1, with the
    factor of the demonstration: the loop of [adjustContrast] reads
    [input(1, 0, 0)], a row the image does not have. *)
Theorem adjustContrast_wide_out_of_range :
  shape_ok wide = true /\ samples_ok wide = true
  /\ pixel wide 1 0 0 = Fault OutOfRange
  /\ adjustContrast wide lit_1_5f = Fault OutOfRange.
Proof. repeat split; reflexivity. Qed.

(** C5, at the same image: with factor 1.0 the result is the fault, not
    the image. *)
Theorem adjustContrast_one_wide :
  shape_ok wide = true /\ samples_ok wide = true
  /\ adjustContrast wide lit_1f = Fault OutOfRange
  /\ adjustContrast wide lit_1f <> Ok wide.
Proof. repeat split; (reflexivity || discriminate). Qed.

(** Where width and height are equal the exchanged loop bounds do no
    harm, and factor 1.0 gives the image back. *)
Lemma adjustContrast_one_square (G : Image) :
  shape_ok G = true -> samples_ok G = true -> width G = height G ->
  exists out,
    adjustContrast G lit_1f = Ok out
    /\ same_grid out G /\ (maxVal G = 255 -> out = G).
Proof.
  intros Hs Hr Hsq. apply shape_ok_wf in Hs. apply samples_ok_in_range in Hr.
  destruct (adjustContrast_spec G lit_1f Hs ltac:(auto))
    as (out & Hrun & Hwf & Hd & Hm & Hp).
  assert (same_grid out G) as Hsame.
  { apply same_grid_pointwise; try done. intros y x c Hbox.
    rewrite Hp, contrast_value_one by (done || by apply sample_in_range).
    symmetry. by apply pixel_sample. }
  exists out. split_and!; try done.
  intros Hmax. apply same_grid_eq; (done || congruence).
Qed.

(* ================================================================== *)
(** * The contrast on grids that are not square *)
(* ================================================================== *)

Lemma bind_Fault {A B : Type} (e : fault) (k : A -> result B) :
  Fault e ≫= k = Fault e.
Proof. reflexivity. Qed.

(** A run each step of which either keeps [P] or faults with [e], and
    one index of which faults whatever the state, faults with [e]. *)
Lemma run_must_fault {I S : Type} (P : S -> Prop) (e : fault)
    (body : I -> S -> result S) (idxs : list I) :
  (forall i s, i ∈ idxs -> P s ->
     (exists s', body i s = Ok s' /\ P s') \/ body i s = Fault e) ->
  (exists p, p ∈ idxs /\ forall s, body p s = Fault e) ->
  forall s, P s -> run body idxs s = Fault e.
Proof.
  induction idxs as [|i l IH]; intros Hstep (p & Hp & Hfault) s Hs.
  - by apply elem_of_nil in Hp.
  - simpl. destruct (Hstep i s (list_elem_of_here _ _) Hs)
      as [(s' & Hb & Hs') | Hb]; rewrite Hb; [|reflexivity].
    rewrite bind_Ok. apply IH; [| |done].
    + intros j t Hj. by apply Hstep, list_elem_of_further.
    + exists p. split; [|done].
      apply elem_of_cons in Hp as [->|Hp]; [|done].
      rewrite Hfault in Hb. discriminate.
Qed.

(** On a well-formed grid with at least one channel, one row and one
    column whose width differs from its height, [adjustContrast] reads
    outside the grid, whatever the factor. *)
Lemma adjustContrast_not_square (G : Image) (factor : fp) :
  shape_ok G = true ->
  1 <= channels G -> 1 <= width G -> 1 <= height G ->
  width G <> height G ->
  adjustContrast G factor = Fault OutOfRange.
Proof.
  intros Hs Hc Hw Hh Hne. apply shape_ok_wf in Hs.
  destruct (Image_ctor_like G Hs) as (out0 & Hctor & Hwf0 & Hd0 & _).
  unfold adjustContrast, getHeight, getWidth, getChannels.
  rewrite Hctor, bind_Ok, loop3_run.
  apply (run_must_fault (fun out => wf out /\ same_dims out G)); [| |done].
  - intros [[x y] c] out Hp [Hwfo Hdo]. cbn [fst snd].
    apply elem_of_idx3 in Hp.
    destruct (Z_lt_dec y (height G)) as [Hy|Hy];
      [destruct (Z_lt_dec x (width G)) as [Hx|Hx]|].
    + left.
      assert (in_box G (y, x, c)) as Hbox by (unfold in_box; lia).
      rewrite (pixel_sample G y x c Hs Hbox), bind_Ok. cbv beta zeta.
      destruct (contrast_value_level factor (sample G y x c)) as [Hv _].
      unfold contrast_value in Hv. cbv zeta in Hv. rewrite Hv, bind_Ok.
      destruct (pixel_assign_spec out y x c
                  (contrast_level factor (sample G y x c)) Hwfo)
        as (out' & Hrun & Hwf' & Hd' & _).
      { by apply (in_box_same_dims G); [apply same_dims_sym|]. }
      exists out'. split_and!; try done. by apply (same_dims_trans _ out).
    + right. rewrite pixel_outside; [done | done |]. unfold in_box. lia.
    + right. rewrite pixel_outside; [done | done |]. unfold in_box. lia.
  - destruct (Z_lt_ge_dec (height G) (width G)).
    + exists (0, height G, 0). split; [apply elem_of_idx3; lia|].
      intros out. cbn [fst snd].
      rewrite pixel_outside; [done | done |]. unfold in_box. lia.
    + exists (width G, 0, 0). split; [apply elem_of_idx3; lia|].
      intros out. cbn [fst snd].
      rewrite pixel_outside; [done | done |]. unfold in_box. lia.
Qed.

(* ================================================================== *)
(** * Every transform keeps the samples in range *)
(* ================================================================== *)

(** C8: for an input whose samples lie in [0, 255], the grid each of
    the seven transforms returns has every sample in [0, 255].  Five of
    them return a grid for every well-formed input; so does
    [convertToGrayscale] when the input has its three channels, and
    [adjustContrast] when width and height are equal. *)
Theorem transforms_keep_range (G : Image) (delta : Z) (factor : fp) :
  shape_ok G = true -> samples_ok G = true ->
  returns_in_range (flipHorizontal G)
  /\ returns_in_range (flipVertical G)
  /\ returns_in_range (adjustBrightness G delta)
  /\ returns_in_range (applyBlur G)
  /\ returns_in_range (rotate90 G)
  /\ keeps_range (convertToGrayscale G)
  /\ (3 <= channels G -> returns_in_range (convertToGrayscale G))
  /\ keeps_range (adjustContrast G factor)
  /\ (width G = height G -> returns_in_range (adjustContrast G factor)).
Proof.
  intros Hs Hr. pose proof Hs as Hwf. apply shape_ok_wf in Hwf.
  pose proof Hr as Hin. apply samples_ok_in_range in Hin.
  split_and!.
  - destruct (flipHorizontal_spec G Hwf) as (out & Hrun & _).
    exists out. split; [done|].
    by apply samples_ok_in_range, (flipHorizontal_in_range G).
  - destruct (flipVertical_spec G Hwf) as (out & Hrun & _).
    exists out. split; [done|].
    by apply samples_ok_in_range, (flipVertical_in_range G).
  - destruct (adjustBrightness_spec G Hwf delta) as (out & Hrun & _).
    exists out. split; [done|].
    by apply samples_ok_in_range, (adjustBrightness_in_range G _ delta).
  - destruct (applyBlur_blank G Hs) as (out & Hrun & _).
    exists out. split; [done|].
    by apply samples_ok_in_range, (applyBlur_in_range G).
  - destruct (rotate90_blank G Hs) as (out & Hrun & _).
    exists out. split; [done|].
    by apply samples_ok_in_range, (rotate90_in_range G).
  - intros out Hrun.
    by apply samples_ok_in_range, (convertToGrayscale_in_range G).
  - intros Hch.
    destruct (convertToGrayscale_spec G Hwf Hin ltac:(auto)) as (out & Hrun & _).
    exists out. split; [done|].
    by apply samples_ok_in_range, (convertToGrayscale_in_range G).
  - intros out Hrun.
    by apply samples_ok_in_range, (adjustContrast_in_range G _ factor).
  - intros Hsq.
    destruct (adjustContrast_spec G factor Hwf ltac:(auto)) as (out & Hrun & _).
    exists out. split; [done|].
    by apply samples_ok_in_range, (adjustContrast_in_range G _ factor).
Qed.

Lemma transforms_keep_range_witness :
  returns_in_range (flipHorizontal test_image)
  /\ returns_in_range (flipVertical test_image)
  /\ returns_in_range (adjustBrightness test_image 50)
  /\ returns_in_range (applyBlur test_image)
  /\ returns_in_range (rotate90 test_image)
  /\ keeps_range (convertToGrayscale test_image)
  /\ (3 <= channels test_image -> returns_in_range (convertToGrayscale test_image))
  /\ keeps_range (adjustContrast test_image lit_1_5f)
  /\ (width test_image = height test_image ->
      returns_in_range (adjustContrast test_image lit_1_5f)).
Proof.
  apply (transforms_keep_range test_image 50 lit_1_5f); reflexivity.
Defined.

(* ================================================================== *)
(** * Grids of zero width or zero height *)
(* ================================================================== *)

Lemma empty_box (img : Image) (q : Z * Z * Z) :
  width img = 0 \/ height img = 0 -> ~ in_box img q.
Proof. destruct q as [[y x] c]. unfold in_box. lia. Qed.

Lemma empty_in_range (img : Image) :
  wf img -> width img = 0 \/ height img = 0 -> in_range img.
Proof.
  intros (_ & _ & _ & Hlen & Hrows) Hz. unfold in_range.
  apply Forall_forall. intros row Hrow.
  pose proof (proj1 (Forall_forall _ _) Hrows row Hrow) as [Hl _].
  cbv beta in Hl.
  assert (width img = 0) as Hw.
  { destruct Hz as [|Hh]; [done|].
    apply list_elem_of_lookup in Hrow as [i Hi].
    apply lookup_lt_Some in Hi. lia. }
  destruct row; [constructor | simpl in Hl; lia].
Qed.

(** C9, as stated, at width 0, height 5 and 3 channels: the constructor
    does not fail; it returns the grid of five empty rows. *)
Lemma zero_width_grid_is_built :
  Image_ctor 0 5 3 = Ok no_columns
  /\ ~ (exists e, Image_ctor 0 5 3 = Fault e).
Proof. split; [reflexivity|]. intros [e He]. discriminate. Qed.

(** C9, amended: constructing a grid with zero width or zero height
    does not fail; it yields a well-formed grid of the sizes asked for,
    which holds no sample, and none of the seven transforms fails on
    such a grid.  The constructor fails only on a negative size. *)
Theorem zero_size_grids (w h ch : Z) (G : Image) (delta : Z) (factor : fp) :
  0 <= w -> 0 <= h -> 0 <= ch -> w = 0 \/ h = 0 ->
  shape_ok G = true -> width G = 0 \/ height G = 0 ->
  (exists img,
     Image_ctor w h ch = Ok img
     /\ width img = w /\ height img = h /\ channels img = ch
     /\ shape_ok img = true
     /\ forall y x c, pixel img y x c = Fault OutOfRange)
  /\ (forall w' h' ch' e,
        Image_ctor w' h' ch' = Fault e ->
        e = LengthError /\ (w' < 0 \/ h' < 0 \/ ch' < 0))
  /\ returns (convertToGrayscale G)
  /\ returns (flipHorizontal G)
  /\ returns (flipVertical G)
  /\ returns (adjustBrightness G delta)
  /\ returns (adjustContrast G factor)
  /\ returns (applyBlur G)
  /\ returns (rotate90 G).
Proof.
  intros Hw Hh Hch Hz Hs HzG. pose proof Hs as Hwf. apply shape_ok_wf in Hwf.
  split_and!.
  - destruct (Image_ctor_spec w h ch Hw Hh Hch) as (img & Hctor & Heq & Hwfi & _).
    assert (width img = w /\ height img = h /\ channels img = ch)
      as (Hwi & Hhi & Hci) by (by subst img).
    exists img. split_and!; try done.
    + by apply shape_ok_wf.
    + intros y x c. apply pixel_outside; [done|]. apply empty_box. lia.
  - intros w' h' ch' e Hf.
    destruct (Z_lt_ge_dec w' 0); [|destruct (Z_lt_ge_dec h' 0);
      [|destruct (Z_lt_ge_dec ch' 0)]].
    1-3: rewrite Image_ctor_negative in Hf by lia;
         injection Hf as <-; split; [done | lia].
    destruct (Image_ctor_spec w' h' ch') as (img & Hctor & _); [lia..|].
    congruence.
  - destruct (convertToGrayscale_spec G Hwf) as (out & Hrun & _).
    + by apply empty_in_range.
    + tauto.
    + by exists out.
  - destruct (flipHorizontal_spec G Hwf) as (out & Hrun & _). by exists out.
  - destruct (flipVertical_spec G Hwf) as (out & Hrun & _). by exists out.
  - destruct (adjustBrightness_spec G Hwf delta) as (out & Hrun & _).
    by exists out.
  - destruct (adjustContrast_spec G factor Hwf) as (out & Hrun & _);
      [tauto | by exists out].
  - destruct (applyBlur_blank G Hs) as (out & Hrun & _). by exists out.
  - destruct (rotate90_blank G Hs) as (out & Hrun & _). by exists out.
Qed.

Lemma zero_size_grids_witness :
  (exists img,
     Image_ctor 0 5 3 = Ok img
     /\ width img = 0 /\ height img = 5 /\ channels img = 3
     /\ shape_ok img = true
     /\ forall y x c, pixel img y x c = Fault OutOfRange)
  /\ (forall w' h' ch' e,
        Image_ctor w' h' ch' = Fault e ->
        e = LengthError /\ (w' < 0 \/ h' < 0 \/ ch' < 0))
  /\ returns (convertToGrayscale no_columns)
  /\ returns (flipHorizontal no_columns)
  /\ returns (flipVertical no_columns)
  /\ returns (adjustBrightness no_columns 50)
  /\ returns (adjustContrast no_columns lit_1_5f)
  /\ returns (applyBlur no_columns)
  /\ returns (rotate90 no_columns).
Proof.
  apply (zero_size_grids 0 5 3 no_columns 50 lit_1_5f);
    (lia || reflexivity || (left; reflexivity)).
Defined.


(* ================================================================== *)
(** * Further properties of the [Image] class *)
(* ================================================================== *)

(** Two well-formed grids of the same sizes and [maxVal] that agree on
    every sample are the same record. *)
Lemma image_ext (a b : Image) :
  wf a -> wf b -> same_dims a b -> maxVal a = maxVal b ->
  (forall y x c, in_box b (y, x, c) -> pixel a y x c = pixel b y x c) ->
  a = b.
Proof.
  intros Ha Hb Hd Hm Hpix.
  apply same_grid_eq; [|done]. by apply same_grid_pointwise.
Qed.

(** X1: an assignment [img(y, x, c) = v] inside the grid succeeds; the
    grid keeps its sizes and its shape, a read of [(y, x, c)] then
    gives [v], and every other sample reads as before. *)
Theorem assign_then_read (img : Image) (y x c v : Z) :
  shape_ok img = true ->
  0 <= y < height img -> 0 <= x < width img -> 0 <= c < channels img ->
  exists img',
    pixel_assign img y x c v = Ok img'
    /\ shape_ok img' = true
    /\ width img' = width img /\ height img' = height img
    /\ channels img' = channels img /\ maxVal img' = maxVal img
    /\ pixel img' y x c = Ok v
    /\ forall y' x' c', (y', x', c') <> (y, x, c) ->
         pixel img' y' x' c' = pixel img y' x' c'.
Proof.
  intros Hs Hy Hx Hc. apply shape_ok_wf in Hs.
  destruct (pixel_assign_spec img y x c v Hs)
    as (img' & Hrun & Hwf & (Hw & Hh & Hch) & Hm & Hpix); [done|].
  exists img'. split_and!; try done.
  - by apply shape_ok_wf.
  - pose proof (Hpix (y, x, c)) as Hq. by rewrite decide_True in Hq.
  - intros y' x' c' Hne. pose proof (Hpix (y', x', c')) as Hq.
    by rewrite decide_False in Hq.
Qed.

Lemma assign_then_read_witness :
  exists img',
    pixel_assign test_image 1 2 0 77 = Ok img'
    /\ shape_ok img' = true
    /\ width img' = width test_image /\ height img' = height test_image
    /\ channels img' = channels test_image /\ maxVal img' = maxVal test_image
    /\ pixel img' 1 2 0 = Ok 77
    /\ forall y' x' c', (y', x', c') <> (1, 2, 0) ->
         pixel img' y' x' c' = pixel test_image y' x' c'.
Proof.
  apply (assign_then_read test_image 1 2 0 77); [reflexivity | simpl; lia ..].
Defined.

(** X2: on a well-formed grid a read [img(y, x, c)] gives a sample
    exactly when the three indices are inside the grid, and is an
    out-of-range access otherwise; negative indices are outside. *)
Theorem read_inside_or_fault (img : Image) (y x c : Z) :
  shape_ok img = true ->
  if (0 <=? y) && (y <? height img) && (0 <=? x) && (x <? width img)
     && (0 <=? c) && (c <? channels img)
  then exists v, pixel img y x c = Ok v
  else pixel img y x c = Fault OutOfRange.
Proof.
  intros Hs. apply shape_ok_wf in Hs.
  destruct ((0 <=? y) && (y <? height img) && (0 <=? x) && (x <? width img)
            && (0 <=? c) && (c <? channels img)) eqn:Hb.
  - rewrite !andb_true_iff, !Z.leb_le, !Z.ltb_lt in Hb.
    apply pixel_in_box; [done|]. unfold in_box. lia.
  - apply pixel_outside; [done|]. unfold in_box. intros Hbox.
    assert ((0 <=? y) && (y <? height img) && (0 <=? x) && (x <? width img)
            && (0 <=? c) && (c <? channels img) = true); [|congruence].
    rewrite !andb_true_iff, !Z.leb_le, !Z.ltb_lt. lia.
Qed.

Lemma read_inside_or_fault_witness :
  (exists v, pixel test_image 3 2 1 = Ok v)
  /\ pixel test_image 4 0 0 = Fault OutOfRange
  /\ pixel test_image 0 (-1) 0 = Fault OutOfRange.
Proof.
  split; [|split].
  - apply (read_inside_or_fault test_image 3 2 1). reflexivity.
  - apply (read_inside_or_fault test_image 4 0 0). reflexivity.
  - apply (read_inside_or_fault test_image 0 (-1) 0). reflexivity.
Defined.

(** X3: the constructor [Image(w, h, ch)] raises the vector's length
    error when a size is negative; otherwise it returns a well-formed
    grid of those sizes with [maxVal] 255 and every sample 0. *)
Theorem constructor_contract (w h ch : Z) :
  if (w <? 0) || (h <? 0) || (ch <? 0)
  then Image_ctor w h ch = Fault LengthError
  else exists img,
         Image_ctor w h ch = Ok img
         /\ width img = w /\ height img = h /\ channels img = ch
         /\ maxVal img = 255
         /\ shape_ok img = true /\ all_zero img = true.
Proof.
  destruct ((w <? 0) || (h <? 0) || (ch <? 0)) eqn:Hb.
  - rewrite !orb_true_iff, !Z.ltb_lt in Hb. apply Image_ctor_negative. lia.
  - rewrite !orb_false_iff, !Z.ltb_ge in Hb.
    destruct (Image_ctor_spec w h ch) as (img & Hctor & Heq & Hwf & _); [lia..|].
    exists img. split_and!; try by subst img.
    + by apply shape_ok_wf.
    + by apply (Image_ctor_in_range _ _ _ _ Hctor).
Qed.

(* ================================================================== *)
(** * Further properties of the flips and of the brightness *)
(* ================================================================== *)

(** X4: [flipHorizontal] copies the sample of [(y, x)] to
    [(y, width-1-x)] and [flipVertical] copies it to [(height-1-y, x)],
    channel by channel; both return a well-formed grid of the input's
    sizes. *)
Theorem flips_mirror (G : Image) :
  shape_ok G = true ->
  exists H V,
    flipHorizontal G = Ok H /\ flipVertical G = Ok V
    /\ shape_ok H = true /\ shape_ok V = true
    /\ same_dims H G /\ same_dims V G
    /\ forall y x c,
         0 <= y < height G -> 0 <= x < width G -> 0 <= c < channels G ->
         pixel H y (width G - 1 - x) c = pixel G y x c
         /\ pixel V (height G - 1 - y) x c = pixel G y x c.
Proof.
  intros Hs. apply shape_ok_wf in Hs.
  destruct (flipHorizontal_spec G Hs) as (H & HrH & HwfH & HdH & _ & HpH).
  destruct (flipVertical_spec G Hs) as (V & HrV & HwfV & HdV & _ & HpV).
  exists H, V. split_and!; try done; try by apply shape_ok_wf.
  intros y x c Hy Hx Hc. split.
  - rewrite HpH by (unfold in_box; lia). f_equal. lia.
  - rewrite HpV by (unfold in_box; lia). f_equal. lia.
Qed.

Lemma flips_mirror_witness :
  exists H V,
    flipHorizontal test_image = Ok H /\ flipVertical test_image = Ok V
    /\ shape_ok H = true /\ shape_ok V = true
    /\ same_dims H test_image /\ same_dims V test_image
    /\ forall y x c,
         0 <= y < height test_image -> 0 <= x < width test_image ->
         0 <= c < channels test_image ->
         pixel H y (width test_image - 1 - x) c = pixel test_image y x c
         /\ pixel V (height test_image - 1 - y) x c = pixel test_image y x c.
Proof. apply (flips_mirror test_image). reflexivity. Defined.

(** X5: the two flips commute, and either order is the half turn: the
    sample of [(y, x)] comes from [(height-1-y, width-1-x)]. *)
Theorem flips_commute (G : Image) :
  shape_ok G = true ->
  exists R,
    flipHorizontal G ≫= flipVertical = Ok R
    /\ flipVertical G ≫= flipHorizontal = Ok R
    /\ same_dims R G
    /\ forall y x c,
         0 <= y < height G -> 0 <= x < width G -> 0 <= c < channels G ->
         pixel R y x c = pixel G (height G - 1 - y) (width G - 1 - x) c.
Proof.
  intros Hs. apply shape_ok_wf in Hs.
  destruct (flipHorizontal_spec G Hs) as (H & HrH & HwfH & HdH & _ & HpH).
  destruct (flipVertical_spec H HwfH) as (HV & HrHV & HwfHV & HdHV & HmHV & HpHV).
  destruct (flipVertical_spec G Hs) as (V & HrV & HwfV & HdV & _ & HpV).
  destruct (flipHorizontal_spec V HwfV) as (VH & HrVH & HwfVH & HdVH & HmVH & HpVH).
  pose proof HdH as (HwH & HhH & HcH). pose proof HdV as (HwV & HhV & HcV).
  assert (forall y x c, in_box G (y, x, c) ->
            pixel HV y x c = pixel G (height G - 1 - y) (width G - 1 - x) c)
    as Hhv.
  { intros y x c Hbox.
    rewrite HpHV by (apply (in_box_same_dims G); [by apply same_dims_sym|done]).
    rewrite HpH, HhH by (unfold in_box in *; lia). done. }
  assert (forall y x c, in_box G (y, x, c) ->
            pixel VH y x c = pixel G (height G - 1 - y) (width G - 1 - x) c)
    as Hvh.
  { intros y x c Hbox.
    rewrite HpVH by (apply (in_box_same_dims G); [by apply same_dims_sym|done]).
    rewrite HpV, HwV by (unfold in_box in *; lia). done. }
  assert (VH = HV) as Heq.
  { apply image_ext; try done.
    - apply (same_dims_trans _ V); [done|]. apply (same_dims_trans _ G); [done|].
      apply same_dims_sym. by apply (same_dims_trans _ H).
    - congruence.
    - intros y x c Hbox.
      assert (in_box G (y, x, c)) as HboxG.
      { apply (in_box_same_dims HV); [|done]. by apply (same_dims_trans _ H). }
      by rewrite Hhv, Hvh. }
  exists HV. split_and!.
  - by rewrite HrH.
  - rewrite HrV. simpl. by rewrite HrVH, Heq.
  - by apply (same_dims_trans _ H).
  - intros y x c Hy Hx Hc. apply Hhv. unfold in_box. lia.
Qed.

Lemma flips_commute_witness :
  exists R,
    flipHorizontal test_image ≫= flipVertical = Ok R
    /\ flipVertical test_image ≫= flipHorizontal = Ok R
    /\ same_dims R test_image
    /\ forall y x c,
         0 <= y < height test_image -> 0 <= x < width test_image ->
         0 <= c < channels test_image ->
         pixel R y x c
         = pixel test_image (height test_image - 1 - y)
             (width test_image - 1 - x) c.
Proof. apply (flips_commute test_image). reflexivity. Defined.

Lemma wrap32_small (z : Z) : INT_MIN <= z <= INT_MAX -> wrap32 z = z.
Proof.
  unfold INT_MIN, INT_MAX, wrap32. intros Hz. rewrite Z.mod_small; lia.
Qed.

(** X6: [adjustBrightness] stores, for each sample [v], the sum
    [v + value] clamped to [0, 255] (the sum taken in 32 bits); the
    grid keeps its sizes.  An amount of 255 or more turns every sample
    of an 8-bit image into 255, an amount of -255 or less into 0. *)
Theorem adjustBrightness_clamps (G : Image) (value : Z) :
  shape_ok G = true -> samples_ok G = true ->
  INT_MIN <= value <= INT_MAX - 255 ->
  exists out,
    adjustBrightness G value = Ok out
    /\ shape_ok out = true /\ same_dims out G
    /\ forall y x c,
         0 <= y < height G -> 0 <= x < width G -> 0 <= c < channels G ->
         exists v,
           pixel G y x c = Ok v
           /\ pixel out y x c = Ok (Z.max 0 (Z.min 255 (v + value)))
           /\ (255 <= value -> pixel out y x c = Ok 255)
           /\ (value <= -255 -> pixel out y x c = Ok 0).
Proof.
  intros Hs Hr Hval. apply shape_ok_wf in Hs. apply samples_ok_in_range in Hr.
  destruct (adjustBrightness_spec G Hs value) as (out & Hrun & Hwf & Hd & _ & Hp).
  exists out. split_and!; try done; [by apply shape_ok_wf|].
  intros y x c Hy Hx Hc.
  assert (in_box G (y, x, c)) as Hbox by (unfold in_box; lia).
  pose proof (sample_in_range G y x c Hr) as Hv.
  exists (sample G y x c). rewrite (pixel_sample G y x c Hs Hbox), (Hp y x c Hbox).
  unfold brighten, int_add.
  rewrite wrap32_small by (unfold INT_MIN, INT_MAX in *; lia).
  split_and!; try done; intros Hsat; f_equal; lia.
Qed.

Lemma adjustBrightness_clamps_witness :
  exists out,
    adjustBrightness test_image 50 = Ok out
    /\ shape_ok out = true /\ same_dims out test_image
    /\ forall y x c,
         0 <= y < height test_image -> 0 <= x < width test_image ->
         0 <= c < channels test_image ->
         exists v,
           pixel test_image y x c = Ok v
           /\ pixel out y x c = Ok (Z.max 0 (Z.min 255 (v + 50)))
           /\ (255 <= 50 -> pixel out y x c = Ok 255)
           /\ (50 <= -255 -> pixel out y x c = Ok 0).
Proof.
  apply (adjustBrightness_clamps test_image 50);
    [reflexivity | reflexivity | unfold INT_MIN, INT_MAX; lia].
Defined.




(** Adjustments of opposite signs do not add up: the clamp loses what
    went over the top. *)
Lemma adjustBrightness_opposite_signs :
  adjustBrightness test_image 100 ≫= (fun G1 => adjustBrightness G1 (-100))
  <> adjustBrightness test_image (100 + -100).
Proof. vm_compute. discriminate. Qed.

(** X8: the brightness adjustment commutes with both flips. *)
Theorem adjustBrightness_commutes_with_flips (G : Image) (value : Z) :
  shape_ok G = true ->
  exists FH FV,
    flipHorizontal G ≫= (fun F => adjustBrightness F value) = Ok FH
    /\ adjustBrightness G value ≫= flipHorizontal = Ok FH
    /\ flipVertical G ≫= (fun F => adjustBrightness F value) = Ok FV
    /\ adjustBrightness G value ≫= flipVertical = Ok FV.
Proof.
  intros Hs. apply shape_ok_wf in Hs.
  destruct (adjustBrightness_spec G Hs value) as (B & HrB & HwfB & HdB & HmB & HpB).
  destruct (flipHorizontal_spec G Hs) as (H & HrH & HwfH & HdH & _ & HpH).
  destruct (flipVertical_spec G Hs) as (V & HrV & HwfV & HdV & _ & HpV).
  destruct (adjustBrightness_spec H HwfH value) as (HB & HrHB & HwfHB & HdHB & HmHB & HpHB).
  destruct (adjustBrightness_spec V HwfV value) as (VB & HrVB & HwfVB & HdVB & HmVB & HpVB).
  destruct (flipHorizontal_spec B HwfB) as (BH & HrBH & HwfBH & HdBH & HmBH & HpBH).
  destruct (flipVertical_spec B HwfB) as (BV & HrBV & HwfBV & HdBV & HmBV & HpBV).
  pose proof HdB as (HwB & HhB & HcB).
  assert (BH = HB) as HeqH.
  { apply image_ext; try done; [|congruence|].
    - apply (same_dims_trans _ B); [done|]. apply (same_dims_trans _ G); [done|].
      apply same_dims_sym. by apply (same_dims_trans _ H).
    - intros y x c Hbox.
      assert (in_box H (y, x, c)) as HboxH by by apply (in_box_same_dims HB).
      assert (in_box G (y, x, c)) as HboxG by by apply (in_box_same_dims H).
      assert (in_box B (y, x, c)) as HboxB
        by (apply (in_box_same_dims G); [by apply same_dims_sym|done]).
      rewrite HpBH, HpHB, HwB by done.
      rewrite HpB by (unfold in_box in *; lia). do 2 f_equal.
      unfold sample. by rewrite HpH. }
  assert (BV = VB) as HeqV.
  { apply image_ext; try done; [|congruence|].
    - apply (same_dims_trans _ B); [done|]. apply (same_dims_trans _ G); [done|].
      apply same_dims_sym. by apply (same_dims_trans _ V).
    - intros y x c Hbox.
      assert (in_box V (y, x, c)) as HboxV by by apply (in_box_same_dims VB).
      assert (in_box G (y, x, c)) as HboxG by by apply (in_box_same_dims V).
      assert (in_box B (y, x, c)) as HboxB
        by (apply (in_box_same_dims G); [by apply same_dims_sym|done]).
      rewrite HpBV, HpVB, HhB by done.
      rewrite HpB by (unfold in_box in *; lia). do 2 f_equal.
      unfold sample. by rewrite HpV. }
  exists HB, VB. split_and!.
  - by rewrite HrH.
  - rewrite HrB. simpl. by rewrite HrBH, HeqH.
  - by rewrite HrV.
  - rewrite HrB. simpl. by rewrite HrBV, HeqV.
Qed.

Lemma adjustBrightness_commutes_with_flips_witness :
  exists FH FV,
    flipHorizontal test_image ≫= (fun F => adjustBrightness F 50) = Ok FH
    /\ adjustBrightness test_image 50 ≫= flipHorizontal = Ok FH
    /\ flipVertical test_image ≫= (fun F => adjustBrightness F 50) = Ok FV
    /\ adjustBrightness test_image 50 ≫= flipVertical = Ok FV.
Proof.
  apply (adjustBrightness_commutes_with_flips test_image 50). reflexivity.
Defined.

(* ================================================================== *)
(** * Further properties of the grey levels *)
(* ================================================================== *)

(** X9: on an 8-bit image of at least three channels
    [convertToGrayscale] returns a well-formed one-channel grid of the
    same width and height, in range, whose sample at [(y, x)] is the
    grey level of the first three samples of the input pixel; further
    channels are not read. *)
Theorem convertToGrayscale_levels (G : Image) :
  shape_ok G = true -> samples_ok G = true -> 3 <= channels G ->
  exists out,
    convertToGrayscale G = Ok out
    /\ shape_ok out = true /\ samples_ok out = true
    /\ width out = width G /\ height out = height G /\ channels out = 1
    /\ forall y x, 0 <= y < height G -> 0 <= x < width G ->
         exists R Gr B,
           pixel G y x 0 = Ok R /\ pixel G y x 1 = Ok Gr
           /\ pixel G y x 2 = Ok B
           /\ pixel out y x 0 = gray_value R Gr B.
Proof.
  intros Hs Hr Hch. apply shape_ok_wf in Hs. apply samples_ok_in_range in Hr.
  destruct (convertToGrayscale_spec G Hs Hr ltac:(auto))
    as (out & Hrun & Hwf & Hw & Hh & Hc & _ & Hpix).
  exists out. split_and!; try done.
  - by apply shape_ok_wf.
  - by apply samples_ok_in_range, (convertToGrayscale_in_range G).
  - intros y x Hy Hx.
    exists (sample G y x 0), (sample G y x 1), (sample G y x 2).
    rewrite (pixel_sample G y x 0), (pixel_sample G y x 1),
      (pixel_sample G y x 2) by (done || unfold in_box; lia).
    split_and!; try done. by apply Hpix.
Qed.

Lemma convertToGrayscale_levels_witness :
  exists out,
    convertToGrayscale test_image = Ok out
    /\ shape_ok out = true /\ samples_ok out = true
    /\ width out = width test_image /\ height out = height test_image
    /\ channels out = 1
    /\ forall y x, 0 <= y < height test_image -> 0 <= x < width test_image ->
         exists R Gr B,
           pixel test_image y x 0 = Ok R /\ pixel test_image y x 1 = Ok Gr
           /\ pixel test_image y x 2 = Ok B
           /\ pixel out y x 0 = gray_value R Gr B.
Proof.
  apply (convertToGrayscale_levels test_image); [reflexivity | reflexivity |].
  simpl. lia.
Defined.

(** On a grid that holds a pixel and has fewer than three channels the
    first pass through the loop reads a channel that does not exist. *)
Lemma convertToGrayscale_few_channels (G : Image) :
  wf G -> 1 <= width G -> 1 <= height G -> channels G < 3 ->
  convertToGrayscale G = Fault OutOfRange.
Proof.
  intros Hwf Hw Hh Hc. pose proof Hwf as (_ & _ & Hc0 & _).
  destruct (Image_ctor_spec (width G) (height G) 1) as (out0 & Hctor & _);
    [lia..|].
  unfold convertToGrayscale, getHeight, getWidth.
  rewrite Hctor, bind_Ok, loop2_run.
  apply (run_must_fault (fun _ => True)); [| |done].
  - intros [y x] out Hp _. right. cbn [fst snd]. apply elem_of_idx2 in Hp.
    destruct (Z_lt_dec 0 (channels G));
      [destruct (Z_lt_dec 1 (channels G))|].
    + rewrite (pixel_sample G y x 0), bind_Ok by (done || unfold in_box; lia).
      rewrite (pixel_sample G y x 1), bind_Ok by (done || unfold in_box; lia).
      rewrite (pixel_outside G y x 2); [done | done | unfold in_box; lia].
    + rewrite (pixel_sample G y x 0), bind_Ok by (done || unfold in_box; lia).
      rewrite (pixel_outside G y x 1); [done | done | unfold in_box; lia].
    + rewrite (pixel_outside G y x 0); [done | done | unfold in_box; lia].
  - exists (0, 0). split; [apply elem_of_idx2; lia|].
    intros out. cbn [fst snd].
    destruct (Z_lt_dec 0 (channels G));
      [destruct (Z_lt_dec 1 (channels G))|].
    + rewrite (pixel_sample G 0 0 0), bind_Ok by (done || unfold in_box; lia).
      rewrite (pixel_sample G 0 0 1), bind_Ok by (done || unfold in_box; lia).
      rewrite (pixel_outside G 0 0 2); [done | done | unfold in_box; lia].
    + rewrite (pixel_sample G 0 0 0), bind_Ok by (done || unfold in_box; lia).
      rewrite (pixel_outside G 0 0 1); [done | done | unfold in_box; lia].
    + rewrite (pixel_outside G 0 0 0); [done | done | unfold in_box; lia].
Qed.

(** X10: [convertToGrayscale] reads channels 0, 1 and 2 whatever the
    channel count: on a grid with a pixel and fewer than three channels
    it makes an out-of-range access.  Its own output has one channel,
    so converting twice does so too. *)
Theorem convertToGrayscale_needs_three_channels (G : Image) :
  shape_ok G = true -> 1 <= width G -> 1 <= height G ->
  (channels G < 3 -> convertToGrayscale G = Fault OutOfRange)
  /\ (3 <= channels G -> samples_ok G = true ->
      convertToGrayscale G ≫= convertToGrayscale = Fault OutOfRange).
Proof.
  intros Hs Hw Hh. apply shape_ok_wf in Hs. split.
  - intros Hc. by apply convertToGrayscale_few_channels.
  - intros Hc Hr. apply samples_ok_in_range in Hr.
    destruct (convertToGrayscale_spec G Hs Hr ltac:(auto))
      as (out & Hrun & Hwf & Hwo & Hho & Hco & _).
    rewrite Hrun, bind_Ok. apply convertToGrayscale_few_channels; (done || lia).
Qed.

Lemma convertToGrayscale_needs_three_channels_witness :
  (channels wide < 3 -> convertToGrayscale wide = Fault OutOfRange)
  /\ (channels test_image < 3 -> convertToGrayscale test_image = Fault OutOfRange)
  /\ (3 <= channels test_image -> samples_ok test_image = true ->
      convertToGrayscale test_image ≫= convertToGrayscale = Fault OutOfRange).
Proof.
  split.
  - apply (convertToGrayscale_needs_three_channels wide);
      [reflexivity | simpl; lia ..].
  - apply (convertToGrayscale_needs_three_channels test_image);
      [reflexivity | simpl; lia ..].
Defined.

(** A grey pixel keeps its level or loses one. *)
Lemma gray_value_of_gray (v : Z) :
  0 <= v <= 255 ->
  gray_value v v v = Ok v \/ gray_value v v v = Ok (v - 1).
Proof.
  intros Hv.
  assert (is_Ok_of (gray_value v v v) v || is_Ok_of (gray_value v v v) (v - 1)
          = true) as Hb.
  { apply (range_check
             (fun v => is_Ok_of (gray_value v v v) v
                       || is_Ok_of (gray_value v v v) (v - 1)) 256); [|lia].
    vm_compute. reflexivity. }
  apply orb_true_iff in Hb as [Hb|Hb]; apply is_Ok_of_eq in Hb; auto.
Qed.

(** X11: the weights 0.299, 0.587 and 0.114 add up to 1 only in exact
    arithmetic: a pixel whose three samples are the same [v] gets the
    grey level [v] or [v - 1].  The level 128 becomes 127, the level
    255 stays. *)
Theorem convertToGrayscale_of_gray (G : Image) (y x v : Z) :
  shape_ok G = true -> samples_ok G = true -> 3 <= channels G ->
  pixel G y x 0 = Ok v -> pixel G y x 1 = Ok v -> pixel G y x 2 = Ok v ->
  exists out t,
    convertToGrayscale G = Ok out
    /\ pixel out y x 0 = Ok t /\ v - 1 <= t <= v
    /\ gray_value 128 128 128 = Ok 127
    /\ gray_value 255 255 255 = Ok 255.
Proof.
  intros Hs Hr Hch H0 H1 H2.
  apply shape_ok_wf in Hs. apply samples_ok_in_range in Hr.
  destruct (convertToGrayscale_spec G Hs Hr ltac:(auto))
    as (out & Hrun & _ & _ & _ & _ & _ & Hpix).
  assert (in_box G (y, x, 0)) as Hbox.
  { destruct (decide (in_box G (y, x, 0))) as [|Hout]; [done|].
    rewrite pixel_outside in H0 by done. discriminate. }
  pose proof (pixel_in_range G y x 0 v Hr H0) as Hv.
  assert (pixel out y x 0 = gray_value v v v) as Hq.
  { rewrite Hpix by (unfold in_box in Hbox; lia).
    unfold sample. by rewrite H0, H1, H2. }
  assert (gray_value 128 128 128 = Ok 127 /\ gray_value 255 255 255 = Ok 255)
    as Hfacts by (vm_compute; split; reflexivity).
  destruct (gray_value_of_gray v Hv) as [He|He]; rewrite He in Hq.
  - exists out, v.
    split; [exact Hrun|]. split; [exact Hq|]. split; [lia | exact Hfacts].
  - exists out, (v - 1).
    split; [exact Hrun|]. split; [exact Hq|]. split; [lia | exact Hfacts].
Qed.

Lemma convertToGrayscale_of_gray_witness :
  exists out t,
    convertToGrayscale test_image = Ok out
    /\ pixel out 1 3 0 = Ok t /\ 128 - 1 <= t <= 128
    /\ gray_value 128 128 128 = Ok 127
    /\ gray_value 255 255 255 = Ok 255.
Proof.
  apply (convertToGrayscale_of_gray test_image 1 3 128);
    [reflexivity | reflexivity | simpl; lia | reflexivity ..].
Defined.

(* ================================================================== *)
(** * Further properties of the contrast and of the rotation *)
(* ================================================================== *)

(** X12: on a grid whose width equals its height [adjustContrast]
    returns a well-formed grid of the same sizes whose sample at
    [(y, x, c)] is the contrast of the input sample, a value of
    [0 .. 255] whatever the factor, not-a-number and the infinities
    included. *)
Theorem adjustContrast_square (G : Image) (factor : fp) :
  shape_ok G = true -> width G = height G ->
  exists out,
    adjustContrast G factor = Ok out
    /\ shape_ok out = true /\ same_dims out G
    /\ forall y x c,
         0 <= y < height G -> 0 <= x < width G -> 0 <= c < channels G ->
         exists v t,
           pixel G y x c = Ok v
           /\ contrast_value factor v = Ok t
           /\ pixel out y x c = Ok t /\ 0 <= t <= 255.
Proof.
  intros Hs Hsq. apply shape_ok_wf in Hs.
  destruct (adjustContrast_spec G factor Hs ltac:(auto))
    as (out & Hrun & Hwf & Hd & _ & Hp).
  exists out. split_and!; try done; [by apply shape_ok_wf|].
  intros y x c Hy Hx Hc.
  assert (in_box G (y, x, c)) as Hbox by (unfold in_box; lia).
  destruct (contrast_value_level factor (sample G y x c)) as [Hv Ht].
  exists (sample G y x c), (contrast_level factor (sample G y x c)).
  split; [by apply pixel_sample|]. split; [exact Hv|].
  split; [|exact Ht]. rewrite Hp by done. exact Hv.
Qed.

Lemma adjustContrast_square_witness :
  exists out,
    adjustContrast test_image lit_1_5f = Ok out
    /\ shape_ok out = true /\ same_dims out test_image
    /\ forall y x c,
         0 <= y < height test_image -> 0 <= x < width test_image ->
         0 <= c < channels test_image ->
         exists v t,
           pixel test_image y x c = Ok v
           /\ contrast_value lit_1_5f v = Ok t
           /\ pixel out y x c = Ok t /\ 0 <= t <= 255.
Proof.
  apply (adjustContrast_square test_image lit_1_5f); reflexivity.
Defined.

(** X13: on a well-formed grid that holds a sample, [adjustContrast]
    returns a grid exactly when the width equals the height; on every
    other such grid it makes an out-of-range access, whatever the
    factor. *)
Theorem adjustContrast_returns_iff_square (G : Image) (factor : fp) :
  shape_ok G = true ->
  1 <= width G -> 1 <= height G -> 1 <= channels G ->
  ((exists out, adjustContrast G factor = Ok out) <-> width G = height G)
  /\ (width G <> height G -> adjustContrast G factor = Fault OutOfRange).
Proof.
  intros Hs Hw Hh Hc. split; [split|].
  - intros [out Hrun]. destruct (Z.eq_dec (width G) (height G)) as [|Hne]; [done|].
    rewrite (adjustContrast_not_square G factor Hs Hc Hw Hh Hne) in Hrun.
    discriminate.
  - intros Hsq. apply shape_ok_wf in Hs.
    destruct (adjustContrast_spec G factor Hs ltac:(auto)) as (out & Hrun & _).
    by exists out.
  - intros Hne. by apply adjustContrast_not_square.
Qed.

Lemma adjustContrast_returns_iff_square_witness :
  ((exists out, adjustContrast wide lit_1_5f = Ok out)
   <-> width wide = height wide)
  /\ (width wide <> height wide ->
      adjustContrast wide lit_1_5f = Fault OutOfRange).
Proof.
  apply (adjustContrast_returns_iff_square wide lit_1_5f);
    [reflexivity | simpl; lia ..].
Defined.

Lemma contrast_value_zero (v : Z) :
  0 <= v <= 255 -> contrast_value lit_0f v = Ok 128.
Proof.
  intros Hv. apply is_Ok_of_eq.
  apply (range_check (fun v => is_Ok_of (contrast_value lit_0f v) 128) 256);
    [|lia].
  vm_compute. reflexivity.
Qed.

(** X14: with the factor 0.0 every sample of an 8-bit square image
    becomes the mid level 128. *)
Theorem adjustContrast_zero_factor (G : Image) :
  shape_ok G = true -> samples_ok G = true -> width G = height G ->
  exists out,
    adjustContrast G lit_0f = Ok out
    /\ same_dims out G
    /\ forall y x c,
         0 <= y < height G -> 0 <= x < width G -> 0 <= c < channels G ->
         pixel out y x c = Ok 128.
Proof.
  intros Hs Hr Hsq. apply shape_ok_wf in Hs. apply samples_ok_in_range in Hr.
  destruct (adjustContrast_spec G lit_0f Hs ltac:(auto))
    as (out & Hrun & _ & Hd & _ & Hp).
  exists out. split; [exact Hrun|]. split; [exact Hd|].
  intros y x c Hy Hx Hc. rewrite Hp by (unfold in_box; lia).
  apply contrast_value_zero. by apply sample_in_range.
Qed.

Lemma adjustContrast_zero_factor_witness :
  exists out,
    adjustContrast test_image lit_0f = Ok out
    /\ same_dims out test_image
    /\ forall y x c,
         0 <= y < height test_image -> 0 <= x < width test_image ->
         0 <= c < channels test_image ->
         pixel out y x c = Ok 128.
Proof. apply (adjustContrast_zero_factor test_image); reflexivity. Defined.

(** X15: [rotate90] returns the blank grid whose width is the input's
    height and whose height is the input's width: every sample it holds
    is 0, and two calls give a blank grid of the input's own sizes. *)
Theorem rotate90_returns_blank (G : Image) :
  shape_ok G = true ->
  exists out out2,
    rotate90 G = Ok out
    /\ width out = height G /\ height out = width G
    /\ channels out = channels G /\ maxVal out = 255
    /\ shape_ok out = true /\ all_zero out = true
    /\ rotate90 out = Ok out2
    /\ same_dims out2 G /\ all_zero out2 = true.
Proof.
  intros Hs. pose proof Hs as Hwf. apply shape_ok_wf in Hwf.
  destruct Hwf as (Hw & Hh & Hc & _).
  destruct (Image_ctor_spec _ _ _ Hh Hw Hc) as (out & Hctor & Heq & Hwfo & _).
  assert (width out = height G /\ height out = width G
          /\ channels out = channels G /\ maxVal out = 255)
    as (Hwo & Hho & Hco & Hmo) by (by subst out).
  assert (rotate90 G = Ok out) as Hrun.
  { unfold rotate90, getHeight, getWidth, getChannels. by rewrite Hctor. }
  pose proof Hwfo as Hso. apply shape_ok_wf in Hso.
  destruct (rotate90_blank out Hso) as (out2 & Hrun2 & Hw2 & Hh2 & Hc2 & Hz2).
  exists out, out2. split_and!; try done.
  - by apply (Image_ctor_in_range _ _ _ _ Hctor).
  - unfold same_dims. lia.
Qed.

Lemma rotate90_returns_blank_witness :
  exists out out2,
    rotate90 wide = Ok out
    /\ width out = height wide /\ height out = width wide
    /\ channels out = channels wide /\ maxVal out = 255
    /\ shape_ok out = true /\ all_zero out = true
    /\ rotate90 out = Ok out2
    /\ same_dims out2 wide /\ all_zero out2 = true.
Proof. apply (rotate90_returns_blank wide). reflexivity. Defined.

(* ================================================================== *)
(** * The header of a returned grid *)
(* ================================================================== *)

Lemma pixel_assign_header (m w h ch : Z) (img img' : Image) (y x c v : Z) :
  header_is m w h ch img -> pixel_assign img y x c v = Ok img' ->
  header_is m w h ch img'.
Proof.
  intros Hh Ha. unfold pixel_assign in Ha.
  apply bind_Ok_inv in Ha as (row & _ & Ha).
  apply bind_Ok_inv in Ha as (px & _ & Ha).
  apply bind_Ok_inv in Ha as (px' & _ & Ha).
  apply bind_Ok_inv in Ha as (row' & _ & Ha).
  apply bind_Ok_inv in Ha as (d' & _ & Ha).
  injection Ha as <-. done.
Qed.

Lemma Image_ctor_header (w h ch : Z) (img : Image) :
  Image_ctor w h ch = Ok img -> header_is 255 w h ch img.
Proof.
  unfold Image_ctor. intros Hc.
  apply bind_Ok_inv in Hc as (px & _ & Hc).
  apply bind_Ok_inv in Hc as (row & _ & Hc).
  apply bind_Ok_inv in Hc as (d & _ & Hc).
  injection Hc as <-. done.
Qed.

(** The constructor sets the header, and no pass through a loop body
    changes it. *)
Ltac header_loops Hrun :=
  apply bind_Ok_inv in Hrun as (?out0 & ?Hctor & Hrun);
  apply Image_ctor_header in Hctor;
  revert Hrun;
  first [apply loop3_invariant | apply loop2_invariant]; [|done];
  intros;
  repeat match goal with
  | Hb : _ ≫= _ = Ok _ |- _ =>
      let v := fresh "v" in
      let Hv := fresh "Hv" in
      apply bind_Ok_inv in Hb as (v & Hv & Hb)
  end;
  by eapply pixel_assign_header.

Lemma returned_header_loops (G out : Image) (delta : Z) (factor : fp) :
  flipHorizontal G = Ok out \/ flipVertical G = Ok out
  \/ adjustBrightness G delta = Ok out \/ adjustContrast G factor = Ok out ->
  header_is 255 (width G) (height G) (channels G) out.
Proof.
  intros [Hrun | [Hrun | [Hrun | Hrun]]].
  - unfold flipHorizontal, getWidth, getHeight, getChannels in Hrun.
    header_loops Hrun.
  - unfold flipVertical, getWidth, getHeight, getChannels in Hrun.
    header_loops Hrun.
  - unfold adjustBrightness, getWidth, getHeight, getChannels in Hrun.
    header_loops Hrun.
  - unfold adjustContrast, getWidth, getHeight, getChannels in Hrun.
    header_loops Hrun.
Qed.

(** X16: whatever the input, the grid a transform returns has [maxVal]
    255: the [maxVal] of the input is not carried over.  Its sizes are
    the input's, with one channel from [convertToGrayscale] and with
    width and height exchanged from [rotate90]. *)
Theorem returned_header (G out : Image) (delta : Z) (factor : fp) :
  (flipHorizontal G = Ok out \/ flipVertical G = Ok out
   \/ adjustBrightness G delta = Ok out \/ adjustContrast G factor = Ok out
   \/ applyBlur G = Ok out ->
   maxVal out = 255 /\ same_dims out G)
  /\ (convertToGrayscale G = Ok out ->
      maxVal out = 255 /\ width out = width G /\ height out = height G
      /\ channels out = 1)
  /\ (rotate90 G = Ok out ->
      maxVal out = 255 /\ width out = height G /\ height out = width G
      /\ channels out = channels G).
Proof.
  split; [|split].
  - intros H.
    assert (header_is 255 (width G) (height G) (channels G) out) as Hh; [|done].
    destruct H as [H | [H | [H | [H | H]]]];
      try (apply (returned_header_loops G out delta factor); tauto).
    unfold applyBlur, getWidth, getHeight, getChannels in H.
    apply bind_Ok_inv in H as (out0 & Hctor & [= <-]).
    by apply Image_ctor_header.
  - intros Hrun.
    assert (header_is 255 (width G) (height G) 1 out) as Hh; [|done].
    unfold convertToGrayscale, getWidth, getHeight in Hrun.
    header_loops Hrun.
  - intros Hrun.
    assert (header_is 255 (height G) (width G) (channels G) out) as Hh; [|done].
    unfold rotate90, getWidth, getHeight, getChannels in Hrun.
    apply bind_Ok_inv in Hrun as (out0 & Hctor & [= <-]).
    by apply Image_ctor_header.
Qed.

Lemma returned_header_witness :
  maxVal low = 100
  /\ exists out,
       flipHorizontal low = Ok out /\ maxVal out = 255 /\ same_dims out low.
Proof.
  split; [reflexivity|]. eexists. split; [reflexivity|].
  apply (proj1 (returned_header low _ 0 lit_1f)). left. reflexivity.
Defined.

(* ================================================================== *)
(** * [setChannels] *)
(* ================================================================== *)

Lemma wf_grid_ok (img : Image) : wf img -> grid_ok img.
Proof.
  intros (Hw & Hh & _ & Hlen & Hrows). unfold grid_ok. split_and!; try done.
  eapply Forall_impl; [exact Hrows|]. by intros row [? _].
Qed.

Lemma pixel_vec_inside (img : Image) (y x : Z) :
  grid_ok img -> 0 <= y < height img -> 0 <= x < width img ->
  exists px, pixel_vec img (y, x) = Ok px.
Proof.
  intros (Hw & Hh & Hlen & Hrows) Hy Hx.
  destruct (lookup_lt_is_Some_2 (data img) (Z.to_nat y)) as [row Hrow]; [lia|].
  pose proof (proj1 (Forall_lookup _ _) Hrows _ _ Hrow) as Hlr. cbv beta in Hlr.
  destruct (lookup_lt_is_Some_2 row (Z.to_nat x)) as [px Hpx]; [lia|].
  exists px. unfold pixel_vec. cbn [fst snd].
  rewrite (vec_at_lookup _ y row) by (lia || done). rewrite bind_Ok.
  apply vec_at_lookup; (lia || done).
Qed.

(** Storing a pixel vector inside the grid succeeds, keeps header, rows
    and columns, and changes the one vector it names. *)
Lemma store_vec_spec (img : Image) (y x : Z) (px' : list Z) :
  grid_ok img -> 0 <= y < height img -> 0 <= x < width img ->
  exists img',
    store_vec img (y, x) px' = Ok img'
    /\ grid_ok img'
    /\ header_is (maxVal img) (width img) (height img) (channels img) img'
    /\ forall q, pixel_vec img' q
                 = if decide (q = (y, x)) then Ok px' else pixel_vec img q.
Proof.
  intros (Hw & Hh & Hlen & Hrows) Hy Hx.
  destruct (lookup_lt_is_Some_2 (data img) (Z.to_nat y)) as [row Hrow]; [lia|].
  pose proof (proj1 (Forall_lookup _ _) Hrows _ _ Hrow) as Hlr. cbv beta in Hlr.
  eexists. split.
  { unfold store_vec. cbn [fst snd].
    rewrite (vec_at_lookup _ y row) by (lia || done). rewrite bind_Ok.
    rewrite vec_set_Ok by lia. rewrite bind_Ok.
    rewrite vec_set_Ok by lia. rewrite bind_Ok. reflexivity. }
  split_and!; try done.
  - unfold grid_ok; simpl. split_and!; try done.
    + by rewrite length_insert.
    + apply Forall_insert; [done|]. rewrite length_insert. lia.
  - intros [y' x']. unfold pixel_vec; simpl.
    rewrite vec_at_insert by lia.
    destruct (decide (y' = y)) as [->|Hny]; simpl.
    2:{ rewrite decide_False by congruence. done. }
    rewrite vec_at_insert by lia.
    rewrite (vec_at_lookup _ y row) by (lia || done). simpl.
    destruct (decide (x' = x)) as [->|Hnx].
    + by rewrite decide_True.
    + rewrite decide_False by congruence. done.
Qed.

(** A run that replaces the pixel vector at each index by its image
    under [f], the indices pairwise distinct and inside the grid. *)
Lemma run_alter (f : list Z -> list Z)
    (body : Z * Z -> Image -> result Image) (idxs : list (Z * Z)) :
  NoDup idxs ->
  forall img0,
    grid_ok img0 ->
    (forall p, p ∈ idxs -> 0 <= p.1 < height img0 /\ 0 <= p.2 < width img0) ->
    (forall p img px, p ∈ idxs -> channels img = channels img0 ->
       pixel_vec img p = Ok px -> body p img = store_vec img p (f px)) ->
    exists out,
      run body idxs img0 = Ok out
      /\ grid_ok out
      /\ header_is (maxVal img0) (width img0) (height img0) (channels img0) out
      /\ (forall p px, p ∈ idxs -> pixel_vec img0 p = Ok px ->
            pixel_vec out p = Ok (f px))
      /\ (forall q, q ∉ idxs -> pixel_vec out q = pixel_vec img0 q).
Proof.
  induction idxs as [|p l IH]; intros Hnd img0 Hg Hin Hbody.
  - exists img0. split_and!; try done. intros p px Hp. by apply elem_of_nil in Hp.
  - apply NoDup_cons in Hnd as [Hfresh Hnd].
    destruct p as [y x].
    destruct (Hin (y, x) (list_elem_of_here _ _)) as [Hy Hx]. cbn [fst snd] in *.
    destruct (pixel_vec_inside img0 y x Hg Hy Hx) as [px0 Hpx0].
    destruct (store_vec_spec img0 y x (f px0) Hg Hy Hx)
      as (img1 & Hst & Hg1 & (Hm1 & Hw1 & Hh1 & Hc1) & Hv1).
    simpl. rewrite (Hbody (y, x) img0 px0 (list_elem_of_here _ _) eq_refl Hpx0), Hst.
    rewrite bind_Ok.
    destruct (IH Hnd img1 Hg1) as (out & Hrun & Hgo & Hho & Hdone & Hrest).
    { intros q Hq. rewrite Hw1, Hh1. by apply Hin, list_elem_of_further. }
    { intros q img px Hq Hcq. apply Hbody; [by apply list_elem_of_further|].
      congruence. }
    exists out. split_and!; try done.
    + rewrite Hm1, Hw1, Hh1, Hc1 in Hho. done.
    + intros q px Hq Hpx. apply elem_of_cons in Hq as [->|Hq].
      * rewrite Hrest, Hv1 by done. rewrite decide_True by done. congruence.
      * apply Hdone; [done|]. rewrite Hv1, decide_False; [done|].
        intros ->. done.
    + intros q Hq. apply not_elem_of_cons in Hq as [Hne Hq].
      rewrite Hrest, Hv1 by done. by rewrite decide_False.
Qed.

Lemma resized_length (ch : Z) (px : list Z) :
  0 <= ch -> Z.of_nat (length (resized ch px)) = ch.
Proof.
  intros Hch. unfold resized.
  rewrite length_app, length_take, length_replicate. lia.
Qed.

Lemma resized_lookup (ch c : Z) (px : list Z) :
  0 <= c < ch ->
  vec_at (resized ch px) c
  = if c <? Z.of_nat (length px) then vec_at px c else Ok 0.
Proof.
  intros Hc. unfold resized. destruct (Z.ltb_spec c (Z.of_nat (length px))).
  - destruct (lookup_lt_is_Some_2 px (Z.to_nat c)) as [v Hv]; [lia|].
    rewrite (vec_at_lookup px c v) by (lia || done).
    apply vec_at_lookup; [lia|].
    rewrite lookup_app_l by (rewrite length_take; lia).
    rewrite lookup_take_lt by lia. done.
  - apply vec_at_lookup; [lia|].
    rewrite lookup_app_r by (rewrite length_take; lia).
    apply lookup_replicate_2. rewrite length_take. lia.
Qed.

Lemma pixel_via_vec (img : Image) (y x c : Z) :
  pixel img y x c = pixel_vec img (y, x) ≫= fun px => vec_at px c.
Proof.
  unfold pixel, pixel_vec. cbn [fst snd].
  destruct (vec_at (data img) y); reflexivity.
Qed.

Lemma idx2_empty (n1 n2 : Z) : n1 <= 0 \/ n2 <= 0 -> idx2 n1 n2 = [].
Proof.
  intros Hn. apply elem_of_nil_inv. intros [i j] Hp.
  apply elem_of_idx2 in Hp. lia.
Qed.

Lemma run_ext_inv {I S : Type} (P : S -> Prop)
    (f g : I -> S -> result S) (l : list I) :
  (forall i s s', P s -> g i s = Ok s' -> P s') ->
  (forall i s, P s -> f i s = g i s) ->
  forall s, P s -> run f l s = run g l s.
Proof.
  intros Hkeep Hfg. induction l as [|i l IH]; intros s Hs; simpl; [done|].
  rewrite (Hfg i s Hs). destruct (g i s) as [s'|e] eqn:Hg; [|done].
  rewrite !bind_Ok. apply IH. by apply (Hkeep i s).
Qed.

Lemma resize_pixel_header (m w h ch : Z) (img img' : Image) (y x : Z) :
  header_is m w h ch img -> resize_pixel img y x = Ok img' ->
  header_is m w h ch img'.
Proof.
  intros Hh Ha. unfold resize_pixel in Ha.
  apply bind_Ok_inv in Ha as (row & _ & Ha).
  apply bind_Ok_inv in Ha as (px & _ & Ha).
  apply bind_Ok_inv in Ha as (px' & _ & Ha).
  apply bind_Ok_inv in Ha as (row' & _ & Ha).
  apply bind_Ok_inv in Ha as (d' & _ & Ha).
  injection Ha as <-. done.
Qed.

(** The loops of [setChannels] read [height] and [width] from the
    object they are changing; no pass changes them, so the loops visit
    the pixels of the grid as it was. *)
Lemma setChannels_run (img : Image) (ch : Z) :
  setChannels img ch
  = run (fun p im => resize_pixel im p.1 p.2)
      (idx2 (height img) (width img)) (with_channels img ch).
Proof.
  unfold setChannels. cbv zeta. cbn [with_channels height width].
  rewrite <- (loop2_run _ _ (fun y x im => resize_pixel im y x)).
  rewrite !for_range_run.
  apply (run_ext_inv
           (header_is (maxVal img) (width img) (height img) ch)); [| |done].
  - intros y s s' Hs. rewrite for_range_run.
    apply run_invariant; [|done].
    intros x t t' Ht. by apply resize_pixel_header.
  - intros y s (_ & -> & _). done.
Qed.

(** What [setChannels] computes on a well-formed image, for a count
    that is not negative. *)
Lemma setChannels_spec (img : Image) (ch : Z) :
  wf img -> 0 <= ch ->
  exists out,
    setChannels img ch = Ok out
    /\ wf out
    /\ header_is (maxVal img) (width img) (height img) ch out
    /\ forall y x c,
         0 <= y < height img -> 0 <= x < width img -> 0 <= c < ch ->
         pixel out y x c = if c <? channels img then pixel img y x c else Ok 0.
Proof.
  intros Hwf Hch. pose proof (wf_grid_ok img Hwf) as Hg.
  rewrite setChannels_run.
  destruct (run_alter (resized ch)
    (fun p im => resize_pixel im p.1 p.2)
    (idx2 (height img) (width img)) (NoDup_idx2 _ _) (with_channels img ch))
    as (out & Hrun & Hgo & (Hmo & Hwo & Hho & Hco) & Hdone & _).
  - exact Hg.
  - intros [y x] Hp. by apply elem_of_idx2 in Hp.
  - intros [y x] im px _ Hc Hpx. unfold pixel_vec in Hpx. cbn [fst snd] in *.
    apply bind_Ok_inv in Hpx as (row & Hrow & Hpx).
    unfold store_vec, resize_pixel, vec_resize. cbn [fst snd].
    rewrite Hrow, Hc. cbn [channels with_channels mbind result_bind].
    rewrite Hpx. destruct (Z.ltb_spec ch 0); [lia|]. reflexivity.
  - cbn [with_channels maxVal width height channels] in *.
    assert (forall y x, 0 <= y < height img -> 0 <= x < width img ->
              exists px, pixel_vec img (y, x) = Ok px
                         /\ Z.of_nat (length px) = channels img
                         /\ pixel_vec out (y, x) = Ok (resized ch px)) as Hvec.
    { intros y x Hy Hx.
      destruct (pixel_vec_inside img y x Hg Hy Hx) as [px Hpx].
      exists px. split; [done|]. split.
      - unfold pixel_vec in Hpx. cbn [fst snd] in Hpx.
        apply bind_Ok_inv in Hpx as (row & Hrow & Hpx).
        apply vec_at_Ok in Hrow as [_ Hrow]. apply vec_at_Ok in Hpx as [_ Hpx].
        destruct Hwf as (_ & _ & _ & _ & Hrows).
        pose proof (proj1 (Forall_lookup _ _) Hrows _ _ Hrow) as [_ Hpxs].
        apply (proj1 (Forall_lookup _ _) Hpxs _ _ Hpx).
      - apply Hdone; [apply elem_of_idx2; lia | exact Hpx]. }
    exists out. split; [exact Hrun|]. split; [|split; [done|]].
    + destruct Hgo as (Hw & Hh & Hlen & Hrows).
      unfold wf. rewrite Hwo, Hho, Hco in *. split_and!; try done.
      apply Forall_lookup. intros i row Hrow.
      pose proof (proj1 (Forall_lookup _ _) Hrows _ _ Hrow) as Hlr.
      cbv beta in Hlr. split; [done|].
      apply Forall_lookup. intros j px Hpx.
      apply lookup_lt_Some in Hrow as Hi. apply lookup_lt_Some in Hpx as Hj.
      destruct (Hvec (Z.of_nat i) (Z.of_nat j)) as (px0 & _ & _ & Ho); [lia..|].
      unfold pixel_vec in Ho. cbn [fst snd] in Ho.
      rewrite (vec_at_lookup _ _ row) in Ho by (lia || by rewrite Nat2Z.id).
      rewrite bind_Ok in Ho.
      rewrite (vec_at_lookup _ _ px) in Ho by (lia || by rewrite Nat2Z.id).
      injection Ho as ->. by apply resized_length.
    + intros y x c Hy Hx Hc.
      destruct (Hvec y x Hy Hx) as (px & Hpx & Hlen & Ho).
      rewrite !pixel_via_vec, Ho, Hpx, !bind_Ok.
      rewrite resized_lookup by done. by rewrite Hlen.
Qed.

(** X17: [setChannels(ch)] with [ch >= 0] keeps width, height and
    [maxVal], sets the channel count to [ch] and leaves a well-formed
    grid: the samples of the channels that remain are kept, those of
    the new channels are 0. *)
Theorem setChannels_resizes (img : Image) (ch : Z) :
  shape_ok img = true -> 0 <= ch ->
  exists out,
    setChannels img ch = Ok out
    /\ shape_ok out = true
    /\ width out = width img /\ height out = height img
    /\ maxVal out = maxVal img /\ channels out = ch
    /\ forall y x c,
         0 <= y < height img -> 0 <= x < width img -> 0 <= c < ch ->
         pixel out y x c = if c <? channels img then pixel img y x c else Ok 0.
Proof.
  intros Hs Hch. apply shape_ok_wf in Hs.
  destruct (setChannels_spec img ch Hs Hch)
    as (out & Hrun & Hwf & (Hm & Hw & Hh & Hc) & Hpix).
  exists out. split_and!; try done. by apply shape_ok_wf.
Qed.

Lemma setChannels_resizes_witness :
  exists out,
    setChannels wide 3 = Ok out
    /\ shape_ok out = true
    /\ width out = width wide /\ height out = height wide
    /\ maxVal out = maxVal wide /\ channels out = 3
    /\ forall y x c,
         0 <= y < height wide -> 0 <= x < width wide -> 0 <= c < 3 ->
         pixel out y x c = if c <? channels wide then pixel wide y x c else Ok 0.
Proof. apply (setChannels_resizes wide 3); [reflexivity | lia]. Defined.

Lemma run_first_fault {I S : Type} (e : fault)
    (body : I -> S -> result S) (i : I) (l : list I) (s : S) :
  body i s = Fault e -> run body (i :: l) s = Fault e.
Proof. intros Hb. simpl. by rewrite Hb. Qed.

(** X18: [setChannels] with a negative count raises the vector's
    length error at the first pixel; on a grid with no pixel nothing is
    resized and the call returns, the negative count stored. *)
Theorem setChannels_negative (img : Image) (ch : Z) :
  shape_ok img = true -> ch < 0 ->
  (1 <= width img -> 1 <= height img ->
   setChannels img ch = Fault LengthError)
  /\ (width img = 0 \/ height img = 0 ->
      setChannels img ch = Ok (with_channels img ch)).
Proof.
  intros Hs Hch. apply shape_ok_wf in Hs. pose proof (wf_grid_ok img Hs) as Hg.
  rewrite setChannels_run. split.
  - intros Hw Hh.
    assert ((0, 0) ∈ idx2 (height img) (width img)) as Hin
      by (apply elem_of_idx2; lia).
    destruct (idx2 (height img) (width img)) as [|[y x] l] eqn:Hidx.
    { by apply elem_of_nil in Hin. }
    assert (0 <= y < height img /\ 0 <= x < width img) as [Hy Hx].
    { apply elem_of_idx2. rewrite Hidx. apply list_elem_of_here. }
    apply run_first_fault. cbn [fst snd].
    destruct (pixel_vec_inside (with_channels img ch) y x) as [px Hpx];
      [done..|].
    unfold pixel_vec in Hpx. cbn [fst snd] in Hpx.
    apply bind_Ok_inv in Hpx as (row & Hrow & Hpx).
    unfold resize_pixel, vec_resize.
    rewrite Hrow. cbn [mbind result_bind channels with_channels]. rewrite Hpx.
    destruct (Z.ltb_spec ch 0); [reflexivity | lia].
  - intros Hz. rewrite idx2_empty by lia. reflexivity.
Qed.

Lemma setChannels_negative_witness :
  (1 <= width wide -> 1 <= height wide ->
   setChannels wide (-1) = Fault LengthError)
  /\ (width no_columns = 0 \/ height no_columns = 0 ->
      setChannels no_columns (-1) = Ok (with_channels no_columns (-1))).
Proof.
  split.
  - apply (setChannels_negative wide (-1)); [reflexivity | lia].
  - apply (setChannels_negative no_columns (-1)); [reflexivity | lia].
Defined.

(** X19: adding channels and going back to the former count gives the
    image back; the samples of the added channels are the only ones
    dropped. *)
Theorem setChannels_grow_then_shrink (img : Image) (ch : Z) :
  shape_ok img = true -> channels img <= ch ->
  setChannels img ch ≫= (fun wider => setChannels wider (channels img))
  = Ok img.
Proof.
  intros Hs Hch. apply shape_ok_wf in Hs. pose proof Hs as (_ & _ & Hc0 & _).
  destruct (setChannels_spec img ch Hs ltac:(lia))
    as (out1 & Hrun1 & Hwf1 & (Hm1 & Hw1 & Hh1 & Hc1) & Hpix1).
  destruct (setChannels_spec out1 (channels img) Hwf1 Hc0)
    as (out2 & Hrun2 & Hwf2 & (Hm2 & Hw2 & Hh2 & Hc2) & Hpix2).
  rewrite Hrun1, bind_Ok, Hrun2. f_equal.
  apply image_ext; try done.
  - unfold same_dims. lia.
  - congruence.
  - intros y x c (Hy & Hx & Hc).
    rewrite Hpix2 by lia. rewrite Hc1.
    destruct (Z.ltb_spec c ch); [|lia].
    rewrite Hpix1 by lia.
    destruct (Z.ltb_spec c (channels img)); [done | lia].
Qed.

Lemma setChannels_grow_then_shrink_witness :
  setChannels test_image 5 ≫= (fun wider => setChannels wider (channels test_image))
  = Ok test_image.
Proof. apply (setChannels_grow_then_shrink test_image 5); [reflexivity | simpl; lia]. Defined.

(** Going the other way loses the samples of the channels dropped. *)
Lemma setChannels_shrink_then_grow :
  setChannels test_image 1 ≫= (fun narrow => setChannels narrow 3)
  <> Ok test_image.
Proof. vm_compute. discriminate. Qed.

(* ================================================================== *)
(** * Writing and reading integers *)
(* ================================================================== *)

Lemma code_digit_char (d : Z) : 0 <= d <= 9 -> code (digit_char d) = 48 + d.
Proof.
  intros Hd. unfold code, digit_char.
  rewrite N_ascii_embedding by lia. lia.
Qed.

Lemma is_digit_digit_char (d : Z) : 0 <= d <= 9 -> is_digit (digit_char d) = true.
Proof.
  intros Hd. unfold is_digit. rewrite code_digit_char by done.
  apply andb_true_iff. rewrite !Z.leb_le. lia.
Qed.

Lemma horner_app (l1 l2 : text) (a : Z) :
  horner (l1 ++ l2) a = horner l2 (horner l1 a).
Proof. unfold horner. apply fold_left_app. Qed.

(** With enough fuel the digits written are digits, at least one, and
    their value is the number. *)
Lemma show_digits_S (fuel : nat) (n : Z) (acc : text) :
  show_digits (Datatypes.S fuel) n acc
  = if n <? 10 then digit_char (n mod 10) :: acc
    else show_digits fuel (n / 10) (digit_char (n mod 10) :: acc).
Proof. reflexivity. Qed.

Lemma show_digits_spec (fuel : nat) :
  forall n acc,
    0 <= n < 10 ^ Z.of_nat (Datatypes.S fuel) ->
    exists l,
      show_digits (Datatypes.S fuel) n acc = l ++ acc
      /\ l <> []
      /\ Forall (fun c => is_digit c = true) l
      /\ forall a, horner l a = a * 10 ^ Z.of_nat (length l) + n.
Proof.
  induction fuel as [|fuel IH]; intros n acc Hn.
  - change (10 ^ Z.of_nat 1) with 10 in Hn.
    exists [digit_char n]. simpl.
    destruct (Z.ltb_spec n 10); [|lia].
    rewrite Z.mod_small by lia. split_and!; try done.
    + constructor; [|constructor]. apply is_digit_digit_char. lia.
    + intros a. unfold horner. simpl. rewrite code_digit_char by lia.
      change (Z.pos (Pos.of_succ_nat 0)) with 1. lia.
  - rewrite show_digits_S. destruct (Z.ltb_spec n 10) as [Hlt|Hge].
    + exists [digit_char n]. rewrite Z.mod_small by lia. split_and!; try done.
      * constructor; [|constructor]. apply is_digit_digit_char. lia.
      * intros a. unfold horner. simpl. rewrite code_digit_char by lia.
        change (Z.pos (Pos.of_succ_nat 0)) with 1. lia.
    + assert (0 <= n mod 10 < 10) as Hm by (apply Z.mod_pos_bound; lia).
      destruct (IH (n / 10) (digit_char (n mod 10) :: acc))
        as (l & Hl & Hne & Hd & Hv).
      { split; [apply Z.div_pos; lia|].
        apply Z.div_lt_upper_bound; [lia|].
        replace (Z.of_nat (Datatypes.S (Datatypes.S fuel)))
          with (1 + Z.of_nat (Datatypes.S fuel)) in Hn by lia.
        rewrite Z.pow_add_r in Hn by lia. lia. }
      exists (l ++ [digit_char (n mod 10)]). split_and!.
      * rewrite Hl, <- app_assoc. done.
      * by destruct l.
      * apply Forall_app. split; [done|].
        constructor; [|constructor]. apply is_digit_digit_char. lia.
      * intros a. rewrite horner_app, Hv. unfold horner. simpl.
        rewrite code_digit_char by lia. rewrite length_app. simpl.
        replace (Z.of_nat (length l + 1)) with (Z.of_nat (length l) + 1) by lia.
        rewrite Z.pow_add_r by lia.
        pose proof (Z.div_mod n 10 ltac:(lia)). lia.
Qed.

Lemma show_nat_spec (n : Z) :
  0 <= n ->
  show_nat n <> []
  /\ Forall (fun c => is_digit c = true) (show_nat n)
  /\ horner (show_nat n) 0 = n.
Proof.
  intros Hn. unfold show_nat.
  destruct (show_digits_spec (Z.to_nat (Z.log2 n)) n []) as (l & Hl & Hne & Hd & Hv).
  - split; [done|].
    destruct (Z.eq_dec n 0) as [->|Hnz]; [by vm_compute|].
    pose proof (Z.log2_spec n ltac:(lia)) as [_ Hup].
    pose proof (Z.log2_nonneg n).
    replace (Z.of_nat (Datatypes.S (Z.to_nat (Z.log2 n))))
      with (Z.succ (Z.log2 n)) by lia.
    eapply Z.lt_le_trans; [exact Hup|].
    apply Z.pow_le_mono_l. lia.
  - rewrite Hl, app_nil_r. split_and!; try done; rewrite Hv; lia.
Qed.

Lemma read_digits_app (l s : text) (a : Z) :
  Forall (fun c => is_digit c = true) l -> no_digit_ahead s ->
  read_digits (l ++ s) a = (horner l a, s).
Proof.
  intros Hl Hs. revert a. induction Hl as [|c l Hc Hl IH]; intros a.
  - simpl. destruct s as [|c s]; [done|]. simpl in *. by rewrite Hs.
  - simpl. rewrite Hc. apply IH.
Qed.

Lemma skip_space_app (ws s : text) :
  Forall (fun c => is_space c = true) ws ->
  skip_space (ws ++ s) = skip_space s.
Proof. induction 1 as [|c ws Hc _ IH]; simpl; [done|]. by rewrite Hc. Qed.

Lemma digit_facts (c : ascii) :
  is_digit c = true ->
  is_space c = false /\ Ascii.eqb c "-" = false /\ Ascii.eqb c "+" = false.
Proof.
  unfold is_digit, is_space. rewrite andb_true_iff, !Z.leb_le. intros Hc.
  split_and!.
  - apply orb_false_iff. split; [apply Z.eqb_neq; lia|].
    apply andb_false_iff. right. apply Z.leb_gt. lia.
  - apply Ascii.eqb_neq. intros ->. change (code "-") with 45 in Hc. lia.
  - apply Ascii.eqb_neq. intros ->. change (code "+") with 43 in Hc. lia.
Qed.

(** Reading back an [int] that was written, after any white space and
    before anything but a digit, gives the [int] and leaves the stream
    in good state just behind it. *)
Lemma read_int_show_int (v old : Z) (ws s : text) :
  INT_MIN <= v <= INT_MAX ->
  Forall (fun c => is_space c = true) ws -> no_digit_ahead s ->
  read_int {| rest := ws ++ show_int v ++ s; failed := false |} old
  = (v, {| rest := s; failed := false |}).
Proof.
  intros Hv Hws Hs. unfold read_int. cbn [failed rest].
  rewrite skip_space_app by done. unfold show_int.
  destruct (Z.ltb_spec v 0) as [Hneg|Hpos].
  - destruct (show_nat_spec (- v) ltac:(lia)) as (Hne & Hd & Hval).
    cbn [app skip_space]. change (is_space "-") with false. cbv iota.
    change (Ascii.eqb "-" "-") with true. cbv iota.
    destruct (show_nat (- v)) as [|d l] eqn:Hshow; [done|].
    cbn [app]. rewrite (Forall_inv Hd).
    change (d :: l ++ s) with ((d :: l) ++ s).
    rewrite read_digits_app, Hval by done.
    replace (- - v) with v by lia.
    destruct (Z.ltb_spec INT_MAX v); [lia|].
    destruct (Z.ltb_spec v INT_MIN); [lia|]. done.
  - destruct (show_nat_spec v Hpos) as (Hne & Hd & Hval).
    destruct (show_nat v) as [|d l] eqn:Hshow; [done|].
    destruct (digit_facts d (Forall_inv Hd)) as (Hsp & Hm & Hp).
    cbn [app skip_space]. rewrite Hsp, Hm, Hp, (Forall_inv Hd).
    change (d :: l ++ s) with ((d :: l) ++ s).
    rewrite read_digits_app, Hval by done.
    destruct (Z.ltb_spec INT_MAX v); [lia|].
    destruct (Z.ltb_spec v INT_MIN); [lia|]. done.
Qed.

Lemma space_no_digit (c : ascii) : is_space c = true -> is_digit c = false.
Proof.
  intros Hc. destruct (is_digit c) eqn:Hd; [|done].
  destruct (digit_facts c Hd) as [Hs _]. congruence.
Qed.

Lemma reads_app (vs1 vs2 : list Z) (s s1 s2 : text) :
  reads vs1 s s1 -> reads vs2 s1 s2 -> reads (vs1 ++ vs2) s s2.
Proof.
  induction 1 as [|v vs ws t t' Hws Hn Hv _ IH]; intros H2; [done|].
  simpl. constructor; auto.
Qed.

Lemma spells_space (ws0 : text) :
  Forall (fun c => is_space c = true) ws0 -> spells [] ws0.
Proof.
  intros H0 ws tail Hws. exists (ws ++ ws0). split.
  - by apply Forall_app.
  - rewrite <- app_assoc. constructor.
Qed.

Lemma spells_app (vs1 vs2 : list Z) (t1 t2 : text) :
  spells vs1 t1 -> spells vs2 t2 -> spells (vs1 ++ vs2) (t1 ++ t2).
Proof.
  intros H1 H2 ws tail Hws.
  destruct (H1 ws (t2 ++ tail) Hws) as (ws1 & Hws1 & Hr1).
  destruct (H2 ws1 tail Hws1) as (ws2 & Hws2 & Hr2).
  exists ws2. split; [done|]. rewrite <- app_assoc.
  eapply reads_app; eauto.
Qed.

Lemma spells_int (v : Z) (c : ascii) :
  INT_MIN <= v <= INT_MAX -> is_space c = true ->
  spells [v] (show_int v ++ [c]).
Proof.
  intros Hv Hc ws tail Hws. exists [c]. split; [by constructor|].
  rewrite <- app_assoc. constructor; try done.
  - simpl. by apply space_no_digit.
  - constructor.
Qed.

Lemma spells_bind {I : Type} (vs : I -> list Z) (piece : I -> text) (l : list I) :
  (forall i, i ∈ l -> spells (vs i) (piece i)) ->
  spells (l ≫= vs) (l ≫= piece).
Proof.
  induction l as [|i l IH]; intros H.
  - apply (spells_space []). constructor.
  - rewrite !bind_cons. apply spells_app.
    + apply H. left.
    + apply IH. intros j Hj. apply H. by right.
Qed.

Lemma run_append {I : Type} (body : I -> text -> result text)
    (piece : I -> text) (l : list I) :
  (forall i f, i ∈ l -> body i f = Ok (f ++ piece i)) ->
  forall f, run body l f = Ok (f ++ l ≫= piece).
Proof.
  induction l as [|i l IH]; intros H f.
  - simpl. by rewrite app_nil_r.
  - cbn [run]. rewrite H by left. rewrite bind_Ok, IH.
    + by rewrite bind_cons, app_assoc.
    + intros j g Hj. apply H. by right.
Qed.

Lemma fmap_idx3 {A : Type} (val : Z * Z * Z -> A) (n1 n2 n3 : Z) :
  val <$> idx3 n1 n2 n3
  = seqZ 0 n1 ≫= (fun y => seqZ 0 n2 ≫= (fun x =>
      (fun c => val (y, x, c)) <$> seqZ 0 n3)).
Proof.
  unfold idx3, idx2.
  generalize (seqZ 0 n1) as l1, (seqZ 0 n2) as l2, (seqZ 0 n3) as l3.
  intros l1 l2 l3. induction l1 as [|y l1 IH]; [done|].
  rewrite !bind_cons, bind_app, fmap_app, IH. f_equal.
  clear IH. induction l2 as [|x l2 IH]; [done|].
  rewrite fmap_cons, !bind_cons, fmap_app, IH. f_equal.
  by rewrite <- list_fmap_compose.
Qed.

(* ================================================================== *)
(** * [savePPM] and [loadPPM]: writing an image and reading it back *)
(* ================================================================== *)

Lemma seqZ_0_3 : seqZ 0 3 = [0; 1; 2].
Proof. reflexivity. Qed.

(** On a grid of one channel, or of three or more, [savePPM] reads only
    inside the grid and writes the text in closed form. *)
Lemma savePPM_text (img : Image) :
  wf img -> channels img = 1 \/ 3 <= channels img ->
  savePPM img true = Ok (true, ppm_text img).
Proof.
  intros Hwf Hch. unfold savePPM. cbn [negb]. cbv zeta.
  rewrite for_range_run, (run_append _ (ppm_row img)).
  - rewrite bind_Ok. unfold ppm_text, ppm_body.
    by rewrite <- !app_assoc.
  - intros y f Hy. apply elem_of_seqZ in Hy.
    rewrite for_range_run, (run_append _ (ppm_pixel img y)).
    + rewrite bind_Ok. unfold ppm_row. by rewrite app_assoc.
    + intros x g Hx. apply elem_of_seqZ in Hx.
      unfold ppm_pixel, saved_sample. rewrite seqZ_0_3.
      destruct (Z.eqb_spec (channels img) 1) as [H1|H1].
      * rewrite (pixel_sample img y x 0) by (done || (unfold in_box; lia)).
        rewrite bind_Ok. cbn [mbind list_bind app fst snd].
        by rewrite <- !app_assoc.
      * rewrite for_range_run, seqZ_0_3. cbn [run].
        rewrite (pixel_sample img y x 0) by (done || (unfold in_box; lia)).
        rewrite bind_Ok. cbv beta.
        rewrite (pixel_sample img y x 1) by (done || (unfold in_box; lia)).
        rewrite bind_Ok. cbv beta.
        rewrite (pixel_sample img y x 2) by (done || (unfold in_box; lia)).
        rewrite !bind_Ok. cbn [mbind list_bind app fst snd].
        by rewrite <- !app_assoc.
Qed.

Lemma load_sample_header (m w h ch : Z) (y x c : Z) (s s' : istream * Image) :
  header_is m w h ch s.2 -> load_sample y x c s = Ok s' ->
  header_is m w h ch s'.2.
Proof.
  intros Hh Hl. unfold load_sample in Hl.
  apply bind_Ok_inv in Hl as (old & _ & Hl).
  destruct (read_int s.1 old) as [v file].
  apply bind_Ok_inv in Hl as (img' & Ha & Hl).
  injection Hl as <-. cbn [snd].
  by apply (pixel_assign_header _ _ _ _ s.2 _ y x c v).
Qed.

(** The loops of [loadPPM] read their bounds from the object they fill;
    no pass changes them, so the loops visit the samples of the grid
    that was sized from the header. *)
Lemma loadPPM_loops (file : istream) (img : Image) :
  for_range (height img) (fun y s =>
    for_range (width s.2) (fun x s =>
      for_range (channels s.2) (fun c s => load_sample y x c s) s) s)
    (file, img)
  = run load_at (idx3 (height img) (width img) (channels img)) (file, img).
Proof.
  unfold load_at.
  rewrite <- (loop3_run _ _ _ (fun y x c s => load_sample y x c s)).
  rewrite !for_range_run.
  set (P := fun s : istream * Image =>
              header_is (maxVal img) (width img) (height img) (channels img) s.2).
  assert (forall y x s s', P s ->
            for_range (channels img) (fun c v => load_sample y x c v) s = Ok s' ->
            P s') as Hinner.
  { intros y x s s' Hs. rewrite for_range_run.
    apply run_invariant; [|done].
    intros c t t' Ht. by apply load_sample_header. }
  assert (forall y s s', P s ->
            for_range (width img) (fun x u =>
              for_range (channels img) (fun c v => load_sample y x c v) u) s = Ok s' ->
            P s') as Hmid.
  { intros y s s' Hs. rewrite for_range_run.
    apply run_invariant; [|done].
    intros x t t' Ht. by apply Hinner. }
  apply (run_ext_inv P); [done| |done].
  intros y s Hs. pose proof Hs as (_ & -> & _).
  rewrite !for_range_run. apply (run_ext_inv P); [by intros; eapply Hinner| |done].
  intros x t (_ & _ & _ & ->). done.
Qed.

Lemma load_at_step (file file' : istream) (img img' : Image) (y x c old v : Z) :
  pixel img y x c = Ok old -> read_int file old = (v, file') ->
  pixel_assign img y x c v = Ok img' ->
  load_at (y, x, c) (file, img) = Ok (file', img').
Proof.
  intros Hold Hread Ha. unfold load_at, load_sample. cbn [fst snd].
  by rewrite Hold, bind_Ok, Hread, Ha.
Qed.

(** While the text holds the integers the loop asks for, each sample
    gets its integer and the stream stays in good state. *)
Lemma load_run (val : Z * Z * Z -> Z) (idxs : list (Z * Z * Z)) :
  NoDup idxs ->
  forall t t' img0,
    wf img0 ->
    (forall p, p ∈ idxs -> in_box img0 p) ->
    reads (val <$> idxs) t t' ->
    exists out,
      run load_at idxs ({| rest := t; failed := false |}, img0)
      = Ok ({| rest := t'; failed := false |}, out)
      /\ wf out /\ same_dims out img0 /\ maxVal out = maxVal img0
      /\ (forall p, p ∈ idxs -> pixel_at out p = Ok (val p))
      /\ (forall q, q ∉ idxs -> pixel_at out q = pixel_at img0 q).
Proof.
  induction idxs as [|p l IH]; intros Hnd t t' img0 Hwf Hbox Hr.
  - inversion Hr; subst. exists img0. split_and!; try done.
    intros p Hp. by apply elem_of_nil in Hp.
  - apply NoDup_cons in Hnd as [Hfresh Hnd].
    rewrite fmap_cons in Hr. inversion Hr as [|v vs ws s1 s' Hws Hno Hv Hrest]; subst.
    pose proof (Hbox p (list_elem_of_here _ _)) as Hbp.
    destruct p as [[y x] c].
    destruct (pixel_in_box img0 y x c Hwf Hbp) as (old & Hold).
    destruct (pixel_assign_spec img0 y x c (val (y, x, c)) Hwf Hbp)
      as (img1 & Ha & Hwf1 & Hdims1 & Hmax1 & Hpix1).
    cbn [run].
    rewrite (load_at_step _ _ _ _ _ _ _ _ _ Hold
               (read_int_show_int _ old _ _ Hv Hws Hno) Ha), bind_Ok.
    destruct (IH Hnd s1 t' img1 Hwf1) as (out & Hrun & Hwfo & Hdims & Hmax & Hin & Hout);
      [|done|].
    { intros q Hq. apply (in_box_same_dims img0).
      - by apply same_dims_sym.
      - by apply Hbox, list_elem_of_further. }
    exists out. split_and!; try done.
    + by apply (same_dims_trans _ img1).
    + congruence.
    + intros q Hq. apply elem_of_cons in Hq as [->|Hq]; [|by apply Hin].
      rewrite Hout by done. rewrite Hpix1. by rewrite decide_True.
    + intros q Hq. apply not_elem_of_cons in Hq as [Hne Hq].
      rewrite Hout by done. rewrite Hpix1. by rewrite decide_False.
Qed.

Lemma int_ok_spec (z : Z) : int_ok z = true <-> INT_MIN <= z <= INT_MAX.
Proof. unfold int_ok. rewrite andb_true_iff, !Z.leb_le. done. Qed.

Lemma ints_ok_spec (img : Image) :
  ints_ok img = true <->
  (INT_MIN <= width img <= INT_MAX) /\ (INT_MIN <= height img <= INT_MAX)
  /\ (INT_MIN <= maxVal img <= INT_MAX)
  /\ Forall (Forall (Forall (fun v => INT_MIN <= v <= INT_MAX))) (data img).
Proof.
  unfold ints_ok. rewrite !andb_true_iff, !int_ok_spec.
  rewrite (forallb_Forall _ (Forall (Forall (fun v => INT_MIN <= v <= INT_MAX)))).
  - tauto.
  - intros row. apply forallb_Forall. intros px.
    apply forallb_Forall. intros v. apply int_ok_spec.
Qed.

Lemma sample_int (img : Image) (y x c : Z) :
  ints_ok img = true -> INT_MIN <= sample img y x c <= INT_MAX.
Proof.
  intros Hi. apply ints_ok_spec in Hi as (_ & _ & _ & Hr).
  unfold sample. destruct (pixel img y x c) as [v|] eqn:Hp;
    [|unfold INT_MIN, INT_MAX; lia].
  unfold pixel in Hp.
  apply bind_Ok_inv in Hp as (row & Hrow & Hp).
  apply bind_Ok_inv in Hp as (px & Hpx & Hv).
  apply vec_at_Ok in Hrow as [_ Hrow].
  apply vec_at_Ok in Hpx as [_ Hpx].
  apply vec_at_Ok in Hv as [_ Hv].
  pose proof (proj1 (Forall_lookup _ _) Hr _ _ Hrow) as Hr1.
  pose proof (proj1 (Forall_lookup _ _) Hr1 _ _ Hpx) as Hr2.
  apply (proj1 (Forall_lookup _ _) Hr2 _ _ Hv).
Qed.

Lemma saved_sample_int (img : Image) (p : Z * Z * Z) :
  ints_ok img = true -> INT_MIN <= saved_sample img p <= INT_MAX.
Proof.
  intros Hi. unfold saved_sample.
  destruct (channels img =? 1); by apply sample_int.
Qed.

Lemma read_word_P3 (t : text) :
  space_ahead t ->
  read_word {| rest := "P"%char :: "3"%char :: t; failed := false |}
  = (["P"%char; "3"%char], {| rest := t; failed := false |}).
Proof.
  intros Ht. unfold read_word. cbn [failed rest skip_space].
  change (is_space "P") with false. cbv iota. cbn [read_chars].
  change (is_space "P") with false. change (is_space "3") with false. cbv iota.
  destruct t as [|c t]; [done|]. cbn [read_chars]. simpl in Ht. by rewrite Ht.
Qed.

(** After the magic number and three integers, [loadPPM] sizes the grid
    from them and runs its loops over the rest of the file. *)
Lemma loadPPM_header (start : Image) (w h m : Z) (t0 t : text) :
  space_ahead t0 -> reads [w; h; m] t0 t ->
  loadPPM start (Some ("P"%char :: "3"%char :: t0))
  = (px ← vec_make 3 0;
     row ← vec_make w px;
     d ← vec_resize (data start) h row;
     s ← run load_at (idx3 h w 3)
           ({| rest := t; failed := false |},
            {| width := w; height := h; maxVal := m; channels := 3; data := d |});
     Ok (true, s.2)).
Proof.
  intros Ht0 Hr.
  inversion Hr as [|w' vs1 ws1 s1 s1' Hws1 Hno1 Hw Hr1]; subst.
  inversion Hr1 as [|h' vs2 ws2 s2 s2' Hws2 Hno2 Hh Hr2]; subst.
  inversion Hr2 as [|m' vs3 ws3 s3 s3' Hws3 Hno3 Hm Hr3]; subst.
  inversion Hr3; subst.
  unfold loadPPM. rewrite read_word_P3 by done.
  cbn [is_P3 negb]. change (Ascii.eqb "P" "P" && Ascii.eqb "3" "3") with true.
  cbn [negb]. rewrite !read_int_show_int by done.
  destruct (vec_make 3 0) as [px|e]; [|done]. rewrite !bind_Ok.
  destruct (vec_make w px) as [row|e]; [|done]. rewrite !bind_Ok.
  destruct (vec_resize (data start) h row) as [d|e]; [|done]. rewrite !bind_Ok.
  cbv zeta.
  by rewrite (loadPPM_loops _
    {| width := w; height := h; maxVal := m; channels := 3; data := d |}).
Qed.

Lemma ppm_body_spells (img : Image) :
  ints_ok img = true ->
  spells (saved_sample img <$> idx3 (height img) (width img) 3) (ppm_body img).
Proof.
  intros Hi. rewrite fmap_idx3. unfold ppm_body.
  apply spells_bind. intros y _. unfold ppm_row.
  rewrite <- (app_nil_r (_ ≫= _)) at 1.
  apply spells_app; [|apply spells_space; by repeat constructor].
  apply spells_bind. intros x _. unfold ppm_pixel.
  rewrite seqZ_0_3. cbn [fmap list_fmap mbind list_bind].
  rewrite app_nil_r.
  apply (spells_app [_] [_; _]); [by apply spells_int; [apply saved_sample_int|]|].
  apply (spells_app [_] [_]); by apply spells_int; [apply saved_sample_int|].
Qed.

Lemma ppm_text_reads (img : Image) :
  ints_ok img = true ->
  exists t0 t1 ws,
    ppm_text img = "P"%char :: "3"%char :: t0
    /\ space_ahead t0
    /\ reads [width img; height img; maxVal img] t0 t1
    /\ reads (saved_sample img <$> idx3 (height img) (width img) 3) t1 ws.
Proof.
  intros Hi. pose proof Hi as (Hw & Hh & Hm & _)%ints_ok_spec.
  destruct (ppm_body_spells img Hi [nl] []) as (ws & Hws & Hr);
    [by repeat constructor|].
  rewrite !app_nil_r in Hr.
  eexists _, (nl :: ppm_body img), ws. split_and!; [reflexivity|done| |done].
  cbn [app].
  apply (reads_cons _ _ [nl]); [by repeat constructor|done|done|].
  apply (reads_cons _ _ [sp]); [by repeat constructor|done|done|].
  apply (reads_cons _ _ [nl]); [by repeat constructor|done|done|constructor].
Qed.

(** The grid [loadPPM] sizes in an image that holds no rows yet. *)
Lemma loadPPM_grid (w h m : Z) :
  0 <= w -> 0 <= h ->
  exists d,
    (forall (B : Type) (k : list (list (list Z)) -> result B),
       (px ← vec_make 3 0; row ← vec_make w px; d ← vec_resize [] h row; k d)
       = k d)
    /\ wf {| width := w; height := h; maxVal := m; channels := 3; data := d |}
    /\ forall q,
         in_box {| width := w; height := h; maxVal := m; channels := 3; data := d |} q ->
         pixel_at {| width := w; height := h; maxVal := m; channels := 3; data := d |} q
         = Ok 0.
Proof.
  intros Hw Hh.
  exists (replicate (Z.to_nat h) (replicate (Z.to_nat w) [0; 0; 0])). split_and!.
  - intros B k. unfold vec_make, vec_resize. cbn [Z.ltb Z.compare].
    rewrite bind_Ok.
    destruct (Z.ltb_spec w 0); [lia|]. rewrite bind_Ok.
    destruct (Z.ltb_spec h 0); [lia|].
    rewrite take_nil. cbn [app length]. by rewrite Nat.sub_0_r, bind_Ok.
  - unfold wf; cbn [width height channels data]. split_and!; try done.
    + rewrite length_replicate. lia.
    + apply Forall_replicate. split; [rewrite length_replicate; lia|].
      by apply Forall_replicate.
  - intros [[y x] c] (Hy & Hx & Hc). cbn [width height channels] in *.
    unfold pixel_at, pixel. cbn [data].
    rewrite (vec_at_lookup _ y (replicate (Z.to_nat w) [0; 0; 0]));
      [|lia|apply lookup_replicate_2; lia].
    rewrite bind_Ok.
    rewrite (vec_at_lookup _ x [0; 0; 0]); [|lia|apply lookup_replicate_2; lia].
    rewrite bind_Ok.
    assert (c = 0 \/ c = 1 \/ c = 2) as [->|[->| ->]] by lia; reflexivity.
Qed.

(** Loading what [savePPM] writes, into an image that holds no rows
    yet: the file's header, three channels, and the samples written. *)
Lemma loadPPM_saved (start img : Image) :
  data start = [] -> wf img -> ints_ok img = true ->
  exists out,
    loadPPM start (Some (ppm_text img)) = Ok (true, out)
    /\ wf out
    /\ header_is (maxVal img) (width img) (height img) 3 out
    /\ forall p, p ∈ idx3 (height img) (width img) 3 ->
         pixel_at out p = Ok (saved_sample img p).
Proof.
  intros Hstart Hwf Hi.
  destruct (ppm_text_reads img Hi) as (t0 & t1 & ws & -> & Hsp & Hhead & Hbody).
  destruct Hwf as (Hw & Hh & _).
  destruct (loadPPM_grid (width img) (height img) (maxVal img) Hw Hh)
    as (d & Hd & Hwf0 & _).
  destruct (load_run (saved_sample img) (idx3 (height img) (width img) 3)
              (NoDup_idx3 _ _ _) t1 ws _ Hwf0)
    as (out & Hrun & Hwfo & Hdims & Hmax & Hin & _); [|done|].
  { intros [[y x] c] Hp%elem_of_idx3. done. }
  exists out. split_and!; try done.
  etrans; [exact (loadPPM_header start _ _ _ _ t1 Hsp Hhead)|]. rewrite Hstart.
  by rewrite Hd, Hrun.
Qed.

(** X20: what [savePPM] writes for a well-shaped image of one channel,
    or of three or more, whose integers are [int]s, [loadPPM] reads
    back into an image that holds no rows yet: both return [true]; the
    loaded image has the width, height and maximum value of the saved
    one and three channels; a sample of a one-channel image comes back
    in all three channels, and of an image with more channels the
    first three come back. *)
Theorem savePPM_then_loadPPM (start img : Image) :
  data start = [] -> shape_ok img = true -> ints_ok img = true ->
  channels img = 1 \/ 3 <= channels img ->
  exists t out,
    savePPM img true = Ok (true, t)
    /\ loadPPM start (Some t) = Ok (true, out)
    /\ shape_ok out = true
    /\ header_is (maxVal img) (width img) (height img) 3 out
    /\ forall y x c,
         0 <= y < height img -> 0 <= x < width img -> 0 <= c < 3 ->
         pixel out y x c
         = Ok (sample img y x (if channels img =? 1 then 0 else c)).
Proof.
  intros Hstart Hwf%shape_ok_wf Hi Hch.
  destruct (loadPPM_saved start img Hstart Hwf Hi) as (out & Hload & Hwfo & Hh & Hpix).
  exists (ppm_text img), out. split_and!; try done.
  - by apply savePPM_text.
  - by apply shape_ok_wf.
  - intros y x c Hy Hx Hc.
    pose proof (Hpix (y, x, c) ltac:(by apply elem_of_idx3)) as Hp.
    unfold pixel_at, saved_sample in Hp. cbn [fst snd] in Hp. rewrite Hp.
    by destruct (channels img =? 1).
Qed.

Lemma savePPM_then_loadPPM_witness :
  exists t out,
    savePPM wide true = Ok (true, t)
    /\ loadPPM Image_default (Some t) = Ok (true, out)
    /\ shape_ok out = true
    /\ header_is (maxVal wide) (width wide) (height wide) 3 out
    /\ forall y x c,
         0 <= y < height wide -> 0 <= x < width wide -> 0 <= c < 3 ->
         pixel out y x c
         = Ok (sample wide y x (if channels wide =? 1 then 0 else c)).
Proof.
  apply (savePPM_then_loadPPM Image_default wide); try reflexivity.
  left. reflexivity.
Defined.

(** X21: saving a well-shaped three-channel image whose integers are
    [int]s and loading the file into an image that holds no rows yet
    gives the saved image back, sample for sample and with its maximum
    value. *)
Theorem savePPM_loadPPM_round_trip (start img : Image) :
  data start = [] -> shape_ok img = true -> ints_ok img = true ->
  channels img = 3 ->
  exists t,
    savePPM img true = Ok (true, t)
    /\ loadPPM start (Some t) = Ok (true, img).
Proof.
  intros Hstart Hwf%shape_ok_wf Hi Hch.
  destruct (loadPPM_saved start img Hstart Hwf Hi)
    as (out & Hload & Hwfo & (Hm & Hw & Hh & Hc) & Hpix).
  exists (ppm_text img). split; [apply savePPM_text; [done|lia]|].
  rewrite Hload. do 2 f_equal.
  apply image_ext; try done.
  - unfold same_dims. by rewrite Hw, Hh, Hc, Hch.
  - intros y x c (Hy & Hx & Hc3). rewrite Hch in Hc3.
    pose proof (Hpix (y, x, c) ltac:(by apply elem_of_idx3)) as Hp.
    unfold pixel_at, saved_sample in Hp. cbn [fst snd] in Hp. rewrite Hp.
    destruct (Z.eqb_spec (channels img) 1); [lia|].
    symmetry. apply pixel_sample; [done|]. unfold in_box. lia.
Qed.

Lemma savePPM_loadPPM_round_trip_witness :
  exists t,
    savePPM test_image true = Ok (true, t)
    /\ loadPPM Image_default (Some t) = Ok (true, test_image).
Proof.
  apply (savePPM_loadPPM_round_trip Image_default test_image); reflexivity.
Defined.

(* ================================================================== *)
(** * [loadPPM] on files that are short, ill-sized or loaded twice *)
(* ================================================================== *)

Lemma pixel_assign_same (img : Image) (y x c old : Z) :
  wf img -> pixel img y x c = Ok old -> pixel_assign img y x c old = Ok img.
Proof.
  intros Hwf Hold.
  destruct (decide (in_box img (y, x, c))) as [Hb|Hb];
    [|by rewrite pixel_outside in Hold].
  destruct (pixel_assign_spec img y x c old Hwf Hb)
    as (img' & Ha & Hwf' & Hdims & Hmax & Hpix).
  rewrite Ha. f_equal. apply image_ext; try done.
  intros y' x' c' _. pose proof (Hpix (y', x', c')) as Hq.
  unfold pixel_at in Hq. rewrite Hq.
  destruct (decide _) as [[= -> -> ->]|]; done.
Qed.

Lemma read_int_exhausted (file : istream) (old : Z) :
  exhausted file ->
  exists file', read_int file old = (old, file') /\ exhausted file'.
Proof.
  intros [Hf|[Hf Hws]]; unfold read_int; rewrite Hf.
  - exists file. split; [done|]. by left.
  - rewrite <- (app_nil_r (rest file)), skip_space_app by done.
    eexists. split; [reflexivity|]. by left.
Qed.

(** Once the stream has failed, or has only white space left, the loop
    leaves the samples as they are. *)
Lemma load_run_exhausted (idxs : list (Z * Z * Z)) (img : Image) :
  wf img -> (forall p, p ∈ idxs -> in_box img p) ->
  forall file,
    exhausted file ->
    exists file', run load_at idxs (file, img) = Ok (file', img).
Proof.
  intros Hwf. induction idxs as [|[[y x] c] l IH]; intros Hbox file Hex.
  - by exists file.
  - destruct (pixel_in_box img y x c Hwf (Hbox _ (list_elem_of_here _ _)))
      as (old & Hold).
    destruct (read_int_exhausted file old Hex) as (file1 & Hread & Hex1).
    cbn [run].
    rewrite (load_at_step _ _ _ _ _ _ _ _ _ Hold Hread
               (pixel_assign_same _ _ _ _ _ Hwf Hold)), bind_Ok.
    apply IH; [|done]. intros p Hp. by apply Hbox, list_elem_of_further.
Qed.

(** Reading a list of integers, each followed by a space, into the
    samples a loop visits: the i-th sample visited gets the i-th
    integer, and when the integers run out the samples left stay as
    they are. *)
Lemma load_run_list (idxs : list (Z * Z * Z)) :
  NoDup idxs ->
  forall vs ws img0,
    wf img0 ->
    (forall p, p ∈ idxs -> in_box img0 p) ->
    Forall (fun v => INT_MIN <= v <= INT_MAX) vs ->
    Forall (fun c => is_space c = true) ws ->
    exists file out,
      run load_at idxs
        ({| rest := ws ++ (vs ≫= (fun v => show_int v ++ [sp])); failed := false |},
         img0)
      = Ok (file, out)
      /\ wf out /\ same_dims out img0 /\ maxVal out = maxVal img0
      /\ (forall i p, idxs !! i = Some p ->
            pixel_at out p
            = match vs !! i with Some v => Ok v | None => pixel_at img0 p end)
      /\ (forall q, q ∉ idxs -> pixel_at out q = pixel_at img0 q).
Proof.
  induction idxs as [|p l IH]; intros Hnd vs ws img0 Hwf Hbox Hvs Hws.
  - eexists _, img0. split_and!; try done.
  - destruct vs as [|v vs].
    + destruct (load_run_exhausted (p :: l) img0 Hwf Hbox
                  {| rest := ws ++ []; failed := false |}) as (file' & Hrun).
      { right. split; [done|]. cbn [rest]. by rewrite app_nil_r. }
      exists file', img0. split_and!; try done.
    + apply NoDup_cons in Hnd as [Hfresh Hnd].
      apply Forall_cons in Hvs as [Hv Hvs].
      pose proof (Hbox p (list_elem_of_here _ _)) as Hbp.
      destruct p as [[y x] c].
      destruct (pixel_in_box img0 y x c Hwf Hbp) as (old & Hold).
      destruct (pixel_assign_spec img0 y x c v Hwf Hbp)
        as (img1 & Ha & Hwf1 & Hdims1 & Hmax1 & Hpix1).
      destruct (IH Hnd vs [sp] img1 Hwf1)
        as (file & out & Hrun & Hwfo & Hdims & Hmax & Hin & Hout);
        [|done|by repeat constructor|].
      { intros q Hq. apply (in_box_same_dims img0).
        - by apply same_dims_sym.
        - by apply Hbox, list_elem_of_further. }
      exists file, out. split_and!; try done.
      * cbn [run]. rewrite bind_cons, <- (app_assoc (show_int v)).
        rewrite (load_at_step _ _ _ _ _ _ _ _ _ Hold
                   (read_int_show_int v old ws ([sp] ++ _) Hv Hws
                      (space_no_digit sp eq_refl)) Ha), bind_Ok.
        exact Hrun.
      * by apply (same_dims_trans _ img1).
      * congruence.
      * intros [|i] q Hq; cbn [lookup list_lookup] in Hq |- *.
        -- injection Hq as <-. rewrite Hout by done.
           rewrite Hpix1. by rewrite decide_True.
        -- rewrite (Hin i q Hq). destruct (vs !! i); [done|].
           rewrite Hpix1. rewrite decide_False; [done|].
           intros ->. apply Hfresh. by eapply list_elem_of_lookup_2.
      * intros q Hq. apply not_elem_of_cons in Hq as [Hne Hq].
        rewrite Hout by done. rewrite Hpix1. by rewrite decide_False.
Qed.

Lemma lookup_bind_blocks {A B : Type} (f : A -> list B) (n : nat) (l : list A) :
  (forall a, length (f a) = n) ->
  forall i j a,
    l !! i = Some a -> (j < n)%nat ->
    (l ≫= f) !! (i * n + j)%nat = f a !! j.
Proof.
  intros Hlen. induction l as [|b l IH]; intros i j a Hi Hj; [done|].
  rewrite bind_cons. destruct i as [|i]; cbn [lookup list_lookup] in Hi.
  - injection Hi as ->. rewrite lookup_app_l by (rewrite Hlen; lia). done.
  - rewrite lookup_app_r by (rewrite Hlen; lia). rewrite Hlen.
    replace (Datatypes.S i * n + j - n)%nat with (i * n + j)%nat by lia.
    by apply IH.
Qed.

Lemma lookup_idx3 (n1 n2 : Z) (y x c : Z) :
  0 <= y < n1 -> 0 <= x < n2 -> 0 <= c < 3 ->
  idx3 n1 n2 3 !! row_major n2 (y, x, c) = Some (y, x, c).
Proof.
  intros Hy Hx Hc. unfold row_major. cbn [fst snd].
  replace (Z.to_nat ((y * n2 + x) * 3 + c))
    with ((Z.to_nat y * Z.to_nat n2 + Z.to_nat x) * 3 + Z.to_nat c)%nat by lia.
  unfold idx3.
  rewrite (lookup_bind_blocks (fun ij : Z * Z => pair ij <$> seqZ 0 3) 3 _
             ltac:(intros; cbv beta; by rewrite length_fmap, length_seqZ) _ _ (y, x));
    [| |lia].
  - rewrite list_lookup_fmap, lookup_seqZ_lt by lia.
    cbn [fmap option_fmap option_map]. do 2 f_equal. lia.
  - unfold idx2.
    rewrite (lookup_bind_blocks (fun i : Z => pair i <$> seqZ 0 n2)
               (Z.to_nat n2) _
               ltac:(intros; cbv beta; by rewrite length_fmap, length_seqZ)
               _ _ y); [| |lia].
    + rewrite list_lookup_fmap, lookup_seqZ_lt by lia.
      cbn [fmap option_fmap option_map]. do 2 f_equal. lia.
    + rewrite lookup_seqZ_lt by lia. f_equal. lia.
Qed.

Lemma ppm_file_reads (w h m : Z) (vs : list Z) :
  INT_MIN <= w <= INT_MAX -> INT_MIN <= h <= INT_MAX -> INT_MIN <= m <= INT_MAX ->
  exists t0,
    ppm_file w h m vs = "P"%char :: "3"%char :: t0
    /\ space_ahead t0
    /\ reads [w; h; m] t0 ([nl] ++ (vs ≫= (fun v => show_int v ++ [sp]))).
Proof.
  intros Hw Hh Hm. eexists. split_and!; [reflexivity|done|]. cbn [app].
  apply (reads_cons _ _ [nl]); [by repeat constructor|done|done|].
  apply (reads_cons _ _ [sp]); [by repeat constructor|done|done|].
  apply (reads_cons _ _ [nl]); [by repeat constructor|done|done|constructor].
Qed.

(** X22: [loadPPM] takes the integers after the header in row-major
    order, three to a pixel.  For a file that holds a P3 header with a
    width and a height that are not negative and then any integers,
    loaded into an image that holds no rows yet, it returns [true];
    sample [(y, x, c)] is integer number [(y * width + x) * 3 + c] of
    the file, and 0 when the file holds fewer: a file that is too
    short is loaded without complaint. *)
Theorem loadPPM_row_major (start : Image) (w h m : Z) (vs : list Z) :
  data start = [] ->
  0 <= w <= INT_MAX -> 0 <= h <= INT_MAX -> INT_MIN <= m <= INT_MAX ->
  forallb int_ok vs = true ->
  exists out,
    loadPPM start (Some (ppm_file w h m vs)) = Ok (true, out)
    /\ shape_ok out = true
    /\ header_is m w h 3 out
    /\ forall y x c,
         0 <= y < h -> 0 <= x < w -> 0 <= c < 3 ->
         pixel out y x c = Ok (nth (row_major w (y, x, c)) vs 0).
Proof.
  intros Hstart Hw Hh Hm Hvs.
  apply (forallb_Forall _ (fun v => INT_MIN <= v <= INT_MAX)) in Hvs;
    [|apply int_ok_spec].
  destruct (ppm_file_reads w h m vs) as (t0 & -> & Hsp & Hhead);
    [unfold INT_MIN; lia|unfold INT_MIN; lia|done|].
  destruct (loadPPM_grid w h m) as (d & Hd & Hwf0 & Hzero); [lia|lia|].
  destruct (load_run_list (idx3 h w 3) (NoDup_idx3 _ _ _) vs [nl] _ Hwf0)
    as (file & out & Hrun & Hwfo & Hdims & Hmax & Hin & _);
    [|done|by repeat constructor|].
  { intros [[y x] c] Hp%elem_of_idx3. done. }
  exists out. split_and!.
  - etrans; [exact (loadPPM_header start _ _ _ _ _ Hsp Hhead)|].
    by rewrite Hstart, Hd, Hrun.
  - by apply shape_ok_wf.
  - destruct Hdims as (? & ? & ?). done.
  - intros y x c Hy Hx Hc.
    pose proof (Hin _ _ (lookup_idx3 h w y x c Hy Hx Hc)) as Hp.
    unfold pixel_at in Hp at 1. rewrite Hp, nth_lookup.
    destruct (vs !! _); [done|]. by apply Hzero.
Qed.

Lemma loadPPM_row_major_witness :
  exists out,
    loadPPM Image_default (Some (ppm_file 2 1 255 [1; 2; 3; 4])) = Ok (true, out)
    /\ shape_ok out = true
    /\ header_is 255 2 1 3 out
    /\ forall y x c,
         0 <= y < 1 -> 0 <= x < 2 -> 0 <= c < 3 ->
         pixel out y x c = Ok (nth (row_major 2 (y, x, c)) [1; 2; 3; 4] 0).
Proof.
  apply (loadPPM_row_major Image_default 2 1 255 [1; 2; 3; 4]);
    try reflexivity; unfold INT_MIN, INT_MAX; lia.
Defined.

(** X23: a header with a negative width or a negative height makes
    [loadPPM] ask for a vector of negative length, which is a length
    error, not a [false] return. *)
Theorem loadPPM_negative_size (start : Image) (w h m : Z) (vs : list Z) :
  INT_MIN <= w <= INT_MAX -> INT_MIN <= h <= INT_MAX -> INT_MIN <= m <= INT_MAX ->
  w < 0 \/ h < 0 ->
  loadPPM start (Some (ppm_file w h m vs)) = Fault LengthError.
Proof.
  intros Hw Hh Hm Hneg.
  destruct (ppm_file_reads w h m vs Hw Hh Hm) as (t0 & -> & Hsp & Hhead).
  etrans; [exact (loadPPM_header start _ _ _ _ _ Hsp Hhead)|].
  unfold vec_make, vec_resize. cbn [Z.ltb Z.compare]. rewrite bind_Ok.
  destruct (Z.ltb_spec w 0); [done|]. rewrite bind_Ok.
  destruct (Z.ltb_spec h 0); [done|lia].
Qed.

Lemma loadPPM_negative_size_witness :
  loadPPM Image_default (Some (ppm_file (-1) 1 255 [])) = Fault LengthError.
Proof.
  apply (loadPPM_negative_size Image_default (-1) 1 255 []);
    unfold INT_MIN, INT_MAX; lia.
Defined.

Lemma for_range_first_fault {S : Type} (n : Z) (body : Z -> S -> result S)
    (s : S) (e : fault) :
  0 < n -> body 0 s = Fault e -> for_range n body s = Fault e.
Proof.
  intros Hn Hb. rewrite for_range_run, seqZ_cons by done.
  by apply run_first_fault.
Qed.

(** X24: [savePPM] writes three samples of each pixel unless the image
    has exactly one channel.  On a well-shaped image of two channels, or
    of none, that has a pixel, it reads past the end of the first
    pixel's samples. *)
Theorem savePPM_too_few_channels (img : Image) :
  shape_ok img = true -> channels img = 0 \/ channels img = 2 ->
  0 < width img -> 0 < height img ->
  savePPM img true = Fault OutOfRange.
Proof.
  intros Hwf%shape_ok_wf Hch Hw Hh. unfold savePPM. cbn [negb]. cbv zeta.
  rewrite (for_range_first_fault _ _ _ OutOfRange); [done|done|].
  rewrite (for_range_first_fault _ _ _ OutOfRange); [done|done|].
  destruct (Z.eqb_spec (channels img) 1); [lia|].
  rewrite for_range_run, seqZ_0_3. cbn [run].
  destruct Hch as [H0|H2].
  - rewrite (pixel_outside img 0 0 0) by (done || (unfold in_box; lia)). done.
  - rewrite (pixel_sample img 0 0 0) by (done || (unfold in_box; lia)).
    rewrite bind_Ok. cbv beta.
    rewrite (pixel_sample img 0 0 1) by (done || (unfold in_box; lia)).
    rewrite bind_Ok. cbv beta.
    rewrite (pixel_outside img 0 0 2) by (done || (unfold in_box; lia)). done.
Qed.

Lemma savePPM_too_few_channels_witness :
  savePPM {| width := 1; height := 1; maxVal := 255; channels := 2;
             data := [ [[1; 2]] ] |} true
  = Fault OutOfRange.
Proof.
  apply savePPM_too_few_channels; [reflexivity|right; reflexivity|cbn; lia..].
Defined.

(** X25: when [loadPPM] returns [false] it has not touched the image. *)
Theorem loadPPM_false_keeps_image (img out : Image) (content : option text) :
  loadPPM img content = Ok (false, out) -> out = img.
Proof.
  unfold loadPPM. destruct content as [chars|]; [|congruence].
  destruct (read_word _) as [format file].
  destruct (negb (is_P3 format)); [congruence|].
  destruct (read_int file (width img)) as [w file1].
  destruct (read_int file1 (height img)) as [h file2].
  destruct (read_int file2 (maxVal img)) as [m file3].
  intros H.
  apply bind_Ok_inv in H as (px & _ & H).
  apply bind_Ok_inv in H as (row & _ & H).
  apply bind_Ok_inv in H as (d & _ & H).
  apply bind_Ok_inv in H as (s & _ & H). discriminate.
Qed.

Lemma loadPPM_false_keeps_image_witness :
  loadPPM low (Some ["P"%char; "6"%char; nl]) = Ok (false, low) /\ low = low.
Proof.
  split; [reflexivity|].
  apply (loadPPM_false_keeps_image low low (Some ["P"%char; "6"%char; nl])).
  reflexivity.
Defined.

(** A run each step of which either keeps [P] or faults with [e], and
    one index of which faults in every state with [P], faults with
    [e]. *)
Lemma run_faults_under {I S : Type} (P : S -> Prop) (e : fault)
    (body : I -> S -> result S) (idxs : list I) :
  (forall i s, i ∈ idxs -> P s ->
     (exists s', body i s = Ok s' /\ P s') \/ body i s = Fault e) ->
  (exists p, p ∈ idxs /\ forall s, P s -> body p s = Fault e) ->
  forall s, P s -> run body idxs s = Fault e.
Proof.
  induction idxs as [|i l IH]; intros Hstep (p & Hp & Hfault) s Hs.
  - by apply elem_of_nil in Hp.
  - cbn [run]. destruct (Hstep i s (list_elem_of_here _ _) Hs)
      as [(s' & Hb & Hs') | Hb]; rewrite Hb; [|reflexivity].
    rewrite bind_Ok. apply elem_of_cons in Hp as [->|Hp].
    + rewrite (Hfault s Hs) in Hb. discriminate.
    + apply IH; [|by exists p|done].
      intros j t Hj. by apply Hstep, list_elem_of_further.
Qed.

Lemma vec_at_fault {A : Type} (v : list A) (i : Z) (e : fault) :
  vec_at v i = Fault e -> e = OutOfRange.
Proof.
  unfold vec_at. destruct (i <? 0); [congruence|].
  destruct (v !! Z.to_nat i); congruence.
Qed.

Lemma vec_set_fault {A : Type} (v : list A) (i : Z) (a : A) (e : fault) :
  vec_set v i a = Fault e -> e = OutOfRange.
Proof.
  unfold vec_set. destruct (_ && _); congruence.
Qed.

Lemma bind_fault_inv {A B : Type} (m : result A) (k : A -> result B) (e : fault) :
  m ≫= k = Fault e -> m = Fault e \/ exists a, m = Ok a /\ k a = Fault e.
Proof. destruct m as [a|e']; cbn; [eauto|intros [= ->]; eauto]. Qed.

Lemma pixel_fault (img : Image) (y x c : Z) (e : fault) :
  pixel img y x c = Fault e -> e = OutOfRange.
Proof.
  unfold pixel. intros H.
  apply bind_fault_inv in H as [H|(row & _ & H)]; [by eapply vec_at_fault|].
  apply bind_fault_inv in H as [H|(px & _ & H)]; by eapply vec_at_fault.
Qed.

Lemma pixel_assign_fault (img : Image) (y x c v : Z) (e : fault) :
  pixel_assign img y x c v = Fault e -> e = OutOfRange.
Proof.
  unfold pixel_assign. intros H.
  apply bind_fault_inv in H as [H|(row & _ & H)]; [by eapply vec_at_fault|].
  apply bind_fault_inv in H as [H|(px & _ & H)]; [by eapply vec_at_fault|].
  apply bind_fault_inv in H as [H|(px' & _ & H)]; [by eapply vec_set_fault|].
  apply bind_fault_inv in H as [H|(row' & _ & H)]; [by eapply vec_set_fault|].
  apply bind_fault_inv in H as [H|(d' & _ & H)]; [by eapply vec_set_fault|].
  discriminate.
Qed.

(** An assignment to a sample changes the length of no row. *)
Lemma pixel_assign_row_length (img img' : Image) (y x c v : Z) (n : nat) :
  pixel_assign img y x c v = Ok img' ->
  (exists r, data img !! 0%nat = Some r /\ length r = n) ->
  exists r, data img' !! 0%nat = Some r /\ length r = n.
Proof.
  unfold pixel_assign. intros H (r & Hr & Hn).
  apply bind_Ok_inv in H as (row & Hrow & H).
  apply bind_Ok_inv in H as (px & _ & H).
  apply bind_Ok_inv in H as (px' & _ & H).
  apply bind_Ok_inv in H as (row' & Hrow' & H).
  apply bind_Ok_inv in H as (d' & Hd' & H).
  injection H as <-. cbn [data with_data].
  apply vec_at_Ok in Hrow as [Hy Hrow].
  apply vec_set_inv in Hrow' as [_ ->]. apply vec_set_inv in Hd' as [_ ->].
  destruct (decide (Z.to_nat y = 0%nat)) as [Hy0|Hy0].
  - rewrite Hy0 in *. exists (<[Z.to_nat x:=px']> row).
    rewrite list_lookup_insert_eq by (apply lookup_lt_Some in Hr; lia).
    split; [done|]. rewrite length_insert. congruence.
  - exists r. by rewrite list_lookup_insert_ne.
Qed.

Lemma load_at_row_length (p : Z * Z * Z) (s : istream * Image) (n : nat) :
  (exists r, data s.2 !! 0%nat = Some r /\ length r = n) ->
  (exists s', load_at p s = Ok s'
              /\ exists r, data s'.2 !! 0%nat = Some r /\ length r = n)
  \/ load_at p s = Fault OutOfRange.
Proof.
  intros HP. unfold load_at, load_sample.
  destruct (pixel s.2 p.1.1 p.1.2 p.2) as [old|e] eqn:Hold.
  - rewrite bind_Ok. destruct (read_int s.1 old) as [v file].
    destruct (pixel_assign s.2 p.1.1 p.1.2 p.2 v) as [img'|e] eqn:Ha.
    + left. eexists. split; [reflexivity|]. cbn [snd].
      by eapply pixel_assign_row_length.
    + right. by rewrite (pixel_assign_fault _ _ _ _ _ _ Ha).
  - right. by rewrite (pixel_fault _ _ _ _ _ Hold).
Qed.

(** X26: [loadPPM] keeps the rows an image already holds, at the width
    they have.  Loading a file whose header gives a greater width into
    a well-shaped image that holds a row indexes past the end of that
    row. *)
Theorem loadPPM_reload_wider (start : Image) (w h m : Z) (vs : list Z) :
  shape_ok start = true -> 0 < height start ->
  width start < w <= INT_MAX -> 0 < h <= INT_MAX -> INT_MIN <= m <= INT_MAX ->
  loadPPM start (Some (ppm_file w h m vs)) = Fault OutOfRange.
Proof.
  intros Hwf%shape_ok_wf Hhs Hw Hh Hm.
  destruct Hwf as (Hw0 & _ & _ & Hlen & Hrows).
  destruct (ppm_file_reads w h m vs) as (t0 & -> & Hsp & Hhead);
    [unfold INT_MIN; lia|unfold INT_MIN; lia|done|].
  etrans; [exact (loadPPM_header start _ _ _ _ _ Hsp Hhead)|].
  unfold vec_make, vec_resize. cbn [Z.ltb Z.compare]. rewrite bind_Ok.
  destruct (Z.ltb_spec w 0); [lia|]. rewrite bind_Ok.
  destruct (Z.ltb_spec h 0); [lia|]. rewrite bind_Ok.
  rewrite (run_faults_under
             (fun s : istream * Image =>
                exists r, data s.2 !! 0%nat = Some r
                          /\ length r = Z.to_nat (width start)) OutOfRange);
    [done| | |].
  - intros p s _ HP. by apply load_at_row_length.
  - exists (0, width start, 0). split; [apply elem_of_idx3; lia|].
    intros s (r & Hr & Hn). unfold load_at, load_sample, pixel. cbn [fst snd].
    rewrite (vec_at_lookup _ 0 r) by done. rewrite bind_Ok.
    rewrite vec_at_outside by lia. done.
  - cbn [snd data].
    destruct (lookup_lt_is_Some_2 (data start) 0) as [r Hr]; [lia|].
    exists r. split.
    + rewrite lookup_app_l by (rewrite length_take; lia).
      rewrite lookup_take_lt by lia. done.
    + pose proof (proj1 (Forall_lookup _ _) Hrows _ _ Hr) as [Hlr _].
      lia.
Qed.

Lemma loadPPM_reload_wider_witness :
  loadPPM low (Some (ppm_file 2 1 255 [1; 2; 3; 4; 5; 6])) = Fault OutOfRange.
Proof.
  apply (loadPPM_reload_wider low 2 1 255 [1; 2; 3; 4; 5; 6]);
    try reflexivity; unfold INT_MIN, INT_MAX; cbn; lia.
Defined.
